(** * Quiz CLI: the quiz session, its randomizer and its input port

    A shallow embedding of [src/quiz.js] and [src/input.js] of the quiz
    command-line game, with the game loop of [index.js], and the
    properties of its specification.

    - JavaScript numbers that take part in a division are IEEE 754 binary64
      values, written with the bit-level specification of the Standard
      Library ([SpecFloat]); counters and indices, which only ever hold
      small integers, are [nat] and [Z].
    - Arrays are lists; where a function copies an array and mutates the
      copy ([shuffle]) the arrays live in a store indexed by references.
    - The terminal is a world made of the lines still to be typed and the
      transcript written so far; a prompt that finds no line left never
      resolves, which the model writes [None].
    - [Math.random] is a parameter: a sequence of Numbers. [shuffle] is
      followed as long as its subscripts stay inside the array, which
      they do for every sequence that keeps the contract of
      [Math.random]; elsewhere the model has no result.

    The file goes: the program (numbers, strings, randomizer, colors,
    input port, quiz session); the vocabulary of the specification and
    sample sessions; the properties, with binary64 rounding first; then
    further properties of the code. *)

From Stdlib Require Import ZArith String Ascii DecimalString Bool Lia.
From Stdlib Require Import SpecFloat.
From Stdlib Require DecimalFacts DecimalNat.
From stdpp Require Import base option list gmap.

Local Open Scope Z_scope.

(** ** Numbers *)

Module Number.

Definition prec : Z := 53.
Definition emax : Z := 1024.

(** A JavaScript Number. *)
Definition t : Type := spec_float.

Definition NaN : t := S754_nan.

(** The Number nearest to an integer (exact below 2^53). *)
Definition of_Z (z : Z) : t := binary_normalize prec emax z 0 false.
Definition of_nat (n : nat) : t := of_Z (Z.of_nat n).

(** [x / y] and [x * y]. *)
Definition div (x y : t) : t := SFdiv prec emax x y.
Definition mul (x y : t) : t := SFmul prec emax x y.

(** [x === y], [x >= y] and [x < y] on Numbers; all three are false as
    soon as one side is NaN. *)
Definition strict_eq (x y : t) : bool := SFeqb x y.
Definition ge (x y : t) : bool := SFleb y x.
Definition lt (x y : t) : bool := SFltb x y.

(** The signed mantissa of a finite Number. *)
Definition signed (s : bool) (m : positive) : Z :=
  if s then Z.neg m else Z.pos m.

(** [Math.round(x)]: the integer nearest to [x], a tie going up; NaN,
    the infinities and the zeros are returned as they are, and a result
    that is zero keeps the sign of [x]. For [x = v * 2^e] with [e < 0]
    the integer is [floor (x + 1/2) = (2 v + 2^-e) / 2^(1-e)]. *)
Definition Math_round (x : t) : t :=
  match x with
  | S754_finite s m e =>
      if 0 <=? e then x
      else
        let n := (2 * signed s m + 2 ^ (- e)) / 2 ^ (1 - e) in
        if n =? 0 then S754_zero s else of_Z n
  | _ => x
  end.

(** [Math.floor(x)]: the greatest integer that is not above [x]; NaN,
    the infinities and the zeros are returned as they are, and a
    positive [x] below 1 gives +0. For [x = v * 2^e] with [e < 0] the
    integer is [floor (v / 2^-e)]. *)
Definition Math_floor (x : t) : t :=
  match x with
  | S754_finite s m e =>
      if 0 <=? e then x
      else
        let n := signed s m / 2 ^ (- e) in
        if n =? 0 then S754_zero s else of_Z n
  | _ => x
  end.

(** [x - y] *)
Definition sub (x y : t) : t := SFsub prec emax x y.

(** The integer part of a Number, toward zero; zero for NaN, the zeros
    and the infinities, which the callers tell apart first. *)
Definition truncate (x : t) : Z :=
  match x with
  | S754_finite s m e =>
      if 0 <=? e then signed s m * 2 ^ e
      else Z.quot (signed s m) (2 ^ (- e))
  | _ => 0
  end.

(** The integer a Number is, if it is one. *)
Definition to_Z (x : t) : option Z :=
  match x with
  | S754_zero _ => Some 0
  | S754_finite s m e =>
      if 0 <=? e then Some (signed s m * 2 ^ e)
      else if Z.pos m mod 2 ^ (- e) =? 0 then Some (signed s m / 2 ^ (- e))
      else None
  | _ => None
  end.

End Number.

(** ** Strings

    A string is the sequence of the bytes of its UTF-8 encoding. *)

Module Str.

Local Open Scope string_scope.

Definition byte (n : nat) : string := String (ascii_of_nat n) EmptyString.

(** The white space and line terminators that [String.prototype.trim]
    and [parseInt] skip: U+0009 to U+000D, U+0020, U+00A0, U+1680,
    U+2000 to U+200A, U+2028, U+2029, U+202F, U+205F, U+3000, U+FEFF. *)
Definition seq3 (a b c : nat) : string :=
  String (ascii_of_nat a) (String (ascii_of_nat b) (byte c)).

Definition white_space : list string :=
  [ byte 9; byte 10; byte 11; byte 12; byte 13; byte 32;
    String (ascii_of_nat 194) (byte 160);
    seq3 225 154 128;
    seq3 226 128 128; seq3 226 128 129; seq3 226 128 130;
    seq3 226 128 131; seq3 226 128 132; seq3 226 128 133;
    seq3 226 128 134; seq3 226 128 135; seq3 226 128 136;
    seq3 226 128 137; seq3 226 128 138;
    seq3 226 128 168; seq3 226 128 169; seq3 226 128 175;
    seq3 226 129 159; seq3 227 128 128; seq3 239 187 191 ].

(** What is left of [s] after the prefix [p], if [p] is a prefix. *)
Fixpoint strip_prefix (p s : string) : option string :=
  match p, s with
  | EmptyString, _ => Some s
  | String a p', String b s' =>
      if Ascii.eqb a b then strip_prefix p' s' else None
  | String _ _, EmptyString => None
  end.

(** [s] without one leading white-space character, if it has one. *)
Definition skip_one (s : string) : option string :=
  list_find (fun r => is_Some r)
    ((fun ws => strip_prefix ws s) <$> white_space) ≫= snd.

(** [s] without its leading white space. Every white-space character
    takes at least one byte, so the length of [s] bounds the number of
    characters to skip. *)
Fixpoint skip_leading (fuel : nat) (s : string) : string :=
  match fuel with
  | O => s
  | S fuel' =>
      match skip_one s with
      | Some s' => skip_leading fuel' s'
      | None => s
      end
  end.

Definition trimStart (s : string) : string :=
  skip_leading (String.length s) s.

Definition rev (s : string) : string :=
  string_of_list_ascii (List.rev (list_ascii_of_string s)).

(** The white-space encodings read backwards, to strip a suffix. *)
Definition skip_one_end (r : string) : option string :=
  list_find (fun o => is_Some o)
    ((fun ws => strip_prefix (rev ws) r) <$> white_space) ≫= snd.

Fixpoint skip_trailing (fuel : nat) (r : string) : string :=
  match fuel with
  | O => r
  | S fuel' =>
      match skip_one_end r with
      | Some r' => skip_trailing fuel' r'
      | None => r
      end
  end.

Definition trimEnd (s : string) : string :=
  rev (skip_trailing (String.length s) (rev s)).

(** [s.trim()] *)
Definition trim (s : string) : string := trimEnd (trimStart s).

(** The value of a decimal digit. *)
Definition digit (c : ascii) : option Z :=
  let n := Z.of_nat (nat_of_ascii c) in
  if ((48 <=? n) && (n <=? 57))%Z then Some (n - 48)%Z else None.

(** The longest prefix of decimal digits of [s], read as an integer
    continuing [acc]; [seen] tells whether a digit was read. *)
Fixpoint digits (s : string) (seen : bool) (acc : Z) : option Z :=
  match s with
  | String c s' =>
      match digit c with
      | Some d => digits s' true (10 * acc + d)%Z
      | None => if seen then Some acc else None
      end
  | EmptyString => if seen then Some acc else None
  end.

(** [parseInt(s, 10)]: leading white space is skipped, then an optional
    sign, then the longest run of decimal digits; [None] is NaN, the
    answer when there is no digit. The integer is kept exact: the
    rounding to binary64 that the language applies changes a value only
    beyond 2^53, far above any array length it is compared with. *)
Definition parseInt (s : string) : option Z :=
  match trimStart s with
  | String "-" s' => Z.opp <$> digits s' false 0
  | String "+" s' => digits s' false 0
  | s' => digits s' false 0
  end.

(** The decimal numeral of a natural number, as a template literal
    prints it. *)
Definition of_nat (n : nat) : string :=
  NilEmpty.string_of_uint (Nat.to_uint n).

(** The decimal numeral of an integer. *)
Definition of_Z (z : Z) : string :=
  if (z <? 0)%Z then "-" ++ of_nat (Z.abs_nat z) else of_nat (Z.to_nat z).

(** A Number in a template literal. An integer below 2^53 in size
    prints as its decimal numeral, a zero without its sign. [None] is
    for the Numbers whose numeral the model does not compute: those
    that are not integers, and the larger ones, which print their
    shortest digits that read back. *)
Definition of_Number (x : Number.t) : option string :=
  match x with
  | S754_nan => Some "NaN"
  | S754_infinity s => Some (if s then "-Infinity" else "Infinity")
  | _ =>
      match Number.to_Z x with
      | Some z => if (Z.abs z <? 2 ^ 53)%Z then Some (of_Z z) else None
      | None => None
      end
  end.

(** [s.toLowerCase()] on the letters A to Z. The letters outside ASCII
    are left as they are: [confirm] only asks whether the result starts
    with [y], and [y] and [Y] are the only characters that lower to a
    text that does. *)
Definition lower (c : ascii) : ascii :=
  let n := nat_of_ascii c in
  if ((65 <=? n) && (n <=? 90))%nat then ascii_of_nat (n + 32) else c.

Fixpoint toLowerCase (s : string) : string :=
  match s with
  | EmptyString => EmptyString
  | String c s' => String (lower c) (toLowerCase s')
  end.

(** [s.startsWith(p)] *)
Definition startsWith (s p : string) : bool :=
  match strip_prefix p s with
  | Some _ => true
  | None => false
  end.

(** [s.includes(p)] *)
Fixpoint includes (s p : string) : bool :=
  startsWith s p
  || match s with
     | EmptyString => false
     | String _ s' => includes s' p
     end.

End Str.

(** ** Randomizer ([shuffle], quiz.js)

    [Math.random()] is a source of Numbers: its k-th call returns
    [random k]. A program threads the number of calls made so far. *)

Module Randomizer.

Section Shuffle.

Context {A : Type}.
Variable random : nat -> Number.t.

(** The contract of [Math.random]: a Number of the format, at least 0
    and less than 1 (so neither NaN nor an infinity). *)
Definition unit_interval : Prop :=
  forall k,
    valid_binary Number.prec Number.emax (random k) = true /\
    Number.ge (random k) (Number.of_Z 0) = true /\
    Number.lt (random k) (Number.of_Z 1) = true.

(** [Math.floor(Math.random() * (i + 1))], at the k-th call: the
    product is rounded to a Number before its floor is taken. *)
Definition draw (k i : nat) : Number.t :=
  Number.Math_floor (Number.mul (random k) (Number.of_nat (i + 1))).

(** The element that the subscript [j] of [result[j]] names: the
    Numbers that are integers from 0 on name elements (either zero names
    the first); NaN, the infinities, negative and fractional Numbers
    name none. *)
Definition index (j : Number.t) : option nat :=
  match Number.to_Z j with
  | Some z => if 0 <=? z then Some (Z.to_nat z) else None
  | None => None
  end.

(** [[result[i], result[j]] = [result[j], result[i]]]: both elements are
    read, then written crosswise, [result[i]] first. The lists of the
    model hold the case where [i] and [j] are inside the array. With a
    subscript outside it JavaScript reads [undefined], stores it at [i]
    and adds an element or a property at [j]; a list of questions has
    neither, and the model has no result: [None]. *)
Definition swap (result : list A) (i : nat) (j : Number.t)
    : option (list A) :=
  match index j with
  | Some j =>
      match result !! j, result !! i with
      | Some at_j, Some at_i => Some (<[j := at_i]> (<[i := at_j]> result))
      | _, _ => None
      end
  | None => None
  end.

(** The loop [for (let i = ...; i > 0; i--)] on the contents of
    [result], entered with the current [i] and call count [k]. *)
Fixpoint shuffle_loop (i : nat) (result : list A) (k : nat)
    : option (list A * nat) :=
  match i with
  | O => Some (result, k)
  | S i' =>
      match swap result i (draw k i) with
      | Some swapped => shuffle_loop i' swapped (S k)
      | None => None
      end
  end.

(** The contents of the array that [shuffle] returns for an array
    holding [array]: a copy, run through the loop from its last index. *)
Definition shuffled (array : list A) (k : nat) : option (list A * nat) :=
  shuffle_loop (length array - 1) array k.

(** *** The store

    Arrays are objects: a variable holds a reference, and the store
    maps references to contents. *)

Definition ref : Type := nat.

(** The same loop, mutating the array behind [result] in place. *)
Fixpoint shuffle_in_place (i : nat) (result : ref)
    (st : gmap ref (list A)) (k : nat) : option (gmap ref (list A) * nat) :=
  match i with
  | O => Some (st, k)
  | S i' =>
      match swap (st !!! result) i (draw k i) with
      | Some swapped =>
          shuffle_in_place i' result (<[result := swapped]> st) (S k)
      | None => None
      end
  end.

(** [shuffle(array)]: [const result = [...array]] allocates a new array
    with the elements of [array]; the loop mutates it; it is returned. *)
Definition shuffle (array : ref) (st : gmap ref (list A)) (k : nat)
    : option (ref * gmap ref (list A) * nat) :=
  let result := fresh (dom st) in
  let st1 := <[result := st !!! array]> st in
  match shuffle_in_place (length (st1 !!! result) - 1) result st1 k with
  | Some (st2, k') => Some (result, st2, k')
  | None => None
  end.

End Shuffle.

End Randomizer.

(** ** Colors (colors.js): ANSI escape codes around a text *)

Module Colors.

Local Open Scope string_scope.

Definition esc : string := String (ascii_of_nat 27) EmptyString.

Definition reset : string := esc ++ "[0m".

(** [colorize(text, 'bold')] *)
Definition bold (text : string) : string := esc ++ "[1m" ++ text ++ reset.

End Colors.

(** ** Input port (input.js) *)

Module Input.

Local Open Scope string_scope.

(** What the terminal shows: a line of [console.log], or the query of
    [rl.question]. *)
Inductive event : Type :=
| Log (line : string)
| Ask (query : string).

(** The lines the user is still to type, and the transcript so far. *)
Record World : Type := {
  input : list string;
  output : list event;
}.

Definition console_log (line : string) (w : World) : World :=
  {| input := input w; output := output w ++ [Log line] |}.

Definition nl : string := String (ascii_of_nat 10) EmptyString.

(** [prompt(rl, question)]: shows the query, and resolves with the next
    line, trimmed. Without a next line it never resolves. *)
Definition prompt (question : string) (w : World) : option (string * World) :=
  match input w with
  | [] => None
  | answer :: rest =>
      Some (Str.trim answer,
            {| input := rest; output := output w ++ [Ask question] |})
  end.

(** [array[i]] for a Number [i] that is an integer: [None] is
    [undefined]. *)
Definition get {A : Type} (array : list A) (i : Z) : option A :=
  if (i <? 0)%Z then None else array !! Z.to_nat i.

(** What [select] resolves with. *)
Record Selection : Type := {
  index : Z;
  value : option string;
}.

(** [index >= 0 && index < options.length] for an integer [index]. *)
Definition in_range (index : Z) (options : list string) : bool :=
  ((0 <=? index) && (index <? Z.of_nat (length options)))%Z.

(** The loop [while (true)] of [select]. Each round reads one line, so
    the number of lines left bounds the rounds: with [fuel] at least
    that number, running out of fuel is running out of lines.
    [parseInt(answer, 10) - 1] is an integer or NaN; NaN fails both
    comparisons of the test. *)
Fixpoint select_loop (fuel : nat) (options : list string) (w : World)
    : option (Selection * World) :=
  match fuel with
  | O => None
  | S fuel' =>
      match prompt (nl ++ "Your choice (enter number): ") w with
      | None => None
      | Some (answer, w1) =>
          let again :=
            select_loop fuel' options
              (console_log
                 ("Please enter a number between 1 and "
                    ++ Str.of_nat (length options)) w1) in
          match (fun n => n - 1)%Z <$> Str.parseInt answer with
          | Some index =>
              if in_range index options then
                Some ({| index := index; value := get options index |}, w1)
              else again
          | None => again
          end
      end
  end.

(** [select(rl, question, options)] *)
Definition select (question : string) (options : list string) (w : World)
    : option (Selection * World) :=
  let w1 := console_log (nl ++ question ++ nl) w in
  let w2 :=
    foldl (fun w line => console_log line w) w1
      (imap (fun index option =>
               "  " ++ Str.of_nat (index + 1) ++ ". " ++ option) options) in
  select_loop (length (input w2)) options w2.

(** [confirm(rl, question)] *)
Definition confirm (question : string) (w : World) : option (bool * World) :=
  match prompt (question ++ " (y/n): ") w with
  | None => None
  | Some (answer, w') => Some (Str.startsWith (Str.toLowerCase answer) "y", w')
  end.

(** [pressEnter(rl, message)]; [None] is a call without [message],
    which takes the default. The line typed is dropped. *)
Definition pressEnter (message : option string) (w : World) : option World :=
  match
    prompt (nl ++ default "Press Enter to continue..." message) w
  with
  | None => None
  | Some (_, w') => Some w'
  end.

End Input.

(** ** Quiz session (quiz.js) *)

Module Question.

(** A question of the bank, as the JSON file gives it. *)
Record t : Type := {
  question : string;
  options : list string;
  answer : Z;
  explanation : option string;
}.

End Question.

Module Answer.

(** What [askQuestion] pushes on [this.answers]. *)
Record t : Type := {
  question : string;
  userAnswer : Z;
  correctAnswer : Z;
  isCorrect : bool;
}.

End Answer.

(** A thrown exception, or a returned value. *)
Inductive completion (A : Type) : Type :=
| Returns (result : A)
| Throws (error : string).

Arguments Returns {A} result.
Arguments Throws {A} error.

Module Text.

Local Open Scope string_scope.

(** [n] copies of [s], one after the other. *)
Fixpoint copies (n : nat) (s : string) : string :=
  match n with
  | O => EmptyString
  | S n' => s ++ copies n' s
  end.

(** [s.repeat(count)]: the count is truncated to an integer, NaN
    counting as zero; a negative or infinite count throws. The bound an
    engine puts on the length of a string is not modelled. *)
Definition repeat (s : string) (count : Number.t) : completion string :=
  match count with
  | S754_infinity _ => Throws "RangeError"
  | _ =>
      let n := Number.truncate count in
      if (n <? 0)%Z then Throws "RangeError"
      else Returns (copies (Z.to_nat n) s)
  end.

End Text.

Module Quiz.

Section Session.

Variable random : nat -> Number.t.

Local Open Scope string_scope.

(** The fields of a [Quiz] object. *)
Record t : Type := {
  questions : list Question.t;
  categoryName : string;
  currentIndex : nat;
  score : nat;
  answers : list Answer.t;
}.

(** [new Quiz(questions, categoryName)], with [k] calls of
    [Math.random] made before it; there is a quiz where [shuffle] has a
    list to give. *)
Definition constructor (questions : list Question.t) (categoryName : string)
    (k : nat) : option (t * nat) :=
  match Randomizer.shuffled random questions k with
  | Some (shuffled, k') =>
      Some ({| questions := shuffled;
               categoryName := categoryName;
               currentIndex := 0;
               score := 0;
               answers := [] |}, k')
  | None => None
  end.

(** [get currentQuestion()]: [None] is [null]. *)
Definition currentQuestion (q : t) : option Question.t :=
  questions q !! currentIndex q.

(** [get totalQuestions()] *)
Definition totalQuestions (q : t) : nat := length (questions q).

(** [get isComplete()] *)
Definition isComplete (q : t) : bool :=
  (totalQuestions q <=? currentIndex q)%nat.

(** [Math.round((a / b) * 100)] *)
Definition percent (a b : nat) : Number.t :=
  Number.Math_round
    (Number.mul (Number.div (Number.of_nat a) (Number.of_nat b))
       (Number.of_nat 100)).

(** [get progress()] *)
Definition progress (q : t) : Number.t :=
  percent (currentIndex q) (length (questions q)).

(** Lines 88 to 113 of [askQuestion]: what happens to the session once
    [select] has resolved with [index] for the current question [cq]. *)
Definition submitAnswer (q : t) (cq : Question.t) (index : Z) : bool * t :=
  let isCorrect := (index =? Question.answer cq)%Z in
  let answers :=
    (answers q ++ [ {| Answer.question := Question.question cq;
                       Answer.userAnswer := index;
                       Answer.correctAnswer := Question.answer cq;
                       Answer.isCorrect := isCorrect |} ])%list in
  let score := if isCorrect then S (score q) else score q in
  (isCorrect,
   {| questions := questions q;
      categoryName := categoryName q;
      currentIndex := S (currentIndex q);
      score := score;
      answers := answers |}).

(** [askQuestion(rl)]. The lines it writes itself with [console.log]
    (progress bar, verdict, explanation) read the session and do not
    change it; the transcript keeps those of [select] only. *)
Definition askQuestion (q : t) (w : Input.World)
    : option (bool * t * Input.World) :=
  match currentQuestion q with
  | None => Some (false, q, w)
  | Some cq =>
      match
        Input.select (Colors.bold (Question.question cq))
          (Question.options cq) w
      with
      | None => None
      | Some (selection, w') =>
          let '(isCorrect, q') :=
            submitAnswer q cq (Input.index selection) in
          Some (isCorrect, q', w')
      end
  end.

(** The performance message and its emoji, from the percentage. *)
Definition performance (percentage : Number.t) : string * string :=
  if Number.strict_eq percentage (Number.of_Z 100) then
    ("Perfect score! Amazing!", "🏆")
  else if Number.ge percentage (Number.of_Z 80) then
    ("Great job! Well done!", "🌟")
  else if Number.ge percentage (Number.of_Z 60) then
    ("Good effort! Keep learning!", "👍")
  else if Number.ge percentage (Number.of_Z 40) then
    ("Not bad! Room for improvement.", "📚")
  else
    ("Keep practicing! You'll get better!", "💪").

(** [this.questions.find(q => q.question === a.question)] *)
Definition find_question (q : t) (a : Answer.t) : option Question.t :=
  List.find
    (fun q' => String.eqb (Question.question q') (Answer.question a))
    (questions q).

(** One entry of the review: its number, the question, and the labels
    printed after [Your answer:] and [Correct:] ([None] is
    [undefined]). *)
Record Review : Type := {
  number : nat;
  asked : string;
  yours : option string;
  correct : option string;
}.

(** The body of [incorrect.forEach((a, i) => ...)]; reading [q.options]
    of a question that was not found throws. *)
Definition review_entry (q : t) (i : nat) (a : Answer.t) : completion Review :=
  match find_question q a with
  | Some q' =>
      Returns
        {| number := i + 1;
           asked := Answer.question a;
           yours := Input.get (Question.options q') (Answer.userAnswer a);
           correct := Input.get (Question.options q') (Answer.correctAnswer a) |}
  | None => Throws "TypeError"
  end.

(** The entries in order, up to the first that throws. *)
Fixpoint review_entries (q : t) (i : nat) (incorrect : list Answer.t)
    : completion (list Review) :=
  match incorrect with
  | [] => Returns []
  | a :: rest =>
      match review_entry q i a with
      | Throws e => Throws e
      | Returns r =>
          match review_entries q (S i) rest with
          | Throws e => Throws e
          | Returns rs => Returns (r :: rs)
          end
      end
  end.

(** What [showResults] prints, as values: category, score, total,
    percentage, message, emoji and the review. *)
Record Results : Type := {
  category : string;
  scored : nat;
  total : nat;
  percentage : Number.t;
  message : string;
  emoji : string;
  review : list Review;
}.

(** [showResults()] *)
Definition showResults (q : t) : completion Results :=
  let percentage := percent (score q) (totalQuestions q) in
  let '(message, emoji) := performance percentage in
  let incorrect := filter (fun a => Answer.isCorrect a = false) (answers q) in
  match review_entries q 0 incorrect with
  | Throws e => Throws e
  | Returns review =>
      Returns
        {| category := categoryName q;
           scored := score q;
           total := totalQuestions q;
           percentage := percentage;
           message := message;
           emoji := emoji;
           review := review |}
  end.

(** [renderProgressBar()]: the filled cells, the empty cells, then the
    percentage of [progress]. [Returns None] is a bar whose percentage
    has no numeral in the model (see [Str.of_Number]). *)
Definition renderProgressBar (q : t) : completion (option string) :=
  let width := Number.of_Z 30 in
  let filled :=
    Number.Math_round
      (Number.mul
         (Number.div (Number.of_nat (currentIndex q))
            (Number.of_nat (totalQuestions q)))
         width) in
  let empty := Number.sub width filled in
  match Text.repeat "█" filled with
  | Throws e => Throws e
  | Returns full =>
      match Text.repeat "░" empty with
      | Throws e => Throws e
      | Returns rest =>
          Returns
            ((fun percentage => "[" ++ full ++ rest ++ "] " ++ percentage ++ "%")
               <$> Str.of_Number (progress q))
      end
  end.

End Session.

End Quiz.

(** ** The game (index.js)

    The part of [main] that makes a quiz of a category and runs it. As
    for [askQuestion], the transcript keeps what the input port writes. *)

Module Main.

Section Game.

Variable random : nat -> Number.t.

Local Open Scope string_scope.

(** A category of the question file. *)
Record Category : Type := {
  name : string;
  questions : list Question.t;
}.

(** The test of the filter that makes [countOptions], at index [i]. *)
Definition offered (maxQuestions i : nat) : bool :=
  match i with
  | 0%nat => true
  | 1%nat => (3 <=? maxQuestions)%nat
  | 2%nat => (5 <=? maxQuestions)%nat
  | _ => false
  end.

(** [countOptions] *)
Definition countOptions (maxQuestions : nat) : list string :=
  snd <$>
    filter (fun entry => offered maxQuestions entry.1 = true)
      (imap (fun i label => (i, label))
         ["All questions"; "3 questions"; "5 questions"]).

(** [questionCount], from the label chosen. *)
Definition questionCount (countChoice : string) (maxQuestions : nat) : nat :=
  let questionCount := maxQuestions in
  let questionCount :=
    if Str.includes countChoice "3" then 3%nat else questionCount in
  if Str.includes countChoice "5" then 5%nat else questionCount.

(** From the second menu to the new quiz: [select] the number of
    questions, take that many from the head of the category, and make
    the quiz. Reading [includes] of a label that is [undefined]
    throws. There is no outcome where [select] never resolves, nor
    where the constructor has no quiz. *)
Definition start (category : Category) (w : Input.World) (k : nat)
    : option (completion (Quiz.t * nat) * Input.World) :=
  let maxQuestions := length (questions category) in
  match
    Input.select "How many questions?" (countOptions maxQuestions) w
  with
  | None => None
  | Some (selection, w') =>
      match Input.value selection with
      | None => Some (Throws "TypeError", w')
      | Some countChoice =>
          let questions :=
            take (questionCount countChoice maxQuestions)
              (questions category) in
          match Quiz.constructor random questions (name category) k with
          | Some quiz => Some (Returns quiz, w')
          | None => None
          end
      end
  end.

(** The loop [while (!quiz.isComplete)]: ask, and between two questions
    wait for Enter. Each round that resolves answers one question, so
    the questions left bound the rounds. *)
Fixpoint ask_all (fuel : nat) (quiz : Quiz.t) (w : Input.World)
    : option (Quiz.t * Input.World) :=
  if Quiz.isComplete quiz then Some (quiz, w)
  else
    match fuel with
    | O => None
    | S fuel' =>
        match Quiz.askQuestion quiz w with
        | None => None
        | Some (_, quiz1, w1) =>
            if Quiz.isComplete quiz1 then ask_all fuel' quiz1 w1
            else
              match Input.pressEnter None w1 with
              | None => None
              | Some w2 => ask_all fuel' quiz1 w2
              end
        end
    end.

(** From [await pressEnter(rl)] to the end of the loop. *)
Definition play (quiz : Quiz.t) (w : Input.World)
    : option (Quiz.t * Input.World) :=
  match Input.pressEnter None w with
  | None => None
  | Some w1 =>
      ask_all (Quiz.totalQuestions quiz - Quiz.currentIndex quiz) quiz w1
  end.

End Game.

End Main.

(** ** Rounding to binary64 *)

Module Rounding.

(** [mrs] locates the rational [N / D]: its integer part, whether its
    fractional part is at least one half, and whether it is neither zero
    nor one half. *)
Definition located (N D : Z) (mrs : shr_record) : Prop :=
  0 <= N /\ 0 < D /\
  shr_m mrs = N / D /\
  shr_r mrs = (D <=? 2 * (N mod D)) /\
  shr_s mrs = negb ((2 * (N mod D)) mod D =? 0).

(** How [Math.round((a / b) * 100)] comes to the integer [n], for
    positive integers [a <= b]: [Y] and [X] are the mantissas of [a] and
    [b], with [2^j] between their scales; [Mq] is the mantissa of the
    quotient, rounded at [2^k1]; [Mp] that of the product by 100, rounded
    at [2^k2]; and [n] is the floor of the product plus one half. *)
Definition percent_trace (a b n : Z) : Prop :=
  exists Mq Mp X Y j k1 k2 : Z,
    0 <= j /\ 0 <= k1 <= 2 /\ 52 <= k2 <= 54 /\
    2 ^ 52 <= X < 2 ^ 53 /\ 2 ^ 52 <= Y < 2 ^ 53 /\
    2 ^ 52 <= Mq < 2 ^ 53 /\ 2 ^ 52 <= Mp < 2 ^ 53 /\
    a * X * 2 ^ j = b * Y /\
    2 * Z.abs (Mq * 2 ^ k1 * X - Y * 2 ^ 53) <= 2 ^ k1 * X /\
    2 * Z.abs (Mp * 2 ^ k2 - Mq * (100 * 2 ^ 46)) <= 2 ^ k2 /\
    n = (2 * Mp + 2 ^ (99 + j - k1 - k2)) / 2 ^ (100 + j - k1 - k2).

(** [floor (100 a / b + 1/2)]: the exact percentage, a tie going up. *)
Definition round_half_up (a b : Z) : Z := (200 * a + b) / (2 * b).

End Rounding.

(** * Vocabulary of the specification *)

Module Port.

Import Input.

Local Open Scope string_scope.

(** The query of every round of [select], and its complaint about a
    rejected line. *)
Definition query : string := nl ++ "Your choice (enter number): ".

Definition complaint (options : list string) : string :=
  "Please enter a number between 1 and " ++ Str.of_nat (length options).

(** The zero-based index a raw line stands for, if it parses. *)
Definition choice (line : string) : option Z :=
  (fun n => n - 1)%Z <$> Str.parseInt (Str.trim line).

(** A raw line is accepted when it parses to an integer from 1 to the
    number of options. *)
Definition accepted (options : list string) (line : string) : bool :=
  match Str.parseInt (Str.trim line) with
  | Some n => ((1 <=? n) && (n <=? Z.of_nat (length options)))%Z
  | None => false
  end.

(** The question and its numbered options, as [select] displays them. *)
Definition menu (question : string) (options : list string) : list event :=
  Log (nl ++ question ++ nl)
    :: imap (fun i option => Log ("  " ++ Str.of_nat (i + 1) ++ ". " ++ option))
         options.

(** The transcript of the rounds that rejected the lines [rejected]: each
    asked, then complained. *)
Definition reprompts (options : list string) (rejected : list string)
    : list event :=
  rejected ≫= (fun _ => [Ask query; Log (complaint options)]).

End Port.

Module Session.

Local Open Scope string_scope.

(** The invariant of a session: the score is at most the position, the
    position at most the number of questions, and the log has one record
    per answered question. *)
Definition invariant (q : Quiz.t) : Prop :=
  (Quiz.score q <= Quiz.currentIndex q)%nat /\
  (Quiz.currentIndex q <= length (Quiz.questions q))%nat /\
  length (Quiz.answers q) = Quiz.currentIndex q.

(** The sessions a program can hold: a new one, for any question list,
    and what [askQuestion] makes of one when it resolves. *)
Inductive reachable (random : nat -> Number.t) : Quiz.t -> Prop :=
| reachable_constructor (questions : list Question.t) (categoryName : string)
    (k : nat) (q : Quiz.t) (k' : nat) :
    Quiz.constructor random questions categoryName k = Some (q, k') ->
    reachable random q
| reachable_askQuestion (q : Quiz.t) (w : Input.World) (isCorrect : bool)
    (q' : Quiz.t) (w' : Input.World) :
    reachable random q ->
    Quiz.askQuestion q w = Some (isCorrect, q', w') ->
    reachable random q'.

(** The record of the answer [index] to the question [cq]. *)
Definition record (cq : Question.t) (index : Z) : Answer.t :=
  {| Answer.question := Question.question cq;
     Answer.userAnswer := index;
     Answer.correctAnswer := Question.answer cq;
     Answer.isCorrect := (index =? Question.answer cq)%Z |}.

(** The log holds, in order, the records of in-range answers to the
    questions before the position. *)
Definition recorded (q : Quiz.t) : Prop :=
  Forall2
    (fun a cq =>
       exists index,
         a = record cq index /\
         (0 <= index < Z.of_nat (length (Question.options cq)))%Z)
    (Quiz.answers q) (take (Quiz.currentIndex q) (Quiz.questions q)).

(** The qualitative tiers of the specification, and the message and emoji
    [showResults] prints for each. *)
Inductive Tier : Type := perfect | great | good | fair | needs_practice.

Definition tier_message (t : Tier) : string * string :=
  match t with
  | perfect => ("Perfect score! Amazing!", "🏆")
  | great => ("Great job! Well done!", "🌟")
  | good => ("Good effort! Keep learning!", "👍")
  | fair => ("Not bad! Room for improvement.", "📚")
  | needs_practice => ("Keep practicing! You'll get better!", "💪")
  end.

(** The table of the specification, by its rows. *)
Definition in_table (percentage : Z) (t : Tier) : Prop :=
  (percentage = 100 /\ t = perfect) \/
  (80 <= percentage <= 99 /\ t = great) \/
  (60 <= percentage <= 79 /\ t = good) \/
  (40 <= percentage <= 59 /\ t = fair) \/
  (0 <= percentage <= 39 /\ t = needs_practice).

(** The same table as a function of the percentage. *)
Definition tier_of (percentage : Z) : Tier :=
  if (percentage =? 100)%Z then perfect
  else if (80 <=? percentage)%Z then great
  else if (60 <=? percentage)%Z then good
  else if (40 <=? percentage)%Z then fair
  else needs_practice.

(** Equality of two pairs of message and emoji. *)
Definition same_pair (x y : string * string) : bool :=
  String.eqb x.1 y.1 && String.eqb x.2 y.2.

End Session.

(** Sample sessions. *)

Module Samples.

Local Open Scope string_scope.

(** A source of draws that always returns one half. *)
Definition halves (k : nat) : Number.t :=
  Number.div (Number.of_Z 1) (Number.of_Z 2).

Definition capital : Question.t :=
  {| Question.question := "Capital of France?";
     Question.options := ["Paris"; "Rome"];
     Question.answer := 0;
     Question.explanation := None |}.

Definition planet : Question.t :=
  {| Question.question := "Largest planet?";
     Question.options := ["Mars"; "Jupiter"; "Venus"];
     Question.answer := 1;
     Question.explanation := Some "It is a gas giant." |}.

(** Two questions with the same text and different options. *)
Definition twin_a : Question.t :=
  {| Question.question := "Which one?";
     Question.options := ["a"; "b"];
     Question.answer := 0;
     Question.explanation := None |}.

Definition twin_b : Question.t :=
  {| Question.question := "Which one?";
     Question.options := ["c"; "d"];
     Question.answer := 0;
     Question.explanation := None |}.

Definition typing (lines : list string) : Input.World :=
  {| Input.input := lines; Input.output := [] |}.

(** The session after [askQuestion] has resolved, if it does. *)
Definition ask (run : option (Quiz.t * Input.World))
    : option (Quiz.t * Input.World) :=
  match run with
  | Some (q, w) =>
      match Quiz.askQuestion q w with
      | Some (_, q', w') => Some (q', w')
      | None => None
      end
  | None => None
  end.

(** The quiz that [new Quiz(questions, categoryName)] makes when every
    draw is one half, before a terminal where [lines] are typed. *)
Definition new_quiz (questions : list Question.t) (categoryName : string)
    (lines : list string) : option (Quiz.t * Input.World) :=
  match Quiz.constructor halves questions categoryName 0 with
  | Some (q, _) => Some (q, typing lines)
  | None => None
  end.

(** The session that [new Quiz([], "Empty")] makes. *)
Definition empty : Quiz.t :=
  {| Quiz.questions := [];
     Quiz.categoryName := "Empty";
     Quiz.currentIndex := 0;
     Quiz.score := 0;
     Quiz.answers := [] |}.

(** The session that [new Quiz] makes of [capital] and [planet] when
    the draw is one half (the second question is exchanged with itself);
    then the session after one answer, and after two. *)
Definition fresh_pair : Quiz.t :=
  {| Quiz.questions := [capital; planet];
     Quiz.categoryName := "General";
     Quiz.currentIndex := 0;
     Quiz.score := 0;
     Quiz.answers := [] |}.

Definition half_way : option (Quiz.t * Input.World) :=
  ask (new_quiz [capital; planet] "General" ["1"; "3"]).

Definition finished : option (Quiz.t * Input.World) := ask half_way.

(** The same two questions, both answered rightly. *)
Definition all_right : option (Quiz.t * Input.World) :=
  ask (ask (new_quiz [capital; planet] "General" ["1"; "2"])).

(** The twins, the first answered rightly and the second wrongly. *)
Definition twins : option (Quiz.t * Input.World) :=
  ask (ask (new_quiz [twin_a; twin_b] "Twins" ["1"; "2"])).

End Samples.
(** * Vocabulary of the further properties *)

Module Review.

(** The entry of the review for the record [a] of the question [cq],
    at place [i] among the wrong answers. *)
Definition entry (i : nat) (a : Answer.t) (cq : Question.t) : Quiz.Review :=
  {| Quiz.number := i + 1;
     Quiz.asked := Question.question cq;
     Quiz.yours := Input.get (Question.options cq) (Answer.userAnswer a);
     Quiz.correct := Input.get (Question.options cq) (Question.answer cq) |}.

(** The records of wrong answers, each with the question at its
    position. *)
Definition wrong (q : Quiz.t) : list (Answer.t * Question.t) :=
  filter (fun p => Answer.isCorrect p.1 = false)
    (zip (Quiz.answers q) (Quiz.questions q)).

End Review.

Module White.

Local Open Scope string_scope.

(** A run of white-space characters. *)
Inductive blank : string -> Prop :=
| blank_nil : blank ""
| blank_cons (ws s : string) :
    ws ∈ Str.white_space -> blank s -> blank (ws ++ s).

End White.

Module Parse.

Local Open Scope string_scope.

(** Whether a white-space character starts with a byte that is no
    digit, no sign, and neither [y] nor [Y]. *)
Definition plain_start (ws : string) : bool :=
  match ws with
  | String c _ =>
      match Str.digit c with
      | Some _ => false
      | None =>
          negb (Ascii.eqb c "-") && negb (Ascii.eqb c "+")
          && negb (Ascii.eqb c "y") && negb (Ascii.eqb c "Y")
      end
  | EmptyString => false
  end.

(** The sign and the digits of a string that starts with no white
    space. *)
Definition signed_digits (s : string) : option Z :=
  match s with
  | String "-" s' => Z.opp <$> Str.digits s' false 0
  | String "+" s' => Str.digits s' false 0
  | s' => Str.digits s' false 0
  end.

End Parse.

Module Script.

Local Open Scope string_scope.

(** The lines of a player who picks the options [picks], one for each
    question, and types [pause] between two questions. *)
Fixpoint answers_for (pause : string) (picks : list nat) : list string :=
  match picks with
  | [] => []
  | [pick] => [Str.of_nat (S pick)]
  | pick :: later => Str.of_nat (S pick) :: pause :: answers_for pause later
  end.

(** The number of questions a label of the second menu stands for. *)
Definition asked_for (index : Z) (maxQuestions : nat) : nat :=
  if (index =? 0)%Z then maxQuestions
  else if (index =? 1)%Z then 3%nat
  else 5%nat.

End Script.

(** Sample games. *)

Module Games.

Local Open Scope string_scope.

Definition general : Main.Category :=
  {| Main.name := "General";
     Main.questions := [Samples.capital; Samples.planet] |}.

(** The whole category is asked for. *)
Definition started : option (completion (Quiz.t * nat) * Input.World) :=
  Main.start Samples.halves general (Samples.typing ["1"]) 0.

(** A player who needs three lines for the second question. *)
Definition played : option (Quiz.t * Input.World) :=
  Main.play Samples.fresh_pair
    (Samples.typing [""; "1"; "go on"; "x"; "7"; "3"]).

(** A question that has no options, and a quiz that stands at it. *)
Definition mute : Question.t :=
  {| Question.question := "Which one?";
     Question.options := [];
     Question.answer := 0;
     Question.explanation := None |}.

Definition stuck : Quiz.t :=
  {| Quiz.questions := [mute];
     Quiz.categoryName := "General";
     Quiz.currentIndex := 0;
     Quiz.score := 0;
     Quiz.answers := [] |}.

End Games.

Module Scaling.

(** How [Math.round((a / b) * c)] comes to the integer [n], for
    positive integers [a <= b] and [c]: [Y], [X] and [Mc] are the
    mantissas of [a], [b] and [c], with [2^j] between the scales of the
    first two and [2^s] the scale of [c]; [Mq] is the mantissa of the
    quotient, rounded at [2^k1]; [Mp] that of the product, rounded at
    [2^k2]; and [n] is the floor of the product plus one half. *)
Definition scaled_trace (c a b n : Z) : Prop :=
  exists Mq Mp X Y Mc j k1 k2 s : Z,
    0 <= j /\ 0 <= k1 <= 2 /\ 52 <= k2 <= 54 /\ 46 <= s <= 52 /\
    2 ^ 52 <= X < 2 ^ 53 /\ 2 ^ 52 <= Y < 2 ^ 53 /\
    2 ^ 52 <= Mq < 2 ^ 53 /\ 2 ^ 52 <= Mp < 2 ^ 53 /\
    Mc = c * 2 ^ s /\
    a * X * 2 ^ j = b * Y /\
    2 * Z.abs (Mq * 2 ^ k1 * X - Y * 2 ^ 53) <= 2 ^ k1 * X /\
    2 * Z.abs (Mp * 2 ^ k2 - Mq * Mc) <= 2 ^ k2 /\
    n = (2 * Mp + 2 ^ (53 + s + j - k1 - k2)) / 2 ^ (54 + s + j - k1 - k2).

End Scaling.

Module Orders.

(** A draw for which [Math.floor(Math.random() * (i + 1))] is [j]: the
    Number [c / 2^53], where [c] is the integer part of
    [(2 j + 1) 2^52 / (i + 1)]; it is at most [(j + 1/2) / (i + 1)], and
    less than [2^-53] below it. *)
Definition draw_for (i j : nat) : Number.t :=
  binary_normalize Number.prec Number.emax
    ((2 * Z.of_nat j + 1) * 2 ^ 52 / Z.of_nat (i + 1)) (-53) false.

End Orders.

(** * Properties *)

(** ** The builtins on small inputs *)

Module Checks.

Local Open Scope string_scope.

Definition half : Number.t := Number.div (Number.of_Z 1) (Number.of_Z 2).

Example Math_round_half : Number.Math_round half = Number.of_Z 1.
Proof. reflexivity. Qed.

Example Math_round_minus_half :
  Number.Math_round (SFopp half) = S754_zero true.
Proof. reflexivity. Qed.

Example Math_round_five_halves :
  Number.Math_round (Number.div (Number.of_Z 5) (Number.of_Z 2))
    = Number.of_Z 3.
Proof. reflexivity. Qed.

Example Math_round_minus_five_halves :
  Number.Math_round (Number.div (Number.of_Z (-5)) (Number.of_Z 2))
    = Number.of_Z (-2).
Proof. reflexivity. Qed.

Example Math_round_NaN : Number.Math_round Number.NaN = Number.NaN.
Proof. reflexivity. Qed.

Example zero_by_zero : Number.div (Number.of_Z 0) (Number.of_Z 0) = Number.NaN.
Proof. reflexivity. Qed.

Example NaN_times_100 : Number.mul Number.NaN (Number.of_Z 100) = Number.NaN.
Proof. reflexivity. Qed.

(** 1/8 of 100 is 12.5, which goes up; 23/40 is 0.575, whose product by
    100 is just below 57.5, and goes down. *)
Example percent_1_of_8 : Quiz.percent 1 8 = Number.of_Z 13.
Proof. reflexivity. Qed.

Example percent_23_of_40 : Quiz.percent 23 40 = Number.of_Z 57.
Proof. reflexivity. Qed.

Example percent_159_of_200 : Quiz.percent 159 200 = Number.of_Z 80.
Proof. reflexivity. Qed.

Example parseInt_digits : Str.parseInt "42" = Some 42.
Proof. reflexivity. Qed.

Example parseInt_prefix : Str.parseInt "2x" = Some 2.
Proof. reflexivity. Qed.

Example parseInt_sign : Str.parseInt "-7 apples" = Some (-7).
Proof. reflexivity. Qed.

Example parseInt_letters : Str.parseInt "abc" = None.
Proof. reflexivity. Qed.

Example parseInt_empty : Str.parseInt EmptyString = None.
Proof. reflexivity. Qed.

Example parseInt_decimal_point : Str.parseInt "1.9" = Some 1.
Proof. reflexivity. Qed.

Example trim_spaces : Str.trim "  2 x  " = "2 x".
Proof. reflexivity. Qed.

(** A tab before, a no-break space (U+00A0) after. *)
Example trim_tab_and_no_break_space :
  Str.trim (Str.byte 9 ++ "3" ++ Str.byte 194 ++ Str.byte 160) = "3".
Proof. reflexivity. Qed.

Example of_nat_30 : Str.of_nat 30 = "30".
Proof. reflexivity. Qed.

(** Draws 0.5, 0 and 0.9 on four elements: 3 and 2 are exchanged, then
    2 and 0, then 1 stays. *)
Example shuffled_four :
  Randomizer.shuffled
    (fun k =>
       match k with
       | O => Number.div (Number.of_Z 1) (Number.of_Z 2)
       | S O => Number.of_Z 0
       | _ => Number.div (Number.of_Z 9) (Number.of_Z 10)
       end)
    [1; 2; 3; 4]%nat 0
  = Some ([4; 2; 1; 3]%nat, 3%nat).
Proof. reflexivity. Qed.

(** The product is rounded before the floor is taken: the Number
    nearest to 3/11 is below 3/11, and eleven times it is the Number 3;
    the Number nearest to 1/49 times 49 is below 1. *)
Example draw_three_elevenths :
  Randomizer.draw
    (fun _ => Number.div (Number.of_Z 3) (Number.of_Z 11)) 0 10
  = Number.of_Z 3.
Proof. reflexivity. Qed.

Example draw_one_forty_ninth :
  Randomizer.draw
    (fun _ => Number.div (Number.of_Z 1) (Number.of_Z 49)) 0 48
  = Number.of_Z 0.
Proof. reflexivity. Qed.

Example Math_floor_minus_half :
  Number.Math_floor (Number.div (Number.of_Z (-1)) (Number.of_Z 2))
  = Number.of_Z (-1).
Proof. reflexivity. Qed.

(** A draw of 1, which [Math.random] never returns, names an element
    past the end of the array. *)
Example shuffled_outside :
  Randomizer.shuffled (fun _ => Number.of_Z 1) [1; 2]%nat 0 = None.
Proof. reflexivity. Qed.

(** The sample sessions are the ones the constructor makes. *)
Example empty_is_new :
  Quiz.constructor Samples.halves [] "Empty" 0 = Some (Samples.empty, 0%nat).
Proof. reflexivity. Qed.

Example fresh_pair_is_new :
  Quiz.constructor Samples.halves [Samples.capital; Samples.planet]
    "General" 0
  = Some (Samples.fresh_pair, 1%nat).
Proof. reflexivity. Qed.

End Checks.

(** ** Binary64 arithmetic *)

Module RoundingFacts.

Import Rounding.

Lemma digits2_pos_bounds (m : positive) :
  2 ^ (Z.pos (digits2_pos m) - 1) <= Z.pos m < 2 ^ Z.pos (digits2_pos m).
Proof.
  induction m as [m IH|m IH|]; simpl digits2_pos;
    rewrite ?Pos2Z.inj_succ; [| |simpl; lia].
  - replace (Z.succ (Z.pos (digits2_pos m)) - 1) with (Z.succ (Z.pos (digits2_pos m) - 1)) by lia.
    rewrite !Z.pow_succ_r by lia. lia.
  - replace (Z.succ (Z.pos (digits2_pos m)) - 1) with (Z.succ (Z.pos (digits2_pos m) - 1)) by lia.
    rewrite !Z.pow_succ_r by lia. lia.
Qed.

Lemma digits2_pos_unique (m : positive) (d : Z) :
  2 ^ (d - 1) <= Z.pos m < 2 ^ d -> 0 < d -> Z.pos (digits2_pos m) = d.
Proof.
  intros [Hlo Hhi] Hd. pose proof (digits2_pos_bounds m) as [Hlo' Hhi'].
  set (d' := Z.pos (digits2_pos m)) in *.
  assert (Hd' : 0 < d') by (unfold d'; lia).
  destruct (Z.lt_trichotomy d' d) as [Hlt|[Heq|Hgt]]; [|exact Heq|].
  - assert (2 ^ d' <= 2 ^ (d - 1)) by (apply Z.pow_le_mono_r; lia). lia.
  - assert (2 ^ d <= 2 ^ (d' - 1)) by (apply Z.pow_le_mono_r; lia). lia.
Qed.

Lemma shr_1_nonneg (m : Z) (r s : bool) :
  0 <= m ->
  shr_1 {| shr_m := m; shr_r := r; shr_s := s |} =
    {| shr_m := m / 2; shr_r := Z.odd m; shr_s := r || s |}.
Proof.
  intros Hm. rewrite <- Z.div2_div.
  destruct m as [|[p|p|]|p]; try reflexivity; lia.
Qed.

Lemma shr_1_located (N D : Z) (mrs : shr_record) :
  located N D mrs -> located N (D * 2) (shr_1 mrs).
Proof.
  destruct mrs as [m r s]. intros (HN & HD & Hm & Hr & Hs).
  cbn [shr_m shr_r shr_s] in *.
  assert (Hm0 : 0 <= m) by (subst m; apply Z.div_pos; lia).
  rewrite shr_1_nonneg by exact Hm0. unfold located.
  cbn [shr_m shr_r shr_s].
  pose proof (Z.mod_pos_bound N D HD) as Hrho.
  pose proof (Z.mod_pos_bound m 2 ltac:(lia)) as Ht.
  assert (Hmod : N mod (D * 2) = N mod D + D * (m mod 2))
    by (rewrite Z.rem_mul_r by lia; now subst m).
  pose proof (Zmod_odd m) as Hodd.
  repeat split; try lia.
  - subst m. rewrite Z.div_div by lia. reflexivity.
  - rewrite Hmod. symmetry.
    destruct (Z.odd m); [apply Z.leb_le|apply Z.leb_gt]; nia.
  - rewrite Hmod, Hr, Hs.
    replace (2 * (N mod D + D * (m mod 2)))
      with (2 * (N mod D) + (m mod 2) * (D * 2)) by lia.
    rewrite Z.mod_add by lia.
    rewrite (Z.mod_small (2 * (N mod D)) (D * 2)) by lia.
    destruct (Z.eq_dec (N mod D) 0) as [H0|H0].
    + rewrite H0. change (2 * 0) with 0. rewrite Z.mod_0_l by lia.
      destruct (D <=? 0) eqn:HD0; [apply Z.leb_le in HD0; lia|reflexivity].
    + destruct (2 * (N mod D) =? 0) eqn:E; [apply Z.eqb_eq in E; lia|].
      cbn [negb]. destruct (D <=? 2 * (N mod D)) eqn:Hle; [reflexivity|].
      apply Z.leb_gt in Hle. rewrite Z.mod_small by lia.
      now rewrite E.
Qed.

Lemma iter_pos_shr_1_located (p : positive) (N D : Z) (mrs : shr_record) :
  located N D mrs -> located N (D * 2 ^ Z.pos p) (SpecFloat.iter_pos shr_1 p mrs).
Proof.
  revert D mrs. induction p as [p IH|p IH|]; intros D mrs Hloc; simpl SpecFloat.iter_pos.
  - apply shr_1_located in Hloc. apply IH in Hloc. apply IH in Hloc.
    assert (Hpow : 2 ^ Z.pos p~1 = 2 * 2 ^ Z.pos p * 2 ^ Z.pos p).
    { replace (Z.pos p~1) with (1 + Z.pos p + Z.pos p) by lia.
      rewrite !Z.pow_add_r by lia. reflexivity. }
    rewrite Hpow.
    replace (D * (2 * 2 ^ Z.pos p * 2 ^ Z.pos p))
      with (D * 2 * 2 ^ Z.pos p * 2 ^ Z.pos p) by ring.
    exact Hloc.
  - apply IH in Hloc. apply IH in Hloc.
    assert (Hpow : 2 ^ Z.pos p~0 = 2 ^ Z.pos p * 2 ^ Z.pos p).
    { replace (Z.pos p~0) with (Z.pos p + Z.pos p) by lia.
      rewrite !Z.pow_add_r by lia. reflexivity. }
    rewrite Hpow.
    replace (D * (2 ^ Z.pos p * 2 ^ Z.pos p))
      with (D * 2 ^ Z.pos p * 2 ^ Z.pos p) by ring.
    exact Hloc.
  - apply shr_1_located in Hloc. exact Hloc.
Qed.

Lemma shr_located (N D : Z) (mrs : shr_record) (e n : Z) :
  located N D mrs -> 0 <= n ->
  located N (D * 2 ^ n) (fst (shr mrs e n)) /\ snd (shr mrs e n) = e + n.
Proof.
  intros Hloc Hn. destruct n as [|p|p]; simpl; [| |lia].
  - rewrite Z.mul_1_r. split; [exact Hloc|lia].
  - split; [|reflexivity]. now apply iter_pos_shr_1_located.
Qed.

(** Rounding to nearest moves the integer part by at most one and ends
    within one half of the rational. *)
Lemma round_nearest_even_located (N D : Z) (mrs : shr_record) :
  located N D mrs ->
  let M := round_nearest_even (shr_m mrs) (loc_of_shr_record mrs) in
  shr_m mrs <= M <= shr_m mrs + 1 /\ 2 * Z.abs (M * D - N) <= D.
Proof.
  destruct mrs as [m r s]. intros (HN & HD & Hm & Hr & Hs).
  cbn [shr_m shr_r shr_s] in *.
  pose proof (Z.mod_pos_bound N D HD) as Hrho.
  pose proof (Z.div_mod N D ltac:(lia)) as Hdm. rewrite <- Hm in Hdm.
  assert (Hr' : r = true -> D <= 2 * (N mod D))
    by (intros ->; symmetry in Hr; now apply Z.leb_le in Hr).
  assert (Hr'' : r = false -> 2 * (N mod D) < D)
    by (intros ->; symmetry in Hr; now apply Z.leb_gt in Hr).
  assert (Hs' : r = true -> s = false -> 2 * (N mod D) = D).
  { intros Hrt ->. symmetry in Hs. apply negb_false_iff, Z.eqb_eq in Hs.
    specialize (Hr' Hrt).
    assert (Hsub : (2 * (N mod D) - D) mod D = 0).
    { replace (2 * (N mod D) - D) with (2 * (N mod D) + (-1) * D) by lia.
      now rewrite Z.mod_add by lia. }
    rewrite Z.mod_small in Hsub by lia. lia. }
  destruct r, s; cbn [loc_of_shr_record round_nearest_even].
  - specialize (Hr' eq_refl). split; [lia|]. nia.
  - specialize (Hs' eq_refl eq_refl).
    destruct (Z.even m); split; try lia; nia.
  - specialize (Hr'' eq_refl). split; [lia|]. nia.
  - specialize (Hr'' eq_refl). split; [lia|]. nia.
Qed.

Lemma shr_m_of_loc (m : Z) (l : location) :
  shr_m (shr_record_of_loc m l) = m.
Proof. destruct l as [|[]]; reflexivity. Qed.

Lemma fexp_normal (e : Z) : -1021 <= e -> fexp 53 1024 e = e - 53.
Proof. intros He. unfold fexp, emin. lia. Qed.

(** Rounding a located rational with at least 53 digits, in the normal
    range: the result is a normal number within half a unit in the last
    place of the rational. *)
Lemma binary_round_aux_located (s : bool) (mx ex : Z) (lx : location)
    (N D d : Z) :
  located N D (shr_record_of_loc mx lx) ->
  2 ^ (d - 1) <= mx < 2 ^ d ->
  53 <= d ->
  -1074 <= ex + d - 53 < 971 ->
  exists (M : positive) (E : Z),
    binary_round_aux 53 1024 s mx ex lx = S754_finite s M E /\
    2 ^ 52 <= Z.pos M < 2 ^ 53 /\
    ex + d - 53 <= E <= ex + d - 52 /\
    2 * Z.abs (Z.pos M * 2 ^ (E - ex) * D - N) <= 2 ^ (E - ex) * D.
Proof.
  intros Hloc Hmx Hd He.
  assert (Hpow : 0 < 2 ^ (d - 1)) by (apply Z.pow_pos_nonneg; lia).
  destruct mx as [|pm|pm]; try lia.
  assert (Hdig : Z.pos (digits2_pos pm) = d)
    by (apply digits2_pos_unique; [exact Hmx|lia]).
  unfold binary_round_aux, shr_fexp. cbn [Zdigits2]. rewrite Hdig.
  rewrite fexp_normal by lia.
  replace (d + ex - 53 - ex) with (d - 53) by lia.
  set (n := d - 53) in *.
  destruct (shr_located N D _ ex n Hloc ltac:(lia)) as [Hloc' He'].
  destruct (shr (shr_record_of_loc (Z.pos pm) lx) ex n) as [mrs' e'].
  cbn [fst snd] in Hloc', He'. subst e'.
  pose proof (round_nearest_even_located _ _ _ Hloc') as [HM0 Hnear].
  cbv zeta in HM0, Hnear.
  set (M0 := round_nearest_even (shr_m mrs') (loc_of_shr_record mrs')) in *.
  assert (Hn2 : 0 < 2 ^ n) by (apply Z.pow_pos_nonneg; lia).
  assert (Hm' : 2 ^ 52 <= shr_m mrs' < 2 ^ 53).
  { destruct Hloc as (HN & HD & Hq & _). rewrite shr_m_of_loc in Hq.
    destruct Hloc' as (_ & _ & Hq' & _).
    rewrite Hq', <- Z.div_div, <- Hq by lia.
    assert (Hsplit : 2 ^ d = 2 ^ 53 * 2 ^ n)
      by (rewrite <- Z.pow_add_r by lia; f_equal; lia).
    assert (Hsplit' : 2 ^ (d - 1) = 2 ^ 52 * 2 ^ n)
      by (rewrite <- Z.pow_add_r by lia; f_equal; lia).
    split.
    - apply Z.div_le_lower_bound; lia.
    - apply Z.div_lt_upper_bound; lia. }
  assert (HM0pos : 0 < M0) by lia.
  destruct M0 as [|M|M] eqn:EM0; try lia.
  destruct (Z.eq_dec (Z.pos M) (2 ^ 53)) as [Htop|Htop].
  - (* the mantissa overflowed to 2^53: one more shift *)
    assert (Hdig2 : Z.pos (digits2_pos M) = 54)
      by (apply digits2_pos_unique; [rewrite Htop; simpl; lia|lia]).
    cbn [Zdigits2]. rewrite Hdig2, fexp_normal by lia.
    replace (54 + (ex + n) - 53 - (ex + n)) with 1 by lia.
    injection Htop as ->. cbn [shr shr_record_of_loc SpecFloat.iter_pos shr_1 shr_m].
    destruct (ex + n + 1 <=? 1024 - 53) eqn:Hle; [|apply Z.leb_gt in Hle; lia].
    eexists _, _. split; [reflexivity|].
    split; [simpl; lia|]. split; [lia|].
    replace (ex + n + 1 - ex) with (n + 1) by lia.
    rewrite Z.pow_add_r by lia. change (2 ^ 1) with 2.
    change (Z.pos 9007199254740992) with (2 ^ 52 * 2) in Hnear.
    change (Z.pos 4503599627370496) with (2 ^ 52).
    destruct Hloc as (_ & HD & _). nia.
  - assert (Hdig2 : Z.pos (digits2_pos M) = 53)
      by (apply digits2_pos_unique; lia).
    cbn [Zdigits2]. rewrite Hdig2, fexp_normal by lia.
    replace (53 + (ex + n) - 53 - (ex + n)) with 0 by lia.
    cbn [shr shr_record_of_loc shr_m].
    destruct (ex + n <=? 1024 - 53) eqn:Hle; [|apply Z.leb_gt in Hle; lia].
    eexists _, _. split; [reflexivity|].
    split; [lia|]. split; [lia|].
    replace (ex + n - ex) with n by lia.
    replace (Z.pos M * 2 ^ n * D) with (Z.pos M * (D * 2 ^ n)) by ring.
    lia.
Qed.

(** A normal mantissa at an exponent of the format is a Number as it is. *)
Lemma binary_round_aux_exact (s : bool) (m : positive) (e : Z) :
  2 ^ 52 <= Z.pos m < 2 ^ 53 ->
  -1074 <= e <= 971 ->
  binary_round_aux 53 1024 s (Z.pos m) e loc_Exact = S754_finite s m e.
Proof.
  intros Hm He.
  assert (Hdig : Z.pos (digits2_pos m) = 53)
    by (apply digits2_pos_unique; [exact Hm|lia]).
  unfold binary_round_aux, shr_fexp. cbn [Zdigits2]. rewrite Hdig.
  rewrite fexp_normal by lia.
  replace (53 + e - 53 - e) with 0 by lia.
  cbn [shr shr_record_of_loc shr_m loc_of_shr_record round_nearest_even
       Zdigits2].
  rewrite Hdig, fexp_normal by lia.
  replace (53 + e - 53 - e) with 0 by lia.
  cbn [shr shr_record_of_loc shr_m].
  destruct (e <=? 1024 - 53) eqn:Hle; [reflexivity|].
  apply Z.leb_gt in Hle. lia.
Qed.

(** The Number of a positive integer below 2^53 is that integer. *)
Lemma binary_normalize_exact (z : Z) :
  0 < z < 2 ^ 53 ->
  exists (M : positive) (E : Z),
    binary_normalize 53 1024 z 0 false = S754_finite false M E /\
    2 ^ 52 <= Z.pos M < 2 ^ 53 /\
    -52 <= E <= 0 /\
    Z.pos M = z * 2 ^ (- E).
Proof.
  intros Hz. destruct z as [|p|p]; try lia.
  pose proof (digits2_pos_bounds p) as Hp.
  set (d := Z.pos (digits2_pos p)) in *.
  assert (Hd : 0 < d) by (unfold d; lia).
  assert (Hd53 : d <= 53).
  { destruct (Z.le_gt_cases d 53) as [H|H]; [exact H|].
    assert (2 ^ 53 <= 2 ^ (d - 1)) by (apply Z.pow_le_mono_r; lia). lia. }
  unfold binary_normalize, binary_round. fold d.
  rewrite fexp_normal by lia.
  unfold shl_align. replace (d + 0 - 53) with (d - 53) by lia.
  rewrite Z.sub_0_r.
  destruct (d - 53) as [|k|k] eqn:Hk; try lia.
  - assert (Hd' : d = 53) by lia. rewrite Hd' in Hp.
    change (53 - 1) with 52 in Hp.
    rewrite binary_round_aux_exact by (try exact Hp; lia).
    exists p, 0. split; [reflexivity|]. split; [exact Hp|]. split; [lia|].
    change (2 ^ (- 0)) with 1. lia.
  - assert (Hshift : Z.pos (Pos.iter xO p k) = 2 ^ Z.pos k * Z.pos p)
      by apply (shift_pos_correct k p).
    assert (Hsplit : 2 ^ 53 = 2 ^ Z.pos k * 2 ^ d)
      by (rewrite <- Z.pow_add_r by lia; f_equal; lia).
    assert (Hsplit' : 2 ^ 52 = 2 ^ Z.pos k * 2 ^ (d - 1))
      by (rewrite <- Z.pow_add_r by lia; f_equal; lia).
    assert (Hk0 : 0 < 2 ^ Z.pos k) by (apply Z.pow_pos_nonneg; lia).
    assert (Hnorm : 2 ^ 52 <= Z.pos (Pos.iter xO p k) < 2 ^ 53)
      by (rewrite Hshift, Hsplit, Hsplit'; nia).
    rewrite binary_round_aux_exact by (try exact Hnorm; lia).
    exists (Pos.iter xO p k), (Z.neg k).
    split; [reflexivity|]. split; [exact Hnorm|]. split; [lia|].
    rewrite Hshift. change (- Z.neg k) with (Z.pos k). ring.
Qed.

(** The location of a quotient from its remainder. *)
Lemma new_location_located (N D : Z) :
  0 <= N -> 0 < D ->
  located N D (shr_record_of_loc (N / D) (new_location D (N mod D))).
Proof.
  intros HN HD. pose proof (Z.mod_pos_bound N D HD) as Hr.
  set (r := N mod D) in *.
  assert (Hloc : forall l,
    match l with
    | loc_Exact => r = 0
    | loc_Inexact Lt => 0 < 2 * r < D
    | loc_Inexact Eq => 2 * r = D
    | loc_Inexact Gt => D < 2 * r
    end ->
    located N D (shr_record_of_loc (N / D) l)).
  { intros l Hl. unfold located. fold r.
    destruct l as [|[]]; cbn [shr_record_of_loc shr_m shr_r shr_s];
      repeat split; try lia; symmetry.
    - rewrite Hl. reflexivity.
    - rewrite Hl, Z.mod_same by lia. reflexivity.
    - rewrite Z.mod_small by lia. apply negb_true_iff, Z.eqb_neq. lia.
    - replace (2 * r) with (2 * r - D + 1 * D) by lia.
      rewrite Z.mod_add, Z.mod_small by lia.
      apply negb_true_iff, Z.eqb_neq. lia. }
  apply Hloc. unfold new_location.
  destruct (Z.even D) eqn:Hev.
  - unfold new_location_even.
    destruct (r =? 0) eqn:Hr0; [now apply Z.eqb_eq in Hr0|].
    apply Z.eqb_neq in Hr0.
    destruct (Z.compare_spec (2 * r) D); lia.
  - unfold new_location_odd.
    destruct (r =? 0) eqn:Hr0; [now apply Z.eqb_eq in Hr0|].
    apply Z.eqb_neq in Hr0.
    assert (Hodd : D mod 2 = 1).
    { rewrite Zmod_odd, <- Z.negb_even, Hev. reflexivity. }
    assert (D = 2 * (D / 2) + 1)
      by (pose proof (Z.div_mod D 2 ltac:(lia)); lia).
    destruct (Z.compare_spec (2 * r + 1) D); lia.
Qed.

Section Operations.

Variables (Mx My : positive) (Ex Ey : Z).
Hypothesis normal_x : 2 ^ 52 <= Z.pos Mx < 2 ^ 53.
Hypothesis normal_y : 2 ^ 52 <= Z.pos My < 2 ^ 53.
Hypothesis range_x : -500 <= Ex <= 400.
Hypothesis range_y : -500 <= Ey <= 400.

(** The quotient of two normal positive Numbers is within half a unit in
    the last place of the exact quotient. *)
Lemma SFdiv_normal :
  exists (M : positive) (E : Z),
    SFdiv 53 1024 (S754_finite false Mx Ex) (S754_finite false My Ey)
      = S754_finite false M E /\
    2 ^ 52 <= Z.pos M < 2 ^ 53 /\
    0 <= E - (Ex - Ey - 53) <= 2 /\
    2 * Z.abs (Z.pos M * 2 ^ (E - (Ex - Ey - 53)) * Z.pos My
               - Z.pos Mx * 2 ^ 53)
      <= 2 ^ (E - (Ex - Ey - 53)) * Z.pos My.
Proof.
  assert (Hdx : Z.pos (digits2_pos Mx) = 53)
    by (apply digits2_pos_unique; lia).
  assert (Hdy : Z.pos (digits2_pos My) = 53)
    by (apply digits2_pos_unique; lia).
  unfold SFdiv, SFdiv_core_binary. cbn [Zdigits2 xorb].
  rewrite Hdx, Hdy. rewrite fexp_normal by lia.
  replace (53 + Ex - (53 + Ey) - 53) with (Ex - Ey - 53) by lia.
  rewrite Z.min_l by lia.
  replace (Ex - Ey - (Ex - Ey - 53)) with 53 by lia.
  rewrite Z.shiftl_mul_pow2 by lia.
  set (N := Z.pos Mx * 2 ^ 53).
  pose proof (new_location_located N (Z.pos My) ltac:(unfold N; lia) ltac:(lia))
    as Hloc.
  unfold Z.div, Z.modulo in Hloc.
  assert (Hq : 2 ^ 52 <= N / Z.pos My < 2 ^ 54).
  { unfold N. split.
    - apply Z.div_le_lower_bound; [lia|]. nia.
    - apply Z.div_lt_upper_bound; [lia|].
      change (2 ^ 54) with (2 * 2 ^ 53). nia. }
  unfold Z.div in Hq.
  destruct (Z.div_eucl N (Z.pos My)) as [q r].
  cbn [fst snd] in Hloc, Hq.
  destruct (Z_lt_le_dec q (2 ^ 53)) as [Hlt|Hge].
  - destruct (binary_round_aux_located false q (Ex - Ey - 53) _ N (Z.pos My) 53
                Hloc ltac:(simpl in *; lia) ltac:(lia) ltac:(lia))
      as (M & E & Hrun & HM & HE & Hnear).
    exists M, E. split; [exact Hrun|]. split; [exact HM|]. split; [lia|].
    exact Hnear.
  - destruct (binary_round_aux_located false q (Ex - Ey - 53) _ N (Z.pos My) 54
                Hloc ltac:(simpl in *; lia) ltac:(lia) ltac:(lia))
      as (M & E & Hrun & HM & HE & Hnear).
    exists M, E. split; [exact Hrun|]. split; [exact HM|]. split; [lia|].
    exact Hnear.
Qed.

(** The product of two normal positive Numbers is within half a unit in
    the last place of the exact product. *)
Lemma SFmul_normal :
  exists (M : positive) (E : Z),
    SFmul 53 1024 (S754_finite false Mx Ex) (S754_finite false My Ey)
      = S754_finite false M E /\
    2 ^ 52 <= Z.pos M < 2 ^ 53 /\
    52 <= E - (Ex + Ey) <= 54 /\
    2 * Z.abs (Z.pos M * 2 ^ (E - (Ex + Ey)) - Z.pos Mx * Z.pos My)
      <= 2 ^ (E - (Ex + Ey)).
Proof.
  unfold SFmul. cbn [xorb].
  set (N := Z.pos (Mx * My)).
  assert (HN : N = Z.pos Mx * Z.pos My) by reflexivity.
  assert (Hloc : located N 1 (shr_record_of_loc N loc_Exact)).
  { unfold located. cbn [shr_record_of_loc shr_m shr_r shr_s].
    rewrite Z.div_1_r, Z.mod_1_r. repeat split; lia. }
  assert (Hrange : 2 ^ 104 <= N < 2 ^ 106).
  { change (2 ^ 104) with (2 ^ 52 * 2 ^ 52).
    change (2 ^ 106) with (2 ^ 53 * 2 ^ 53). rewrite HN. nia. }
  destruct (Z_lt_le_dec N (2 ^ 105)) as [Hlt|Hge].
  - destruct (binary_round_aux_located false N (Ex + Ey) _ N 1 105
                Hloc ltac:(simpl in *; lia) ltac:(lia) ltac:(lia))
      as (M & E & Hrun & HM & HE & Hnear).
    exists M, E. split; [exact Hrun|]. split; [exact HM|]. split; [lia|].
    rewrite <- HN. lia.
  - destruct (binary_round_aux_located false N (Ex + Ey) _ N 1 106
                Hloc ltac:(simpl in *; lia) ltac:(lia) ltac:(lia))
      as (M & E & Hrun & HM & HE & Hnear).
    exists M, E. split; [exact Hrun|]. split; [exact HM|]. split; [lia|].
    rewrite <- HN. lia.
Qed.

End Operations.

End RoundingFacts.

(** The integer the code rounds to is a nearest integer of the exact
    percentage: two roundings of relative error 2^-53 cannot carry a
    quotient of integers below 2^32 across a half-integer. *)
Lemma nearest_after_two_roundings (a b n T P Q A1 : Z) :
  0 <= a <= b -> 0 < b < 2 ^ 32 -> 0 < T -> 0 < P -> 0 < Q ->
  2 ^ 53 * Z.abs (Q * b - A1) <= Q * b ->
  2 ^ 53 * Z.abs (P - (100 * 2 ^ 46) * Q) <= P ->
  (100 * 2 ^ 46) * A1 = 100 * a * T ->
  2 * T * n <= 2 * P + T < 2 * T * (n + 1) ->
  2 * Z.abs (n * b - 100 * a) <= b /\ 0 <= n <= 100.
Proof.
  intros Ha Hb HT HP HQ H1 H2 H4 H3.
  set (E := 2 ^ 53) in *. set (C := 100 * 2 ^ 46) in *.
  assert (HE : E = 9007199254740992) by reflexivity.
  assert (HC : C = 7036874417766400) by reflexivity.
  (* E^2 |P b - 100 a T| <= (2E + 1) P b *)
  assert (Hsplit : P * b - 100 * a * T = (P - C * Q) * b + C * (Q * b - A1))
    by (rewrite <- H4; ring).
  assert (HCQ : E * (C * Q) <= (E + 1) * P) by lia.
  assert (H5 : E * Z.abs (C * (Q * b - A1)) <= C * (Q * b)).
  { rewrite Z.abs_mul, (Z.abs_eq C) by lia.
    replace (E * (C * Z.abs (Q * b - A1)))
      with (C * (E * Z.abs (Q * b - A1))) by ring.
    apply Z.mul_le_mono_nonneg_l; lia. }
  assert (H6 : E * Z.abs ((P - C * Q) * b) <= P * b).
  { rewrite Z.abs_mul, (Z.abs_eq b) by lia.
    replace (E * (Z.abs (P - C * Q) * b))
      with (E * Z.abs (P - C * Q) * b) by ring.
    apply Z.mul_le_mono_nonneg_r; lia. }
  assert (H7 : E * (E * Z.abs (P * b - 100 * a * T)) <= (2 * E + 1) * (P * b)).
  { rewrite Hsplit.
    pose proof (Z.abs_triangle ((P - C * Q) * b) (C * (Q * b - A1))) as Htri.
    assert (E * (C * (Q * b)) <= (E + 1) * (P * b)).
    { replace (E * (C * (Q * b))) with (E * (C * Q) * b) by ring.
      replace ((E + 1) * (P * b)) with ((E + 1) * P * b) by ring.
      apply Z.mul_le_mono_nonneg_r; lia. }
    nia. }
  (* P <= 101 T *)
  assert (H8 : P <= 101 * T).
  { assert (Hd : E * (E * (P * b - 100 * a * T)) <= (2 * E + 1) * (P * b)) by lia.
    assert (HaT : 100 * a * T <= 100 * b * T).
    { apply Z.mul_le_mono_nonneg_r; lia. }
    assert (HaT' : E * E * (100 * a * T) <= E * E * (100 * b * T)).
    { apply Z.mul_le_mono_nonneg_l; lia. }
    assert (Hc' : (E * E - 2 * E - 1) * P * b <= E * E * 100 * T * b) by lia.
    assert (Hc : (E * E - 2 * E - 1) * P <= E * E * 100 * T).
    { apply Z.mul_le_mono_pos_r with b; lia. }
    rewrite HE in Hc. lia. }
  (* the distance to the exact percentage, scaled by T *)
  assert (H9 : E * E * (2 * Z.abs (P * b - 100 * a * T)) < E * E * T).
  { assert (P * b <= 101 * T * b) by (apply Z.mul_le_mono_nonneg_r; lia).
    assert ((2 * E + 1) * (P * b) <= (2 * E + 1) * (101 * T * b))
      by (apply Z.mul_le_mono_nonneg_l; lia).
    assert (Hbb : (2 * E + 1) * 101 * 2 * b < E * E) by (rewrite HE; lia).
    assert ((2 * E + 1) * 101 * 2 * b * T < E * E * T)
      by (apply Z.mul_lt_mono_pos_r; lia).
    lia. }
  assert (H10 : 2 * Z.abs (P * b - 100 * a * T) < T).
  { apply Z.mul_lt_mono_pos_l with (E * E); lia. }
  (* the floor of Math.round, scaled by b *)
  assert (Hn1 : 2 * T * n * b <= (2 * P + T) * b)
    by (apply Z.mul_le_mono_nonneg_r; lia).
  assert (Hn2 : (2 * P + T) * b < 2 * T * (n + 1) * b)
    by (apply Z.mul_lt_mono_pos_r; lia).
  assert (Hup : T * (2 * (n * b - 100 * a)) < T * (b + 1)) by lia.
  assert (Hlo : T * (- (b + 1)) < T * (2 * (n * b - 100 * a))) by lia.
  apply Z.mul_lt_mono_pos_l in Hup; [|exact HT].
  apply Z.mul_lt_mono_pos_l in Hlo; [|exact HT].
  assert (Hnear : 2 * Z.abs (n * b - 100 * a) <= b) by lia.
  split; [exact Hnear|].
  assert (Hn100 : n * b < 101 * b) by lia.
  assert (Hn0 : -1 * b < n * b) by lia.
  apply Z.mul_lt_mono_pos_r in Hn100; [|lia].
  apply Z.mul_lt_mono_pos_r in Hn0; [|lia].
  lia.
Qed.

Module NumberFacts.

Import RoundingFacts.

Lemma of_nat_normal (n : nat) :
  (0 < n)%nat -> Z.of_nat n < 2 ^ 53 ->
  exists (M : positive) (E : Z),
    Number.of_nat n = S754_finite false M E /\
    2 ^ 52 <= Z.pos M < 2 ^ 53 /\
    -52 <= E <= 0 /\
    Z.pos M = Z.of_nat n * 2 ^ (- E).
Proof.
  intros Hn Hlt. apply binary_normalize_exact. lia.
Qed.

(** The larger of two integers has the larger exponent. *)
Lemma exponent_monotone (a b Ma Mb Ea Eb : Z) :
  0 < a <= b ->
  2 ^ 52 <= Ma < 2 ^ 53 -> 2 ^ 52 <= Mb < 2 ^ 53 ->
  Ea <= 0 -> Eb <= 0 ->
  Ma = a * 2 ^ (- Ea) -> Mb = b * 2 ^ (- Eb) ->
  Ea <= Eb.
Proof.
  intros Hab HMa HMb HEa HEb Ha Hb.
  destruct (Z_le_gt_dec Ea Eb) as [Hle|Hgt]; [exact Hle|exfalso].
  assert (Hsplit : 2 ^ (- Eb) = 2 ^ (- Ea) * 2 ^ (Ea - Eb))
    by (rewrite <- Z.pow_add_r by lia; f_equal; lia).
  assert (H2 : 2 ^ 1 <= 2 ^ (Ea - Eb)) by (apply Z.pow_le_mono_r; lia).
  change (2 ^ 1) with 2 in H2.
  assert (Hpos : 0 < 2 ^ (- Ea)) by (apply Z.pow_pos_nonneg; lia).
  change (2 ^ 53) with (2 * 2 ^ 52) in *.
  assert (Ma <= b * 2 ^ (- Ea)) by (subst Ma; nia).
  assert (b * 2 ^ (- Ea) * 2 <= b * 2 ^ (- Ea) * 2 ^ (Ea - Eb))
    by (apply Z.mul_le_mono_nonneg_l; nia).
  rewrite Hsplit in Hb. nia.
Qed.

(** [Math.round((a / b) * 100)] on positive integers, step by step. *)
Lemma percent_traced (a b : nat) :
  (0 < a <= b)%nat -> Z.of_nat b < 2 ^ 32 ->
  exists n : Z,
    Quiz.percent a b = Number.of_Z n /\
    Rounding.percent_trace (Z.of_nat a) (Z.of_nat b) n.
Proof.
  intros Hab Hb32.
  assert (H53 : 2 ^ 32 < 2 ^ 53) by reflexivity.
  destruct (of_nat_normal b ltac:(lia) ltac:(lia))
    as (Mb & Eb & Hofb & HMb & HEb & HvMb).
  destruct (of_nat_normal a ltac:(lia) ltac:(lia))
    as (Ma & Ea & Hofa & HMa & HEa & HvMa).
  unfold Quiz.percent. rewrite Hofb, Hofa.
  assert (HEab : Ea <= Eb).
  { apply (exponent_monotone (Z.of_nat a) (Z.of_nat b) (Z.pos Ma) (Z.pos Mb));
      try assumption; lia. }
  destruct (SFdiv_normal Ma Mb Ea Eb HMa HMb ltac:(lia) ltac:(lia))
    as (Mq & Eq & Hdiv & HMq & Hk1 & Hq).
  unfold Number.div, Number.prec, Number.emax. rewrite Hdiv.
  change (Number.of_nat 100) with (S754_finite false 7036874417766400 (-46)).
  destruct (SFmul_normal Mq 7036874417766400 Eq (-46) HMq ltac:(simpl; lia)
              ltac:(lia) ltac:(lia))
    as (Mp & Ep & Hmul & HMp & Hk2 & Hp).
  unfold Number.mul, Number.prec, Number.emax. rewrite Hmul.
  unfold Number.Math_round.
  destruct (0 <=? Ep) eqn:HEp; [apply Z.leb_le in HEp; lia|].
  apply Z.leb_gt in HEp. cbn [Number.signed].
  set (n := (2 * Z.pos Mp + 2 ^ (- Ep)) / 2 ^ (1 - Ep)).
  exists n. split.
  { destruct (n =? 0) eqn:Hn0; [|reflexivity].
    apply Z.eqb_eq in Hn0. rewrite Hn0. reflexivity. }
  exists (Z.pos Mq), (Z.pos Mp), (Z.pos Mb), (Z.pos Ma), (Eb - Ea),
    (Eq - (Ea - Eb - 53)), (Ep - (Eq + -46)).
  repeat match goal with |- _ /\ _ => split end;
    try assumption; try lia.
  - rewrite HvMa, HvMb.
    replace (2 ^ (- Ea)) with (2 ^ (- Eb) * 2 ^ (Eb - Ea))
      by (rewrite <- Z.pow_add_r by lia; f_equal; lia).
    ring.
  - replace (99 + (Eb - Ea) - (Eq - (Ea - Eb - 53)) - (Ep - (Eq + -46)))
      with (- Ep) by lia.
    replace (100 + (Eb - Ea) - (Eq - (Ea - Eb - 53)) - (Ep - (Eq + -46)))
      with (1 - Ep) by lia.
    reflexivity.
Qed.

(** The trace keeps the integer within one half of the exact percentage. *)
Lemma percent_trace_nearest (a b n : Z) :
  0 < a <= b -> b < 2 ^ 32 ->
  Rounding.percent_trace a b n ->
  0 <= n <= 100 /\ 2 * Z.abs (n * b - 100 * a) <= b.
Proof.
  intros Hab Hb32
    (Mq & Mp & X & Y & j & k1 & k2 & Hj & Hk1 & Hk2 & HX & HY & HMq & HMp
       & Hscale & Hq & Hp & Hn).
  set (K1 := 2 ^ k1) in *. set (K2 := 2 ^ k2) in *. set (J := 2 ^ j) in *.
  set (g := 99 + j - k1 - k2) in *.
  replace (100 + j - k1 - k2) with (1 + g) in Hn by (unfold g; lia).
  assert (Hg : 0 <= g) by (unfold g; lia).
  rewrite Z.pow_add_r in Hn by lia. change (2 ^ 1) with 2 in Hn.
  set (G := 2 ^ g) in *.
  assert (HK1 : 0 < K1) by (apply Z.pow_pos_nonneg; lia).
  assert (HK2 : 0 < K2) by (apply Z.pow_pos_nonneg; lia).
  assert (HJ : 0 < J) by (apply Z.pow_pos_nonneg; lia).
  assert (HG : 0 < G) by (apply Z.pow_pos_nonneg; lia).
  assert (HGK : G * K1 * K2 = 2 ^ 99 * J).
  { unfold G, K1, K2, J, g. rewrite <- !Z.pow_add_r by lia. f_equal. lia. }
  assert (HK1X : 0 < K1 * X) by (apply Z.mul_pos_pos; lia).
  set (W := K1 * K2 * X).
  assert (HW : 0 < W).
  { unfold W. replace (K1 * K2 * X) with (K1 * X * K2) by ring.
    apply Z.mul_pos_pos; lia. }
  assert (HGW : G * W = 2 ^ 99 * J * X)
    by (rewrite <- HGK; unfold W; ring).
  assert (Hquot : 2 ^ 53 * Z.abs (Mq * K1 * X * b - b * Y * 2 ^ 53)
                  <= Mq * K1 * X * b).
  { replace (Mq * K1 * X * b - b * Y * 2 ^ 53)
      with (b * (Mq * K1 * X - Y * 2 ^ 53)) by ring.
    rewrite Z.abs_mul, (Z.abs_eq b) by lia.
    assert (2 ^ 52 * (K1 * X) <= Mq * (K1 * X))
      by (apply Z.mul_le_mono_nonneg_r; lia).
    assert (b * (2 * Z.abs (Mq * K1 * X - Y * 2 ^ 53)) <= b * (K1 * X))
      by (apply Z.mul_le_mono_nonneg_l; lia).
    assert (b * (2 ^ 52 * (K1 * X)) <= b * (Mq * (K1 * X)))
      by (apply Z.mul_le_mono_nonneg_l; lia).
    change (2 ^ 53) with (2 ^ 52 * 2) at 1.
    assert (2 ^ 52 * (b * (2 * Z.abs (Mq * K1 * X - Y * 2 ^ 53)))
            <= 2 ^ 52 * (b * (K1 * X)))
      by (apply Z.mul_le_mono_nonneg_l; lia).
    lia. }
  assert (Hprod : 2 ^ 53 * Z.abs (Mp * W - 100 * 2 ^ 46 * (Mq * K1 * X))
                  <= Mp * W).
  { replace (Mp * W - 100 * 2 ^ 46 * (Mq * K1 * X))
      with ((K1 * X) * (Mp * K2 - Mq * (100 * 2 ^ 46)))
      by (unfold W; ring).
    rewrite Z.abs_mul, (Z.abs_eq (K1 * X)) by lia.
    assert (2 ^ 52 * (K1 * X * K2) <= Mp * (K1 * X * K2)).
    { apply Z.mul_le_mono_nonneg_r; [|lia].
      apply Z.mul_nonneg_nonneg; lia. }
    assert (K1 * X * (2 * Z.abs (Mp * K2 - Mq * (100 * 2 ^ 46)))
            <= K1 * X * K2) by (apply Z.mul_le_mono_nonneg_l; lia).
    replace (Mp * W) with (Mp * (K1 * X * K2)) by (unfold W; ring).
    change (2 ^ 53) with (2 ^ 52 * 2) at 1.
    assert (2 ^ 52 * (K1 * X * (2 * Z.abs (Mp * K2 - Mq * (100 * 2 ^ 46))))
            <= 2 ^ 52 * (K1 * X * K2))
      by (apply Z.mul_le_mono_nonneg_l; lia).
    lia. }
  assert (Hexact : 100 * 2 ^ 46 * (b * Y * 2 ^ 53) = 100 * a * (G * W)).
  { rewrite HGW. change (2 ^ 99) with (2 ^ 46 * 2 ^ 53).
    replace (100 * a * (2 ^ 46 * 2 ^ 53 * J * X))
      with (100 * 2 ^ 46 * (a * X * J * 2 ^ 53)) by ring.
    now rewrite Hscale. }
  assert (Hfloor : 2 * (G * W) * n <= 2 * (Mp * W) + G * W
                   < 2 * (G * W) * (n + 1)).
  { pose proof (Z.div_mod (2 * Mp + G) (2 * G) ltac:(lia)) as Hdm.
    pose proof (Z.mod_pos_bound (2 * Mp + G) (2 * G) ltac:(lia)) as Hmod.
    rewrite <- Hn in Hdm.
    set (r := (2 * Mp + G) mod (2 * G)) in *.
    replace (2 * (Mp * W) + G * W) with ((2 * Mp + G) * W) by ring.
    rewrite Hdm.
    replace (2 * (G * W) * n) with (2 * G * n * W) by ring.
    replace (2 * (G * W) * (n + 1)) with ((2 * G * n + 2 * G) * W) by ring.
    split.
    - apply Z.mul_le_mono_nonneg_r; lia.
    - apply Z.mul_lt_mono_pos_r; lia. }
  cut (2 * Z.abs (n * b - 100 * a) <= b /\ 0 <= n <= 100); [tauto|].
  apply (nearest_after_two_roundings a b n (G * W) (Mp * W) (Mq * K1 * X)
           (b * Y * 2 ^ 53)); try assumption.
  - lia.
  - lia.
  - apply Z.mul_pos_pos; lia.
  - apply Z.mul_pos_pos; lia.
  - replace (Mq * K1 * X) with (Mq * (K1 * X)) by ring.
    apply Z.mul_pos_pos; lia.
Qed.

(** [Math.round((a / b) * 100)] for integers [a <= b] below 2^32 is an
    integer from 0 to 100, and a nearest one to [100 * a / b]. *)
Lemma percent_nearest (a b : nat) :
  (a <= b)%nat -> (0 < b)%nat -> Z.of_nat b < 2 ^ 32 ->
  exists p : Z,
    Quiz.percent a b = Number.of_Z p /\
    0 <= p <= 100 /\
    2 * Z.abs (p * Z.of_nat b - 100 * Z.of_nat a) <= Z.of_nat b.
Proof.
  intros Hab Hb Hb32.
  destruct a as [|a'].
  { assert (H53 : 2 ^ 32 < 2 ^ 53) by reflexivity.
    destruct (of_nat_normal b Hb ltac:(lia)) as (Mb & Eb & Hofb & _).
    exists 0. unfold Quiz.percent. rewrite Hofb.
    split; [reflexivity|]. simpl. lia. }
  destruct (percent_traced (S a') b ltac:(lia) Hb32) as (n & Hn & Htrace).
  exists n. split; [exact Hn|].
  apply percent_trace_nearest; [lia|exact Hb32|exact Htrace].
Qed.

End NumberFacts.

Module TieFacts.

(** Replace the closed powers of two of a hypothesis by their values. *)
Ltac eval_pow_in H :=
  repeat match type of H with
         | context [2 ^ ?e] =>
             let v := eval vm_compute in (2 ^ e) in
             change (2 ^ e) with v in H
         end.

(** The integer pinned by an inequality [2 |x K - c| <= K']. *)
Ltac pin_quotient H x :=
  match type of H with
  | 2 * Z.abs (200 * x * ?K - ?c) <= _ =>
      let v := eval vm_compute in ((c + 100 * K) / (200 * K)) in
      assert (x = v) by lia
  end.

Ltac pin_product H x :=
  match type of H with
  | 2 * Z.abs (x * ?K - ?c) <= _ =>
      let v := eval vm_compute in ((2 * c + K) / (2 * K)) in
      assert (x = v) by lia
  end.

(** At the four ties on a threshold of the table, 39.5, 59.5, 79.5 and
    99.5, the two roundings end on the exact value and [Math.round] goes
    up. *)
Lemma percent_trace_tie (a b n u : Z) :
  0 < a <= b ->
  Rounding.percent_trace a b n ->
  200 * a = u * b ->
  u = 79 \/ u = 119 \/ u = 159 \/ u = 199 ->
  2 * n = u + 1.
Proof.
  intros Hab
    (Mq & Mp & X & Y & j & k1 & k2 & Hj & Hk1 & Hk2 & HX & HY & HMq & HMp
       & Hscale & Hq & Hp & Hn) Htie Hu.
  assert (HuXJ : u * X * 2 ^ j = 200 * Y).
  { apply Z.mul_reg_l with b; [lia|].
    replace (b * (u * X * 2 ^ j)) with (u * b * X * 2 ^ j) by ring.
    rewrite <- Htie.
    replace (200 * a * X * 2 ^ j) with (200 * (a * X * 2 ^ j)) by ring.
    rewrite Hscale. ring. }
  assert (Hu0 : 79 <= u <= 199) by lia.
  assert (HJ : 0 < 2 ^ j) by (apply Z.pow_pos_nonneg; lia).
  assert (Hj2 : j <= 2).
  { destruct (Z_le_gt_dec j 2) as [H|H]; [exact H|exfalso].
    assert (H8 : 2 ^ 3 <= 2 ^ j) by (apply Z.pow_le_mono_r; lia).
    change (2 ^ 3) with 8 in H8.
    assert (u * 2 ^ 52 * 8 <= u * X * 2 ^ j).
    { apply Z.mul_le_mono_nonneg; try lia;
        apply Z.mul_le_mono_nonneg_l; lia. }
    change (2 ^ 52) with 4503599627370496 in *.
    change (2 ^ 53) with 9007199254740992 in *. lia. }
  (* the quotient: [200 Mq 2^k1] is within [100 2^k1] of [u 2^j 2^53] *)
  assert (Hq' : 2 * Z.abs (200 * Mq * 2 ^ k1 - u * 2 ^ j * 2 ^ 53)
                <= 200 * 2 ^ k1).
  { assert (HK1 : 0 < 2 ^ k1) by (apply Z.pow_pos_nonneg; lia).
    apply Z.mul_le_mono_pos_r with X; [lia|].
    replace (2 * Z.abs (200 * Mq * 2 ^ k1 - u * 2 ^ j * 2 ^ 53) * X)
      with (2 * (Z.abs (200 * Mq * 2 ^ k1 - u * 2 ^ j * 2 ^ 53) * Z.abs X))
      by (rewrite (Z.abs_eq X) by lia; ring).
    rewrite <- Z.abs_mul.
    replace ((200 * Mq * 2 ^ k1 - u * 2 ^ j * 2 ^ 53) * X)
      with (200 * (Mq * 2 ^ k1 * X) - u * X * 2 ^ j * 2 ^ 53) by ring.
    rewrite HuXJ.
    replace (200 * (Mq * 2 ^ k1 * X) - 200 * Y * 2 ^ 53)
      with (200 * (Mq * 2 ^ k1 * X - Y * 2 ^ 53)) by ring.
    rewrite Z.abs_mul. change (Z.abs 200) with 200. lia. }
  clear Hscale HuXJ Hq Htie HX HY Hab.
  assert (Hjs : j = 0 \/ j = 1 \/ j = 2) by lia.
  assert (Hk1s : k1 = 0 \/ k1 = 1 \/ k1 = 2) by lia.
  assert (Hk2s : k2 = 52 \/ k2 = 53 \/ k2 = 54) by lia.
  clear Hj Hj2 Hk1 Hk2 HJ Hu0.
  change (2 ^ 52) with 4503599627370496 in *.
  change (2 ^ 53) with 9007199254740992 in *.
  change (100 * 2 ^ 46) with 7036874417766400 in *.
  destruct Hu as [->|[->|[->| ->]]];
    destruct Hjs as [->|[->| ->]];
    destruct Hk1s as [->|[->| ->]];
    eval_pow_in Hq'; try (exfalso; lia);
    destruct Hk2s as [->|[->| ->]];
    eval_pow_in Hp; try (exfalso; lia);
    eval_pow_in Hn;
    pin_quotient Hq' Mq; subst Mq;
    pin_product Hp Mp; subst Mp;
    vm_compute in Hn; subst n; reflexivity.
Qed.

(** The exact percentage, rounded half up, is within the same bounds. *)
Lemma round_half_up_spec (a b : Z) :
  0 <= a <= b -> 0 < b ->
  0 <= Rounding.round_half_up a b <= 100 /\
  2 * b * Rounding.round_half_up a b <= 200 * a + b
    < 2 * b * (Rounding.round_half_up a b + 1).
Proof.
  intros Ha Hb. unfold Rounding.round_half_up.
  pose proof (Z.div_mod (200 * a + b) (2 * b) ltac:(lia)) as Hdm.
  pose proof (Z.mod_pos_bound (200 * a + b) (2 * b) ltac:(lia)) as Hmod.
  set (P := (200 * a + b) / (2 * b)) in *.
  set (r := (200 * a + b) mod (2 * b)) in *.
  assert (Hbounds : 2 * b * P <= 200 * a + b < 2 * b * (P + 1)) by lia.
  split; [|exact Hbounds].
  assert (H0 : b * (2 * -1) < b * (2 * P)) by lia.
  assert (H100 : b * (2 * P) < b * (2 * 101)) by lia.
  apply Z.mul_lt_mono_pos_l in H0; [|exact Hb].
  apply Z.mul_lt_mono_pos_l in H100; [|exact Hb].
  lia.
Qed.

(** The integer of the code is the exact percentage rounded half up, or
    one below it at a tie. *)
Lemma nearest_or_tie (a b n : Z) :
  0 <= a <= b -> 0 < b ->
  2 * Z.abs (n * b - 100 * a) <= b ->
  n = Rounding.round_half_up a b \/
  (n = Rounding.round_half_up a b - 1 /\
   200 * a = (2 * Rounding.round_half_up a b - 1) * b).
Proof.
  intros Ha Hb Hnear.
  destruct (round_half_up_spec a b Ha Hb) as [_ HP].
  set (P := Rounding.round_half_up a b) in *.
  assert (Hup : b * (2 * n) < b * (2 * (P + 1))) by lia.
  assert (Hlo : b * (2 * (P - 1)) <= b * (2 * n)) by lia.
  apply Z.mul_lt_mono_pos_l in Hup; [|exact Hb].
  apply Z.mul_le_mono_pos_l in Hlo; [|exact Hb].
  destruct (Z.eq_dec n P) as [Heq|Hne]; [left; exact Heq|right].
  assert (Hn : n = P - 1) by lia. subst n. split; [reflexivity|]. lia.
Qed.

(** The tier of the integer of the code is the tier of the exact
    percentage rounded half up. *)
Lemma percent_trace_tier (a b n : Z) :
  0 < a <= b -> b < 2 ^ 32 ->
  Rounding.percent_trace a b n ->
  Session.tier_of n = Session.tier_of (Rounding.round_half_up a b).
Proof.
  intros Hab Hb32 Htrace.
  destruct (NumberFacts.percent_trace_nearest a b n Hab Hb32 Htrace)
    as [Hrange Hnear].
  destruct (nearest_or_tie a b n ltac:(lia) ltac:(lia) Hnear)
    as [->|[Hn Htie]]; [reflexivity|].
  set (P := Rounding.round_half_up a b) in *.
  destruct (Z.eq_dec P 40) as [H40|H40];
    [pose proof (percent_trace_tie a b n 79 Hab Htrace ltac:(lia) ltac:(lia));
     lia|].
  destruct (Z.eq_dec P 60) as [H60|H60];
    [pose proof (percent_trace_tie a b n 119 Hab Htrace ltac:(lia) ltac:(lia));
     lia|].
  destruct (Z.eq_dec P 80) as [H80|H80];
    [pose proof (percent_trace_tie a b n 159 Hab Htrace ltac:(lia) ltac:(lia));
     lia|].
  destruct (Z.eq_dec P 100) as [H100|H100];
    [pose proof (percent_trace_tie a b n 199 Hab Htrace ltac:(lia) ltac:(lia));
     lia|].
  subst n. unfold Session.tier_of.
  destruct (P - 1 =? 100) eqn:E1, (P =? 100) eqn:E2; try lia;
  destruct (80 <=? P - 1) eqn:E3, (80 <=? P) eqn:E4; try lia;
  destruct (60 <=? P - 1) eqn:E5, (60 <=? P) eqn:E6; try lia;
  destruct (40 <=? P - 1) eqn:E7, (40 <=? P) eqn:E8; try lia; reflexivity.
Qed.

(** [Math.round((a / b) * 100)] for integers [a <= b] below 2^32: an
    integer from 0 to 100, a nearest one to [100 * a / b], and in the
    tier of [100 * a / b] rounded half up. *)
Lemma percent_spec (a b : nat) :
  (a <= b)%nat -> (0 < b)%nat -> Z.of_nat b < 2 ^ 32 ->
  exists p : Z,
    Quiz.percent a b = Number.of_Z p /\
    0 <= p <= 100 /\
    2 * Z.abs (p * Z.of_nat b - 100 * Z.of_nat a) <= Z.of_nat b /\
    Session.tier_of p
      = Session.tier_of (Rounding.round_half_up (Z.of_nat a) (Z.of_nat b)).
Proof.
  intros Hab Hb Hb32.
  destruct a as [|a'].
  { destruct (NumberFacts.percent_nearest 0 b Hab Hb Hb32)
      as (p & Hp & Hrange & Hnear).
    exists p. repeat split; try assumption; try lia.
    assert (Hp0 : p = 0).
    { change (Z.of_nat 0) with 0 in Hnear.
      assert (b0 : Z.of_nat b * (2 * -1) < Z.of_nat b * (2 * p)) by lia.
      assert (b1 : Z.of_nat b * (2 * p) < Z.of_nat b * (2 * 1)) by lia.
      apply Z.mul_lt_mono_pos_l in b0; [|lia].
      apply Z.mul_lt_mono_pos_l in b1; [|lia]. lia. }
    subst p. unfold Rounding.round_half_up. change (Z.of_nat 0) with 0.
    replace (200 * 0 + Z.of_nat b) with (Z.of_nat b) by lia.
    rewrite Z.div_small by lia. reflexivity. }
  destruct (NumberFacts.percent_traced (S a') b ltac:(lia) Hb32)
    as (n & Hn & Htrace).
  assert (Hab' : 0 < Z.of_nat (S a') <= Z.of_nat b) by lia.
  destruct (NumberFacts.percent_trace_nearest _ _ n Hab' Hb32 Htrace)
    as [Hrange Hnear].
  exists n. repeat split; try assumption; try lia.
  apply percent_trace_tier; assumption.
Qed.

End TieFacts.

(** ** The floor of a rounded product *)

Module FloorFacts.

Import Rounding RoundingFacts.

Lemma located_exact (mx : Z) :
  0 <= mx -> located mx 1 (shr_record_of_loc mx loc_Exact).
Proof.
  intros Hmx. unfold located. cbn [shr_record_of_loc shr_m shr_r shr_s].
  rewrite Z.mod_1_r, Z.div_1_r. repeat split; try lia; reflexivity.
Qed.

Lemma fexp_max (e : Z) : fexp 53 1024 e = Z.max (e - 53) (-1074).
Proof. reflexivity. Qed.

Lemma shr_no_shift (mrs : shr_record) (e n : Z) :
  n <= 0 -> shr mrs e n = (mrs, e).
Proof. intros Hn. destruct n; try reflexivity; lia. Qed.

(** Rounding a product to binary64, below the overflow threshold: the
    mantissa is kept when it fits; otherwise it is rounded to nearest at
    the exponent of the format. *)
Lemma binary_round_aux_value (mx : positive) (ex : Z) :
  let d := Z.pos (digits2_pos mx) in
  let e' := fexp 53 1024 (d + ex) in
  e' <= 900 ->
  (e' <= ex /\
   binary_round_aux 53 1024 false (Z.pos mx) ex loc_Exact
     = S754_finite false mx ex) \/
  (ex < e' /\
   exists M1 : Z,
     Z.pos mx / 2 ^ (e' - ex) <= M1 /\
     2 * Z.abs (M1 * 2 ^ (e' - ex) - Z.pos mx) <= 2 ^ (e' - ex) /\
     ((M1 = 0 /\
       binary_round_aux 53 1024 false (Z.pos mx) ex loc_Exact
         = S754_zero false) \/
      exists (m2 : positive) (e2 : Z),
        binary_round_aux 53 1024 false (Z.pos mx) ex loc_Exact
          = S754_finite false m2 e2 /\
        e' <= e2 <= e' + 1 /\
        Z.pos m2 * 2 ^ (e2 - e') = M1)).
Proof.
  intros d e' Hmax.
  pose proof (digits2_pos_bounds mx) as Hd. fold d in Hd.
  assert (Hd0 : 0 < d) by (unfold d; lia).
  assert (He' : e' = Z.max (d + ex - 53) (-1074)) by apply fexp_max.
  unfold binary_round_aux, shr_fexp. cbn [Zdigits2]. fold d. fold e'.
  destruct (Z.le_gt_cases e' ex) as [Hfit|Hshift].
  - left. split; [exact Hfit|].
    rewrite shr_no_shift by lia.
    cbn [shr_record_of_loc shr_m loc_of_shr_record round_nearest_even
         Zdigits2].
    fold d. fold e'. rewrite shr_no_shift by lia.
    cbn [shr_record_of_loc shr_m].
    destruct (ex <=? 1024 - 53) eqn:Hle; [reflexivity|].
    apply Z.leb_gt in Hle. lia.
  - right. split; [lia|].
    set (s1 := e' - ex) in *.
    destruct (shr_located (Z.pos mx) 1 _ ex s1
                (located_exact (Z.pos mx) ltac:(lia)) ltac:(lia))
      as [Hloc Hexp].
    destruct (shr (shr_record_of_loc (Z.pos mx) loc_Exact) ex s1)
      as [mrs1 e1].
    cbn [fst snd] in Hloc, Hexp.
    subst e1. replace (ex + s1) with e' by (unfold s1; lia).
    rewrite Z.mul_1_l in Hloc.
    pose proof (round_nearest_even_located _ _ _ Hloc) as [HM Hnear].
    cbv zeta in HM, Hnear.
    destruct Hloc as (_ & HS & Hq & _).
    set (M1 := round_nearest_even (shr_m mrs1) (loc_of_shr_record mrs1)) in *.
    exists M1. rewrite Hq in HM.
    split; [lia|]. split; [exact Hnear|].
    assert (Hq0 : 0 <= Z.pos mx / 2 ^ s1) by (apply Z.div_pos; lia).
    (* the rounded mantissa has at most 54 digits *)
    assert (Htop : M1 <= 2 ^ 53).
    { assert (Hlt : Z.pos mx / 2 ^ s1 < 2 ^ 53); [|lia].
      apply Z.div_lt_upper_bound; [lia|].
      destruct (Z.le_gt_cases d (s1 + 53)) as [Hle|Hgt].
      - assert (2 ^ d <= 2 ^ (s1 + 53)) by (apply Z.pow_le_mono_r; lia).
        rewrite Z.pow_add_r in H by lia. lia.
      - unfold s1 in Hgt. lia. }
    destruct M1 as [|pM|pM] eqn:EM; [| |lia].
    + left. split; [reflexivity|].
      cbn [Zdigits2]. rewrite shr_no_shift by (rewrite fexp_max; lia).
      reflexivity.
    + right.
      pose proof (digits2_pos_bounds pM) as HdM.
      set (dM := Z.pos (digits2_pos pM)) in *.
      assert (HdM0 : 0 < dM) by (unfold dM; lia).
      assert (HdM54 : dM <= 54).
      { destruct (Z.le_gt_cases dM 54) as [H|H]; [exact H|].
        assert (2 ^ 54 <= 2 ^ (dM - 1)) by (apply Z.pow_le_mono_r; lia).
        change (2 ^ 54) with (2 * 2 ^ 53) in H0. lia. }
      cbn [Zdigits2]. fold dM.
      destruct (Z.eq_dec dM 54) as [H54|H54].
      * (* the mantissa is 2^53: one more shift *)
        assert (HpM : Z.pos pM = 2 ^ 53).
        { rewrite H54 in HdM. change (2 ^ (54 - 1)) with (2 ^ 53) in HdM.
          lia. }
        assert (Hnormal : -1074 <= d + ex - 53).
        { destruct (Z.le_gt_cases (-1074) (d + ex - 53)) as [H|H];
            [exact H|exfalso].
          assert (He'' : e' = -1074) by lia.
          (* mx / 2^s1 >= 2^53 - 1, so d - 1 >= 52 + s1 *)
          assert (Hbig : 2 ^ 52 * 2 ^ s1 <= Z.pos mx).
          { assert (2 ^ 52 <= Z.pos mx / 2 ^ s1) by (simpl in *; lia).
            apply (Z.mul_le_mono_nonneg_r _ _ (2 ^ s1)) in H0; [|lia].
            pose proof (Z.mul_div_le (Z.pos mx) (2 ^ s1) HS). lia. }
          rewrite <- Z.pow_add_r in Hbig by lia.
          assert (52 + s1 < d).
          { apply (Z.pow_lt_mono_r_iff 2); lia. }
          unfold s1 in H0. lia. }
        rewrite H54, fexp_max.
        replace (Z.max (54 + e' - 53) (-1074) - e') with 1 by lia.
        assert (HpM' : pM = 9007199254740992%positive) by (simpl in HpM; lia).
        clear HpM HdM. subst pM.
        cbn [shr shr_record_of_loc SpecFloat.iter_pos shr_1 shr_m].
        destruct (e' + 1 <=? 1024 - 53) eqn:Hle;
          [|apply Z.leb_gt in Hle; lia].
        eexists _, _. split; [reflexivity|]. split; [lia|].
        replace (e' + 1 - e') with 1 by lia. reflexivity.
      * rewrite shr_no_shift by (rewrite fexp_max; lia).
        cbn [shr_record_of_loc shr_m].
        destruct (e' <=? 1024 - 53) eqn:Hle;
          [|apply Z.leb_gt in Hle; lia].
        exists pM, e'. split; [reflexivity|]. split; [lia|].
        rewrite Z.sub_diag. lia.
Qed.

Lemma index_of_integer (n : Z) (s : bool) :
  0 <= n < 2 ^ 53 ->
  Randomizer.index (if n =? 0 then S754_zero s else Number.of_Z n)
    = Some (Z.to_nat n).
Proof.
  intros Hn. destruct (n =? 0) eqn:H0.
  - apply Z.eqb_eq in H0. subst n. reflexivity.
  - apply Z.eqb_neq in H0.
    destruct (binary_normalize_exact n ltac:(lia))
      as (M & E & Heq & HM & HE & Hval).
    unfold Number.of_Z, Number.prec, Number.emax. rewrite Heq.
    unfold Randomizer.index, Number.to_Z. cbn [Number.signed].
    assert (Hpow : 0 < 2 ^ (- E)) by (apply Z.pow_pos_nonneg; lia).
    destruct (0 <=? E) eqn:HE0.
    + apply Z.leb_le in HE0. assert (E = 0) by lia. subst E.
      change (2 ^ (- 0)) with 1 in Hval. change (2 ^ 0) with 1.
      rewrite Hval, !Z.mul_1_r.
      destruct (0 <=? n) eqn:Hpos; [reflexivity|apply Z.leb_gt in Hpos; lia].
    + rewrite Hval, Z.mod_mul, Z.div_mul by lia. cbn [Z.eqb].
      destruct (0 <=? n) eqn:Hpos; [reflexivity|apply Z.leb_gt in Hpos; lia].
Qed.

Lemma Math_floor_index (m : positive) (e : Z) :
  e < 0 -> Z.pos m / 2 ^ (- e) < 2 ^ 53 ->
  Randomizer.index (Number.Math_floor (S754_finite false m e))
    = Some (Z.to_nat (Z.pos m / 2 ^ (- e))).
Proof.
  intros He Hlt. unfold Number.Math_floor.
  destruct (0 <=? e) eqn:H0; [apply Z.leb_le in H0; lia|].
  cbn [Number.signed]. cbv zeta. apply index_of_integer.
  split; [|exact Hlt]. apply Z.div_pos; [lia|].
  apply Z.pow_pos_nonneg; lia.
Qed.

(** The floor of a product rounded to binary64 stays between two
    integers that bracket the exact product, the upper one with a margin
    of one part in 2^53. *)
Lemma binary_round_aux_bracket (mx : positive) (ex j t : Z) :
  ex < 0 -> 0 <= j -> t <= 2 ^ 32 ->
  j * 2 ^ (- ex) <= Z.pos mx ->
  Z.pos mx * 2 ^ 53 <= t * (2 ^ 53 - 1) * 2 ^ (- ex) ->
  exists z : Z,
    Randomizer.index (Number.Math_floor
             (binary_round_aux 53 1024 false (Z.pos mx) ex loc_Exact))
      = Some (Z.to_nat z) /\
    j <= z < t.
Proof.
  intros Hex Hj Ht Hlow Hhigh.
  pose proof (digits2_pos_bounds mx) as Hd.
  set (d := Z.pos (digits2_pos mx)) in *.
  assert (Hd0 : 0 < d) by (unfold d; lia).
  set (X := 2 ^ (- ex)) in *.
  assert (HX : 0 < X) by (apply Z.pow_pos_nonneg; lia).
  assert (Ht0 : 0 < t).
  { destruct (Z.le_gt_cases t 0) as [H|H]; [exfalso|exact H].
    assert (t * (2 ^ 53 - 1) * X <= 0); [|lia].
    apply Z.mul_nonpos_nonneg; [|lia].
    apply Z.mul_nonpos_nonneg; lia. }
  (* the product is below t, strictly *)
  assert (Hbelow : Z.pos mx < t * X).
  { apply (Z.mul_lt_mono_pos_r (2 ^ 53)); [lia|].
    eapply Z.le_lt_trans; [exact Hhigh|].
    replace (t * X * 2 ^ 53) with (t * 2 ^ 53 * X) by ring.
    apply Z.mul_lt_mono_pos_r; [exact HX|]. lia. }
  assert (Hsmall : d + ex <= 32).
  { assert (Hlt : 2 ^ (d - 1) < 2 ^ (32 - ex)).
    { eapply Z.le_lt_trans; [apply Hd|].
      eapply Z.lt_le_trans; [exact Hbelow|].
      replace (32 - ex) with (32 + - ex) by lia.
      rewrite Z.pow_add_r by lia. fold X.
      apply Z.mul_le_mono_nonneg_r; lia. }
    apply Z.pow_lt_mono_r_iff in Hlt; lia. }
  pose proof (binary_round_aux_value mx ex) as Hvalue.
  cbv zeta in Hvalue. fold d in Hvalue.
  rewrite fexp_max in Hvalue.
  set (e' := Z.max (d + ex - 53) (-1074)) in *.
  assert (He' : e' <= -21) by (unfold e'; lia).
  destruct (Hvalue ltac:(lia)) as [[Hfit Heq]|(Hshift & M1 & Hfloor & Hnear & Hres)].
  - (* the product is a Number *)
    rewrite Heq. exists (Z.pos mx / X).
    assert (Hz : j <= Z.pos mx / X < t).
    { split.
      - apply Z.div_le_lower_bound; lia.
      - apply Z.div_lt_upper_bound; lia. }
    split; [|exact Hz].
    apply Math_floor_index; [exact Hex|]. fold X. lia.
  - set (s1 := e' - ex) in *.
    set (A := 2 ^ (- e')).
    set (S := 2 ^ s1) in *.
    assert (HA : 0 < A) by (apply Z.pow_pos_nonneg; lia).
    assert (HS : 0 < S) by (apply Z.pow_pos_nonneg; unfold s1; lia).
    assert (HX' : X = A * S).
    { unfold X, A, S. rewrite <- Z.pow_add_r by (unfold s1; lia).
      f_equal. unfold s1. lia. }
    (* the margin is more than half a unit of the rounding *)
    assert (Hmargin : 2 ^ 53 < 2 * (t * A)).
    { destruct (Z.le_gt_cases (-1074) (d + ex - 53)) as [Hn|Hn].
      - assert (Hs1 : s1 = d - 53) by (unfold s1, e'; lia).
        assert (HS' : 2 ^ (d - 1) = 2 ^ 52 * S).
        { unfold S. rewrite Hs1, <- Z.pow_add_r by lia. f_equal. lia. }
        assert (2 ^ 52 * S < t * A * S) by lia.
        assert (2 ^ 52 < t * A)
          by (apply (Z.mul_lt_mono_pos_r S); [exact HS|exact H]).
        change (2 ^ 53) with (2 * 2 ^ 52). lia.
      - assert (HA' : A = 2 ^ 1074) by (unfold A, e'; f_equal; lia).
        assert (2 ^ 53 <= A).
        { rewrite HA'. apply Z.pow_le_mono_r; lia. }
        assert (A <= t * A) by nia. lia. }
    assert (HJ : j * A <= M1).
    { eapply Z.le_trans; [|exact Hfloor]. fold S.
      apply Z.div_le_lower_bound; [exact HS|].
      rewrite HX' in Hlow. lia. }
    assert (HT : M1 < t * A).
    { apply (Z.mul_lt_mono_pos_r (2 * 2 ^ 53 * S)); [lia|].
      fold S in Hnear.
      assert (H1 : 2 * (M1 * S) <= 2 * Z.pos mx + S) by lia.
      assert (H2 : 2 ^ 53 * (2 * (M1 * S))
                   <= 2 ^ 53 * (2 * Z.pos mx + S))
        by (apply Z.mul_le_mono_nonneg_l; lia).
      rewrite HX' in Hhigh.
      assert (H3 : 2 * (t * A) * S > 2 ^ 53 * S)
        by (apply Z.lt_gt, Z.mul_lt_mono_pos_r; lia).
      lia. }
    destruct Hres as [[HM0 Heq]|(m2 & e2 & Heq & He2 & Hm2)].
    + rewrite Heq. exists 0. split; [reflexivity|].
      subst M1. split; [|lia].
      destruct (Z.le_gt_cases j 0) as [H|H]; [exact H|exfalso].
      assert (A <= j * A) by nia. lia.
    + rewrite Heq. exists (M1 / A).
      assert (Hz : j <= M1 / A < t).
      { split.
        - apply Z.div_le_lower_bound; lia.
        - apply Z.div_lt_upper_bound; lia. }
      split; [|exact Hz].
      assert (Hsame : Z.pos m2 / 2 ^ (- e2) = M1 / A).
      { destruct (Z.eq_dec e2 e') as [->|Hne].
        - rewrite Z.sub_diag in Hm2. change (2 ^ 0) with 1 in Hm2.
          fold A. f_equal. lia.
        - assert (He2' : e2 = e' + 1) by lia.
          rewrite He2' in Hm2 |- *.
          replace (e' + 1 - e') with 1 in Hm2 by lia.
          change (2 ^ 1) with 2 in Hm2.
          assert (HA2 : A = 2 ^ (- (e' + 1)) * 2).
          { unfold A. replace (- e') with (- (e' + 1) + 1) by lia.
            rewrite Z.pow_add_r by lia. reflexivity. }
          rewrite HA2, <- Hm2.
          rewrite Z.div_mul_cancel_r; [reflexivity| |lia].
          apply Z.pow_nonzero; lia. }
      rewrite <- Hsame.
      apply Math_floor_index; [lia|]. rewrite Hsame. lia.
Qed.

(** The same for the product of a positive Number and the Number of a
    positive integer. *)
Lemma mul_floor_bracket (m : positive) (e n j t : Z) :
  e < 0 -> 0 < n < 2 ^ 53 -> 0 <= j -> t <= 2 ^ 32 ->
  j * 2 ^ (- e) <= Z.pos m * n ->
  Z.pos m * n * 2 ^ 53 <= t * (2 ^ 53 - 1) * 2 ^ (- e) ->
  exists z : Z,
    Randomizer.index
      (Number.Math_floor
         (Number.mul (S754_finite false m e) (Number.of_Z n)))
      = Some (Z.to_nat z) /\
    j <= z < t.
Proof.
  intros He Hn Hj Ht Hlow Hhigh.
  destruct (binary_normalize_exact n Hn) as (M & E & Heq & HM & HE & Hval).
  unfold Number.mul, Number.of_Z, Number.prec, Number.emax. rewrite Heq.
  cbn [SFmul xorb].
  assert (HA : 0 < 2 ^ (- e)) by (apply Z.pow_pos_nonneg; lia).
  assert (HB : 0 < 2 ^ (- E)) by (apply Z.pow_pos_nonneg; lia).
  assert (Hpow : 2 ^ (- (e + E)) = 2 ^ (- e) * 2 ^ (- E)).
  { rewrite <- Z.pow_add_r by lia. f_equal. lia. }
  apply (binary_round_aux_bracket (m * M) (e + E) j t);
    [lia|exact Hj|exact Ht| |];
    rewrite Pos2Z.inj_mul, Hval, Hpow.
  - replace (j * (2 ^ (- e) * 2 ^ (- E)))
      with (j * 2 ^ (- e) * 2 ^ (- E)) by ring.
    replace (Z.pos m * (n * 2 ^ (- E)))
      with (Z.pos m * n * 2 ^ (- E)) by ring.
    apply Z.mul_le_mono_nonneg_r; [lia|exact Hlow].
  - replace (Z.pos m * (n * 2 ^ (- E)) * 2 ^ 53)
      with (Z.pos m * n * 2 ^ 53 * 2 ^ (- E)) by ring.
    replace (t * (2 ^ 53 - 1) * (2 ^ (- e) * 2 ^ (- E)))
      with (t * (2 ^ 53 - 1) * 2 ^ (- e) * 2 ^ (- E)) by ring.
    apply Z.mul_le_mono_nonneg_r; [lia|exact Hhigh].
Qed.

Section Contract.

Variable random : nat -> Number.t.
Hypothesis contract : Randomizer.unit_interval random.

(** A draw of [Math.random] is a zero, or a positive Number below 1:
    its mantissa is below 2^53 and its exponent at most -53. *)
Lemma unit_interval_cases (k : nat) :
  (exists s : bool, random k = S754_zero s) \/
  (exists (m : positive) (e : Z),
     random k = S754_finite false m e /\ e <= -53 /\ Z.pos m < 2 ^ 53).
Proof.
  destruct (contract k) as (Hvalid & Hge & Hlt).
  destruct (random k) as [s|s| |s m e].
  - left. now exists s.
  - destruct s; discriminate.
  - discriminate.
  - right. destruct s; [discriminate|]. exists m, e. split; [reflexivity|].
    cbn [valid_binary] in Hvalid. unfold bounded in Hvalid.
    apply andb_prop in Hvalid as [Hcanonical _].
    unfold canonical_mantissa in Hcanonical.
    apply Z.eqb_eq in Hcanonical.
    unfold Number.prec, Number.emax in Hcanonical.
    rewrite fexp_max in Hcanonical.
    pose proof (digits2_pos_bounds m) as Hd.
    set (d := Z.pos (digits2_pos m)) in *.
    assert (Hd0 : 0 < d) by (unfold d; lia).
    assert (Hd53 : d <= 53) by lia.
    assert (Hm : Z.pos m < 2 ^ 53).
    { eapply Z.lt_le_trans; [apply Hd|]. apply Z.pow_le_mono_r; lia. }
    split; [|exact Hm].
    unfold Number.lt, SFltb in Hlt.
    change (Number.of_Z 1) with (S754_finite false 4503599627370496 (-52))
      in Hlt.
    cbn [SFcompare] in Hlt.
    destruct (Z.compare_spec e (-52)) as [Heq|Hless|Hmore];
      [|lia|discriminate].
    exfalso. subst e.
    destruct (Pos.compare_cont Eq m 4503599627370496) eqn:Hcmp;
      try discriminate.
    assert (Hbelow : (m < 4503599627370496)%positive) by exact Hcmp.
    assert (Hd52 : 53 <= d) by (clear - Hcanonical; lia).
    assert (Hpow : 2 ^ 52 <= 2 ^ (d - 1))
      by (apply Z.pow_le_mono_r; clear - Hd52; lia).
    apply Pos2Z.pos_lt_pos in Hbelow.
    change (Z.pos 4503599627370496) with (2 ^ 52) in Hbelow.
    clear - Hbelow Hpow Hd. lia.
Qed.

(** Under the contract of [Math.random] the subscript drawn for [i] is
    an element between 0 and [i], as long as [i] is a subscript of a
    JavaScript array. *)
Lemma draw_inside (k i : nat) :
  Z.of_nat i < 2 ^ 32 ->
  exists j : nat,
    Randomizer.index (Randomizer.draw random k i) = Some j /\ (j <= i)%nat.
Proof.
  intros Hi. unfold Randomizer.draw, Number.of_nat.
  set (n := Z.of_nat (i + 1)).
  assert (Hn : 0 < n <= 2 ^ 32) by (unfold n; lia).
  destruct (unit_interval_cases k) as [[s ->]|(m & e & -> & He & Hm)].
  - exists 0%nat. split; [|lia].
    destruct (RoundingFacts.binary_normalize_exact n ltac:(lia))
      as (M & E & Heq & _).
    unfold Number.mul, Number.of_Z, Number.prec, Number.emax.
    rewrite Heq. reflexivity.
  - destruct (mul_floor_bracket m e n 0 n) as (z & Hz & Hrange);
      try lia.
    + (* the draw is at most 1 - 2^-53 *)
      assert (H53 : 2 ^ 53 <= 2 ^ (- e)) by (apply Z.pow_le_mono_r; lia).
      assert (H1 : Z.pos m * 2 ^ 53 <= (2 ^ 53 - 1) * 2 ^ (- e)).
      { apply Z.mul_le_mono_nonneg; lia. }
      replace (Z.pos m * n * 2 ^ 53) with (n * (Z.pos m * 2 ^ 53)) by ring.
      replace (n * (2 ^ 53 - 1) * 2 ^ (- e))
        with (n * ((2 ^ 53 - 1) * 2 ^ (- e))) by ring.
      apply Z.mul_le_mono_nonneg_l; lia.
    + exists (Z.to_nat z). split; [exact Hz|]. unfold n in Hrange. lia.
Qed.

End Contract.

End FloorFacts.

(** ** The randomizer *)

Module RandomizerFacts.

Import Randomizer.

Section Facts.

Context {A : Type}.
Variable random : nat -> Number.t.

(** Where [swap] has a result, both subscripts name elements of the
    array, and the two elements are exchanged. *)
Lemma swap_inv (l l' : list A) (i : nat) (subscript : Number.t) :
  swap l i subscript = Some l' ->
  exists (j : nat) (x y : A),
    index subscript = Some j /\ l !! i = Some x /\ l !! j = Some y /\
    l' = <[j := x]> (<[i := y]> l).
Proof.
  unfold swap. destruct (index subscript) as [j|]; [|discriminate].
  destruct (l !! j) as [y|] eqn:Hy; [|discriminate].
  destruct (l !! i) as [x|] eqn:Hx; [|discriminate].
  intros [= <-]. now exists j, x, y.
Qed.

(** Inside the array, [swap] exchanges the two elements. *)
Lemma swap_inside (l : list A) (i j : nat) (subscript : Number.t) :
  index subscript = Some j ->
  (i < length l)%nat -> (j <= i)%nat ->
  exists x y, l !! i = Some x /\ l !! j = Some y /\
              swap l i subscript = Some (<[j := x]> (<[i := y]> l)).
Proof.
  intros Hsub Hi Hj.
  destruct (lookup_lt_is_Some_2 l i Hi) as [x Hx].
  destruct (lookup_lt_is_Some_2 l j ltac:(lia)) as [y Hy].
  exists x, y. unfold swap. rewrite Hsub, Hx, Hy. auto.
Qed.

Lemma swap_Permutation (l l' : list A) (i : nat) (subscript : Number.t) :
  swap l i subscript = Some l' -> l' ≡ₚ l.
Proof.
  intros Hswap. apply swap_inv in Hswap as (j & x & y & _ & Hx & Hy & ->).
  now apply Permutation_insert_swap.
Qed.

Lemma swap_length (l l' : list A) (i : nat) (subscript : Number.t) :
  swap l i subscript = Some l' -> length l' = length l.
Proof. intros Hswap. eapply Permutation_length, swap_Permutation, Hswap. Qed.

(** What the loop returns is a permutation of what it was given. *)
Lemma shuffle_loop_Permutation (i : nat) (l : list A) (k : nat)
    (out : list A) (k' : nat) :
  shuffle_loop random i l k = Some (out, k') -> out ≡ₚ l.
Proof.
  revert l k. induction i as [|i IH]; intros l k; simpl.
  - now intros [= <- _].
  - destruct (swap l (S i) (draw random k (S i))) as [l1|] eqn:Hswap;
      [|discriminate].
    intros Hloop. rewrite (IH _ _ Hloop). eapply swap_Permutation, Hswap.
Qed.

Lemma shuffle_loop_calls (i : nat) (l : list A) (k : nat)
    (out : list A) (k' : nat) :
  shuffle_loop random i l k = Some (out, k') -> k' = (k + i)%nat.
Proof.
  revert l k. induction i as [|i IH]; intros l k; simpl.
  - intros [= _ <-]. lia.
  - destruct (swap l (S i) (draw random k (S i))) as [l1|]; [|discriminate].
    intros Hloop. rewrite (IH _ _ Hloop). lia.
Qed.

(** The loop in the store writes the array behind [result] only, and
    leaves there what the loop on the contents computes. *)
Lemma shuffle_in_place_spec (i : nat) (result : ref)
    (st : gmap ref (list A)) (v : list A) (k : nat) :
  st !! result = Some v ->
  shuffle_in_place random i result st k =
    match shuffle_loop random i v k with
    | Some (out, k') => Some (<[result := out]> st, k')
    | None => None
    end.
Proof.
  revert st v k. induction i as [|i IH]; intros st v k Hv; simpl.
  - now rewrite insert_id.
  - rewrite (lookup_total_correct _ _ _ Hv).
    destruct (swap v (S i) (draw random k (S i))) as [v1|]; [|reflexivity].
    rewrite (IH _ v1) by apply lookup_insert_eq.
    destruct (shuffle_loop random i v1 (S k)) as [[out k']|]; [|reflexivity].
    now rewrite insert_insert_eq.
Qed.

Section Contract.

Hypothesis contract : unit_interval random.

(** Under the contract of [Math.random] a round of the loop exchanges
    the element at [i] with one at or before [i]. *)
Lemma shuffle_loop_round (i : nat) (l : list A) (k : nat) :
  (S i < length l)%nat -> Z.of_nat (length l) <= 2 ^ 32 ->
  exists (j : nat) (x y : A),
    (j <= S i)%nat /\ l !! S i = Some x /\ l !! j = Some y /\
    shuffle_loop random (S i) l k =
      shuffle_loop random i (<[j := x]> (<[S i := y]> l)) (S k).
Proof.
  intros Hi Hlen.
  destruct (FloorFacts.draw_inside random contract k (S i) ltac:(lia))
    as (j & Hsub & Hj).
  destruct (swap_inside l (S i) j _ Hsub Hi Hj) as (x & y & Hx & Hy & Hswap).
  exists j, x, y. simpl. now rewrite Hswap.
Qed.

(** So the loop has a result for every array of JavaScript: all its
    subscripts stay inside the array. *)
Lemma shuffle_loop_defined (i : nat) (l : list A) (k : nat) :
  (i <= length l - 1)%nat -> Z.of_nat (length l) <= 2 ^ 32 ->
  exists out : list A, shuffle_loop random i l k = Some (out, (k + i)%nat).
Proof.
  revert l k. induction i as [|i IH]; intros l k Hi Hlen.
  - exists l. simpl. do 2 f_equal. lia.
  - destruct (shuffle_loop_round i l k ltac:(lia) Hlen)
      as (j & x & y & Hj & Hx & Hy & ->).
    destruct (IH (<[j := x]> (<[S i := y]> l)) (S k)) as [out Hout].
    + rewrite !length_insert. lia.
    + rewrite !length_insert. exact Hlen.
    + exists out. rewrite Hout. do 2 f_equal. lia.
Qed.

End Contract.

End Facts.

End RandomizerFacts.

(** C6. With [Math.random] keeping to its contract, [shuffle] returns a
    new array holding a permutation of the input (same elements with the
    same multiplicities, hence the same length), after one draw for
    each element but the first; every subscript drawn is inside the
    array; every array that was in the store, the input among them,
    keeps its contents; an input of at most one element comes back as
    it is. The bound is the size limit of JavaScript arrays. *)
Theorem shuffle_permutes_a_fresh_copy {A : Type} (random : nat -> Number.t)
    (array : Randomizer.ref) (st : gmap Randomizer.ref (list A))
    (input : list A) (k : nat) :
  Randomizer.unit_interval random ->
  Z.of_nat (length input) < 2 ^ 32 ->
  st !! array = Some input ->
  exists (result : Randomizer.ref) (st' : gmap Randomizer.ref (list A))
         (k' : nat) (output : list A),
    Randomizer.shuffle random array st k = Some (result, st', k') /\
    st !! result = None /\
    result <> array /\
    (forall r, r <> result -> st' !! r = st !! r) /\
    st' !! array = Some input /\
    st' !! result = Some output /\
    Randomizer.shuffled random input k = Some (output, k') /\
    k' = (k + (length input - 1))%nat /\
    output ≡ₚ input /\
    length output = length input /\
    (forall x, x ∈ output <-> x ∈ input) /\
    ((length input <= 1)%nat -> output = input).
Proof.
  intros contract Hsize Harray.
  set (result := fresh (dom st)).
  assert (Hfresh : st !! result = None).
  { apply not_elem_of_dom. apply is_fresh. }
  assert (Hne : result <> array) by congruence.
  destruct (RandomizerFacts.shuffle_loop_defined random contract
              (length input - 1) input k ltac:(lia) ltac:(lia))
    as [output Hloop].
  pose proof (RandomizerFacts.shuffle_loop_Permutation random _ _ _ _ _ Hloop)
    as Hperm.
  unfold Randomizer.shuffle. fold result.
  rewrite (lookup_total_correct _ _ _ Harray).
  assert (Hcopy : <[result := input]> st !! result = Some input)
    by apply lookup_insert_eq.
  rewrite (lookup_total_correct _ _ _ Hcopy).
  rewrite (RandomizerFacts.shuffle_in_place_spec random _ _ _ input _ Hcopy).
  rewrite Hloop, insert_insert_eq.
  eexists result, _, _, output. split; [reflexivity|].
  repeat split; auto.
  - intros r Hr. now rewrite lookup_insert_ne.
  - now rewrite lookup_insert_ne.
  - apply lookup_insert_eq.
  - now rewrite Hperm.
  - now rewrite Hperm.
  - now rewrite Hperm.
  - intros Hlen.
    destruct input as [|x [|y input]]; simpl in *; [| |lia];
      now injection Hloop as <-.
Qed.

(** Three questions shuffled with draws of one half. *)
Lemma shuffle_permutes_three :
  exists (result : Randomizer.ref) (st' : gmap Randomizer.ref (list nat))
         (k' : nat) (output : list nat),
    Randomizer.shuffle Samples.halves 7%nat {[ 7%nat := [1; 2; 3]%nat ]} 0
      = Some (result, st', k') /\
    ({[ 7%nat := [1; 2; 3]%nat ]} : gmap Randomizer.ref (list nat)) !! result
      = None /\
    result <> 7%nat /\
    (forall r, r <> result ->
       st' !! r =
       ({[ 7%nat := [1; 2; 3]%nat ]} : gmap Randomizer.ref (list nat)) !! r) /\
    st' !! 7%nat = Some [1; 2; 3]%nat /\
    st' !! result = Some output /\
    Randomizer.shuffled Samples.halves [1; 2; 3]%nat 0 = Some (output, k') /\
    k' = 2%nat /\
    output ≡ₚ [1; 2; 3]%nat /\
    length output = 3%nat /\
    (forall x, x ∈ output <-> x ∈ [1; 2; 3]%nat) /\
    ((3 <= 1)%nat -> output = [1; 2; 3]%nat).
Proof.
  apply (shuffle_permutes_a_fresh_copy Samples.halves 7%nat
           {[ 7%nat := [1; 2; 3]%nat ]} [1; 2; 3]%nat 0).
  - intros k. vm_compute. auto.
  - vm_compute. reflexivity.
  - reflexivity.
Defined.

(** ** The input port *)

Module PortFacts.

Import Input Port.

Lemma foldl_console_log (lines : list string) (w : World) :
  foldl (fun w line => console_log line w) w lines =
    {| input := input w; output := output w ++ (Log <$> lines) |}.
Proof.
  revert w. induction lines as [|l lines IH]; intros w; simpl.
  - rewrite app_nil_r. now destruct w.
  - rewrite IH. simpl. now rewrite <- app_assoc.
Qed.

(** [select] displays the menu, then runs its loop on the lines. *)
Lemma select_unfold (question : string) (options : list string) (w : World) :
  select question options w =
    select_loop (length (input w)) options
      {| input := input w; output := output w ++ menu question options |}.
Proof.
  unfold select. rewrite foldl_console_log. simpl.
  rewrite <- app_assoc. simpl. unfold menu.
  now rewrite fmap_imap.
Qed.

Lemma accepted_in_range (options : list string) (line : string) :
  accepted options line =
    match choice line with
    | Some i => in_range i options
    | None => false
    end.
Proof.
  unfold accepted, choice, in_range.
  destruct (Str.parseInt (Str.trim line)) as [n|]; simpl; [|reflexivity].
  destruct (1 <=? n)%Z eqn:H1, (0 <=? n - 1)%Z eqn:H2,
           (n <=? Z.of_nat (length options))%Z eqn:H3,
           (n - 1 <? Z.of_nat (length options))%Z eqn:H4;
    simpl; try reflexivity; lia.
Qed.

(** A round on a rejected line complains and goes on with the next. *)
Lemma select_loop_rejects (fuel : nat) (options : list string)
    (line : string) (rest : list string) (out : list event) :
  accepted options line = false ->
  select_loop (S fuel) options {| input := line :: rest; output := out |} =
    select_loop fuel options
      {| input := rest;
         output := out ++ [Ask query; Log (complaint options)] |}.
Proof.
  intros Hrej. rewrite accepted_in_range in Hrej. unfold choice in Hrej.
  simpl. unfold console_log. simpl.
  rewrite <- app_assoc. simpl.
  destruct (Str.parseInt (Str.trim line)) as [n|]; simpl in *;
    [rewrite Hrej|]; reflexivity.
Qed.

(** A round on an accepted line resolves with its index. *)
Lemma select_loop_accepts (fuel : nat) (options : list string)
    (line : string) (rest : list string) (out : list event) (i : Z) :
  choice line = Some i ->
  in_range i options = true ->
  select_loop (S fuel) options {| input := line :: rest; output := out |} =
    Some ({| index := i; value := get options i |},
          {| input := rest; output := out ++ [Ask query] |}).
Proof.
  unfold choice. intros Hi Hin. simpl. rewrite Hi, Hin. reflexivity.
Qed.

(** The loop skips a prefix of rejected lines and stops at the first
    accepted one. *)
Lemma select_loop_run (fuel : nat) (options rejected : list string)
    (line : string) (rest : list string) (out : list event) (i : Z) :
  (length rejected < fuel)%nat ->
  Forall (fun l => accepted options l = false) rejected ->
  choice line = Some i ->
  in_range i options = true ->
  select_loop fuel options
    {| input := rejected ++ line :: rest; output := out |} =
    Some ({| index := i; value := get options i |},
          {| input := rest;
             output := out ++ reprompts options rejected ++ [Ask query] |}).
Proof.
  intros Hfuel Hrej Hi Hin. revert fuel out Hfuel.
  induction Hrej as [|l rejected Hl Hrej IH]; intros fuel out Hfuel.
  - destruct fuel as [|fuel]; [simpl in Hfuel; lia|].
    now apply select_loop_accepts.
  - destruct fuel as [|fuel]; [simpl in Hfuel; lia|].
    simpl app. rewrite select_loop_rejects by assumption.
    rewrite IH by (simpl in Hfuel; lia).
    unfold reprompts. simpl. now rewrite <- app_assoc.
Qed.

(** Whenever the loop resolves, it has done so. *)
Lemma select_loop_inv (fuel : nat) (options : list string) (w : World)
    (sel : Selection) (w' : World) :
  select_loop fuel options w = Some (sel, w') ->
  exists rejected line,
    input w = rejected ++ line :: input w' /\
    Forall (fun l => accepted options l = false) rejected /\
    choice line = Some (index sel) /\
    in_range (index sel) options = true /\
    value sel = get options (index sel) /\
    output w' = output w ++ reprompts options rejected ++ [Ask query].
Proof.
  revert w. induction fuel as [|fuel IH]; intros [lines out]; [discriminate|].
  destruct lines as [|line rest]; [discriminate|].
  destruct (accepted options line) eqn:Hacc.
  - rewrite accepted_in_range in Hacc.
    destruct (choice line) as [i|] eqn:Hi; [|discriminate].
    rewrite (select_loop_accepts _ _ _ _ _ i Hi Hacc).
    intros [= <- <-]. exists [], line. simpl. repeat split; auto.
  - rewrite select_loop_rejects by assumption.
    intros Hrun. destruct (IH _ Hrun) as (rejected & l & Hin & Hrej & Hc & Hr & Hv & Hout).
    exists (line :: rejected), l. simpl in *. repeat split; auto.
    + now rewrite Hin.
    + rewrite Hout. unfold reprompts. simpl. now rewrite <- app_assoc.
Qed.

Lemma in_range_bounds (i : Z) (options : list string) :
  in_range i options = true <-> (0 <= i < Z.of_nat (length options))%Z.
Proof. unfold in_range. lia. Qed.

(** An index [select] resolves with is an index of the options. *)
Lemma select_index_in_range (question : string) (options : list string)
    (w : World) (sel : Selection) (w' : World) :
  select question options w = Some (sel, w') ->
  (0 <= index sel < Z.of_nat (length options))%Z.
Proof.
  rewrite select_unfold. intros Hrun.
  apply select_loop_inv in Hrun as (_ & _ & _ & _ & _ & Hr & _).
  now apply in_range_bounds.
Qed.

End PortFacts.

(** ** Numerals *)

Module StrFacts.

Local Open Scope string_scope.

(** The characters [0] to [9]. *)
Definition is_digit (c : ascii) : Prop := is_Some (Str.digit c).

Lemma skip_one_digit (c : ascii) (s : string) :
  is_digit c -> Str.skip_one (String c s) = None.
Proof.
  intros [v Hv].
  destruct c as [[] [] [] [] [] [] [] []]; vm_compute in Hv;
    try discriminate Hv; reflexivity.
Qed.

Lemma skip_one_end_digit (c : ascii) (s : string) :
  is_digit c -> Str.skip_one_end (String c s) = None.
Proof.
  intros [v Hv].
  destruct c as [[] [] [] [] [] [] [] []]; vm_compute in Hv;
    try discriminate Hv; reflexivity.
Qed.

(** A string that starts with a digit has no white space to skip. *)
Lemma trimStart_digit (c : ascii) (s : string) :
  is_digit c -> Str.trimStart (String c s) = String c s.
Proof.
  intros Hc. unfold Str.trimStart. cbn [String.length Str.skip_leading].
  now rewrite skip_one_digit.
Qed.

Lemma rev_involutive (s : string) : Str.rev (Str.rev s) = s.
Proof.
  unfold Str.rev.
  now rewrite list_ascii_of_string_of_list_ascii, List.rev_involutive,
    string_of_list_ascii_of_string.
Qed.

Lemma trimEnd_digits (s : string) :
  Forall is_digit (list_ascii_of_string s) -> Str.trimEnd s = s.
Proof.
  intros Hall. unfold Str.trimEnd.
  assert (Hrev : Forall is_digit (list_ascii_of_string (Str.rev s))).
  { unfold Str.rev. rewrite list_ascii_of_string_of_list_ascii.
    now apply List.Forall_rev. }
  rewrite <- (rev_involutive s) at 3. f_equal.
  destruct (Str.rev s) as [|c r] eqn:Hr.
  - now destruct (String.length s).
  - destruct (String.length s) as [|fuel]; [reflexivity|].
    cbn [Str.skip_trailing]. rewrite skip_one_end_digit; [reflexivity|].
    simpl in Hrev. now inversion Hrev.
Qed.

(** A numeral is made of digits, and is not empty. *)
Lemma string_of_uint_digits (d : Decimal.uint) :
  Forall is_digit (list_ascii_of_string (NilEmpty.string_of_uint d)).
Proof.
  induction d; simpl; constructor; try assumption;
    (eexists; vm_compute; reflexivity).
Qed.

Lemma trim_numeral (d : Decimal.uint) :
  Str.trim (NilEmpty.string_of_uint d) = NilEmpty.string_of_uint d.
Proof.
  unfold Str.trim.
  assert (Hstart : Str.trimStart (NilEmpty.string_of_uint d)
                   = NilEmpty.string_of_uint d).
  { pose proof (string_of_uint_digits d) as Hall.
    destruct (NilEmpty.string_of_uint d) as [|c s]; [reflexivity|].
    apply trimStart_digit. simpl in Hall. now inversion Hall. }
  rewrite Hstart. apply trimEnd_digits, string_of_uint_digits.
Qed.

(** The digits of a numeral, read from an accumulator. *)
Lemma digits_numeral (d : Decimal.uint) (acc : nat) :
  Str.digits (NilEmpty.string_of_uint d) true (Z.of_nat acc)
    = Some (Z.of_nat (Nat.of_uint_acc d acc)).
Proof.
  revert acc.
  induction d as [|d IH|d IH|d IH|d IH|d IH|d IH|d IH|d IH|d IH|d IH];
    intros acc; [reflexivity|..];
    cbn [NilEmpty.string_of_uint Str.digits Nat.of_uint_acc];
    match goal with
    | |- context [Str.digit ?c] =>
        let v := eval vm_compute in (Str.digit c) in
        change (Str.digit c) with v
    end;
    cbv iota beta; rewrite <- IH; f_equal;
    rewrite ?Nat2Z.inj_succ, Nat.tail_mul_spec, Nat2Z.inj_mul; simpl Z.of_nat; lia.
Qed.

(** [parseInt] reads a numeral back. *)
Lemma parseInt_of_nat (n : nat) : Str.parseInt (Str.of_nat n) = Some (Z.of_nat n).
Proof.
  unfold Str.of_nat.
  pose proof (DecimalNat.Unsigned.of_to n) as Hback.
  assert (Hnonnil : Nat.to_uint n <> Decimal.Nil).
  { rewrite <- (DecimalNat.Unsigned.of_to n) at 1.
    rewrite DecimalNat.Unsigned.to_of. apply DecimalFacts.unorm_nonnil. }
  unfold Nat.of_uint in Hback.
  destruct (Nat.to_uint n) as [|d|d|d|d|d|d|d|d|d|d] eqn:Hd;
    [congruence|..];
    unfold Str.parseInt;
    cbn [NilEmpty.string_of_uint];
    (rewrite trimStart_digit by (eexists; vm_compute; reflexivity));
    cbn [Str.digits];
    match goal with
    | |- context [Str.digit ?c] =>
        let v := eval vm_compute in (Str.digit c) in
        change (Str.digit c) with v
    end;
    cbv iota beta;
    clear Hd; subst n; cbn [Nat.of_uint_acc];
    rewrite <- digits_numeral; f_equal.
Qed.

(** The numeral of [i + 1] stands for the index [i]. *)
Lemma choice_numeral (i : nat) :
  Port.choice (Str.of_nat (S i)) = Some (Z.of_nat i).
Proof.
  unfold Port.choice, Str.of_nat. rewrite trim_numeral.
  fold (Str.of_nat (S i)). rewrite parseInt_of_nat. simpl. f_equal. lia.
Qed.

(** Typing the number of an option selects it at once. *)
Lemma select_numeral (question : string) (options : list string) (i : nat)
    (rest : list string) (out : list Input.event) :
  (i < length options)%nat ->
  Input.select question options
    {| Input.input := Str.of_nat (S i) :: rest; Input.output := out |} =
    Some ({| Input.index := Z.of_nat i; Input.value := options !! i |},
          {| Input.input := rest;
             Input.output :=
               (out ++ Port.menu question options ++ [Input.Ask Port.query])%list |}).
Proof.
  intros Hi. rewrite PortFacts.select_unfold.
  cbn [Input.input Input.output length].
  assert (Hr : Input.in_range (Z.of_nat i) options = true)
    by (apply PortFacts.in_range_bounds; lia).
  rewrite (PortFacts.select_loop_accepts _ _ _ _ _ _ (choice_numeral i) Hr).
  do 3 f_equal.
  - unfold Input.get. destruct (Z.of_nat i <? 0)%Z eqn:Hneg; [lia|].
    now rewrite Nat2Z.id.
  - now rewrite <- app_assoc.
Qed.

(** The lines accepted for no option at all: none. *)
Lemma accepted_nil (line : string) : Port.accepted [] line = false.
Proof.
  unfold Port.accepted.
  destruct (Str.parseInt (Str.trim line)) as [n|]; [|reflexivity].
  cbn [length Z.of_nat].
  destruct (1 <=? n)%Z eqn:Hlow; [|reflexivity].
  apply Z.leb_le in Hlow. apply Z.leb_gt. lia.
Qed.

Lemma accepted_numeral (options : list string) (i : nat) :
  (i < length options)%nat -> Port.accepted options (Str.of_nat (S i)) = true.
Proof.
  intros Hi. rewrite PortFacts.accepted_in_range, choice_numeral.
  apply PortFacts.in_range_bounds. lia.
Qed.

End StrFacts.

Import Input Port.

Local Open Scope string_scope.
Local Open Scope list_scope.

(** C7. [select] resolves exactly when the lines to come start with
    lines that are not an integer from 1 to the number of options, each
    answered by the complaint and a new query, followed by a line that is
    one; it then returns that integer minus one, an index of the options.
    Some line is accepted exactly when there is an option, and every
    index of the options is returned for the numeral of its successor.
    With three options and the lines abc, 9 and 2 it asks again twice and
    returns index 1. *)
Theorem select_reprompts_until_accepted :
  (forall (question : string) (options : list string) (w : World)
          (sel : Selection) (w' : World),
     select question options w = Some (sel, w') <->
     exists (rejected : list string) (line : string),
       input w = rejected ++ line :: input w' /\
       Forall (fun l => accepted options l = false) rejected /\
       accepted options line = true /\
       Str.parseInt (Str.trim line) = Some (index sel + 1)%Z /\
       (0 <= index sel < Z.of_nat (length options))%Z /\
       value sel = options !! Z.to_nat (index sel) /\
       output w' =
         output w ++ menu question options
           ++ reprompts options rejected ++ [Ask query]) /\
  (forall options : list string,
     options <> [] <-> exists line : string, accepted options line = true) /\
  (forall (question : string) (options : list string) (i : nat)
          (rest : list string) (out : list event),
     (i < length options)%nat ->
     select question options
       {| input := Str.of_nat (S i) :: rest; output := out |} =
       Some ({| index := Z.of_nat i; value := options !! i |},
             {| input := rest;
                output := out ++ menu question options ++ [Ask query] |})) /\
  select "Pick" ["a"; "b"; "c"]
    {| input := ["abc"; "9"; "2"]; output := [] |} =
    Some ({| index := 1; value := Some "b" |},
          {| input := [];
             output :=
               menu "Pick" ["a"; "b"; "c"]
                 ++ [Ask query; Log (complaint ["a"; "b"; "c"]);
                     Ask query; Log (complaint ["a"; "b"; "c"]);
                     Ask query] |}).
Proof.
  split; [|split; [|split; [exact StrFacts.select_numeral|reflexivity]]].
  2: { intros options. split.
       - intros Hsome. exists (Str.of_nat 1).
         apply StrFacts.accepted_numeral.
         destruct options; [congruence|simpl; lia].
       - intros [line Hline] ->.
         rewrite StrFacts.accepted_nil in Hline. discriminate. }
  intros question options w sel w'. rewrite PortFacts.select_unfold. split.
  - intros Hrun. apply PortFacts.select_loop_inv in Hrun.
    destruct Hrun as (rejected & line & Hin & Hrej & Hc & Hr & Hv & Hout).
    simpl in *. exists rejected, line.
    assert (Hb := proj1 (PortFacts.in_range_bounds _ _) Hr).
    repeat split; auto; try lia.
    + rewrite PortFacts.accepted_in_range, Hc. exact Hr.
    + unfold choice in Hc.
      destruct (Str.parseInt (Str.trim line)) as [n|]; simpl in Hc;
        [|discriminate].
      injection Hc as Hc. f_equal. lia.
    + rewrite Hv. unfold get.
      destruct (index sel <? 0)%Z eqn:Hneg; [lia|reflexivity].
    + rewrite Hout. now rewrite <- app_assoc.
  - intros (rejected & line & Hin & Hrej & Hacc & Hparse & Hb & Hv & Hout).
    rewrite Hin.
    assert (Hc : choice line = Some (index sel)).
    { unfold choice. rewrite Hparse. simpl. f_equal. lia. }
    assert (Hr : in_range (index sel) options = true)
      by now apply PortFacts.in_range_bounds.
    rewrite (PortFacts.select_loop_run _ _ _ _ _ _ (index sel));
      [|rewrite length_app; simpl; lia|assumption..].
    destruct sel as [i v], w' as [rest out]. simpl in *.
    do 3 f_equal.
    + rewrite Hv. unfold get.
      destruct (i <? 0)%Z eqn:Hneg; [lia|reflexivity].
    + rewrite Hout. now rewrite <- app_assoc.
Qed.

(** The conversation of the specification, read back from the transcript. *)
Lemma select_reprompts_twice :
  exists (rejected : list string) (line : string),
    ["abc"; "9"; "2"] = rejected ++ [line] /\
    Forall (fun l => accepted ["a"; "b"; "c"] l = false) rejected /\
    accepted ["a"; "b"; "c"] line = true /\
    Str.parseInt (Str.trim line) = Some 2%Z /\
    length rejected = 2%nat.
Proof.
  destruct (proj1 (proj1 select_reprompts_until_accepted _ _ _ _ _)
              (proj2 (proj2 (proj2 select_reprompts_until_accepted))))
    as (rejected & line & Hin & Hrej & Hacc & Hparse & _ & _ & Hout).
  exists rejected, line. simpl in Hin, Hparse.
  repeat split; auto.
  apply (f_equal (@length string)) in Hin. rewrite length_app in Hin.
  simpl in Hin. lia.
Defined.

(** C10. A first line whose integer prefix, once trimmed, is from 1 to
    the number of options is accepted at once, whatever follows the
    digits: [select] asks once, complains never, and returns that integer
    minus one. With three options the line 2x gives index 1. *)
Theorem select_accepts_integer_prefix :
  (forall (question : string) (options : list string) (line : string)
          (rest : list string) (out : list event) (n : Z),
     Str.parseInt (Str.trim line) = Some n ->
     (1 <= n <= Z.of_nat (length options))%Z ->
     select question options {| input := line :: rest; output := out |} =
       Some ({| index := n - 1; value := options !! Z.to_nat (n - 1) |},
             {| input := rest;
                output := out ++ menu question options ++ [Ask query] |})) /\
  Str.parseInt (Str.trim "2x") = Some 2%Z /\
  select "Pick" ["a"; "b"; "c"] {| input := ["2x"]; output := [] |} =
    Some ({| index := 1; value := Some "b" |},
          {| input := [];
             output := menu "Pick" ["a"; "b"; "c"] ++ [Ask query] |}).
Proof.
  split; [|split; reflexivity].
  intros question options line rest out n Hparse Hn.
  rewrite PortFacts.select_unfold. cbn [input output length].
  assert (Hc : choice line = Some (n - 1)%Z)
    by (unfold choice; now rewrite Hparse).
  assert (Hr : in_range (n - 1) options = true)
    by (apply PortFacts.in_range_bounds; lia).
  rewrite (PortFacts.select_loop_accepts _ _ _ _ _ _ Hc Hr).
  do 3 f_equal.
  - unfold get. destruct (n - 1 <? 0)%Z eqn:Hneg; [lia|reflexivity].
  - now rewrite <- app_assoc.
Qed.

Lemma select_accepts_2x :
  select "Pick" ["a"; "b"; "c"] {| input := ["2x"; "1"]; output := [] |} =
    Some ({| index := 1; value := Some "b" |},
          {| input := ["1"];
             output := menu "Pick" ["a"; "b"; "c"] ++ [Ask query] |}).
Proof.
  apply (proj1 select_accepts_integer_prefix "Pick" ["a"; "b"; "c"] "2x"
           ["1"] [] 2%Z); [reflexivity|simpl; lia].
Defined.

(** ** The quiz session *)

Module SessionFacts.

Import Session.

Lemma currentQuestion_in_progress (q : Quiz.t) :
  Quiz.isComplete q = false <-> is_Some (Quiz.currentQuestion q).
Proof.
  unfold Quiz.isComplete, Quiz.currentQuestion, Quiz.totalQuestions.
  rewrite lookup_lt_is_Some. rewrite Nat.leb_gt. reflexivity.
Qed.

Lemma currentQuestion_complete (q : Quiz.t) :
  Quiz.isComplete q = true <-> Quiz.currentQuestion q = None.
Proof.
  unfold Quiz.isComplete, Quiz.currentQuestion, Quiz.totalQuestions.
  rewrite lookup_ge_None. rewrite Nat.leb_le. reflexivity.
Qed.

(** What a call of [askQuestion] that resolves has done. *)
Lemma askQuestion_inv (q : Quiz.t) (w : Input.World) (isCorrect : bool)
    (q' : Quiz.t) (w' : Input.World) :
  Quiz.askQuestion q w = Some (isCorrect, q', w') ->
  (Quiz.currentQuestion q = None /\ isCorrect = false /\ q' = q /\ w' = w) \/
  (exists cq sel,
     Quiz.currentQuestion q = Some cq /\
     Input.select (Colors.bold (Question.question cq))
       (Question.options cq) w = Some (sel, w') /\
     Quiz.submitAnswer q cq (Input.index sel) = (isCorrect, q')).
Proof.
  unfold Quiz.askQuestion.
  destruct (Quiz.currentQuestion q) as [cq|] eqn:Hcq.
  - destruct (Input.select _ _ w) as [[sel w1]|] eqn:Hsel; [|discriminate].
    destruct (Quiz.submitAnswer q cq (Input.index sel)) as [b q1] eqn:Hsub.
    intros [= <- <- <-]. right. eauto.
  - intros [= <- <- <-]. left. auto.
Qed.

Lemma submitAnswer_invariant (q : Quiz.t) (cq : Question.t) (index : Z) :
  Quiz.currentQuestion q = Some cq ->
  invariant q ->
  invariant (Quiz.submitAnswer q cq index).2.
Proof.
  intros Hcq (Hscore & Hpos & Hlog).
  apply lookup_lt_Some in Hcq.
  unfold invariant, Quiz.submitAnswer. simpl.
  rewrite length_app. simpl.
  destruct (index =? Question.answer cq)%Z; repeat split; lia.
Qed.

Lemma submitAnswer_recorded (q : Quiz.t) (cq : Question.t) (index : Z) :
  Quiz.currentQuestion q = Some cq ->
  (0 <= index < Z.of_nat (length (Question.options cq)))%Z ->
  recorded q ->
  recorded (Quiz.submitAnswer q cq index).2.
Proof.
  intros Hcq Hindex Hrec. unfold recorded, Quiz.submitAnswer. simpl.
  rewrite (take_S_r _ _ _ Hcq).
  apply Forall2_app; [exact Hrec|].
  constructor; [|constructor]. exists index. split; [reflexivity|exact Hindex].
Qed.

Section Reachable.

Variable random : nat -> Number.t.

(** A new quiz holds what [shuffle] returned, and stands at its start. *)
Lemma constructor_inv (questions : list Question.t) (categoryName : string)
    (k : nat) (q : Quiz.t) (k' : nat) :
  Quiz.constructor random questions categoryName k = Some (q, k') ->
  exists shuffled : list Question.t,
    Randomizer.shuffled random questions k = Some (shuffled, k') /\
    q = {| Quiz.questions := shuffled;
           Quiz.categoryName := categoryName;
           Quiz.currentIndex := 0;
           Quiz.score := 0;
           Quiz.answers := [] |}.
Proof.
  unfold Quiz.constructor.
  destruct (Randomizer.shuffled random questions k) as [[shuffled k1]|];
    [|discriminate].
  intros [= <- <-]. now exists shuffled.
Qed.

(** With [Math.random] keeping to its contract there is a new quiz for
    every list that fits in an array. *)
Lemma constructor_defined (questions : list Question.t)
    (categoryName : string) (k : nat) :
  Randomizer.unit_interval random ->
  (Z.of_nat (length questions) < 2 ^ 32)%Z ->
  exists q : Quiz.t,
    Quiz.constructor random questions categoryName k
      = Some (q, (k + (length questions - 1))%nat).
Proof.
  intros contract Hsize.
  destruct (RandomizerFacts.shuffle_loop_defined random contract
              (length questions - 1) questions k ltac:(lia) ltac:(lia))
    as [shuffled Hloop].
  unfold Quiz.constructor, Randomizer.shuffled. rewrite Hloop. eauto.
Qed.

Lemma reachable_recorded (q : Quiz.t) : reachable random q -> recorded q.
Proof.
  induction 1 as [questions categoryName k q k' Hnew|q w b q' w' Hq IH Hask].
  - apply constructor_inv in Hnew as (shuffled & _ & ->).
    unfold recorded. simpl. constructor.
  - apply askQuestion_inv in Hask as [(_ & _ & -> & _)|(cq & sel & Hcq & Hsel & Hsub)];
      [exact IH|].
    replace q' with (Quiz.submitAnswer q cq (Input.index sel)).2
      by now rewrite Hsub.
    apply submitAnswer_recorded; auto.
    eapply PortFacts.select_index_in_range, Hsel.
Qed.

Lemma reachable_bounds (q : Quiz.t) :
  reachable random q ->
  (Quiz.score q <= Quiz.totalQuestions q)%nat /\
  (Quiz.currentIndex q <= Quiz.totalQuestions q)%nat.
Proof.
  intros Hreach. unfold Quiz.totalQuestions.
  enough (Hinv : invariant q) by (destruct Hinv as (? & ? & _); lia).
  induction Hreach as [questions categoryName k q k' Hnew|q w b q' w' Hq IH Hask].
  - apply constructor_inv in Hnew as (shuffled & _ & ->).
    unfold invariant. simpl. repeat split; lia.
  - apply askQuestion_inv in Hask
      as [(_ & _ & -> & _)|(cq & sel & Hcq & Hsel & Hsub)]; [exact IH|].
    replace q' with (Quiz.submitAnswer q cq (Input.index sel)).2
      by now rewrite Hsub.
    now apply submitAnswer_invariant.
Qed.

(** Asking once more keeps a sample run among the reachable sessions. *)
Lemma ask_reachable (run : option (Quiz.t * Input.World)) :
  (forall q w, run = Some (q, w) -> reachable random q) ->
  forall q w, Samples.ask run = Some (q, w) -> reachable random q.
Proof.
  intros Hrun q w. destruct run as [[q0 w0]|]; simpl; [|discriminate].
  destruct (Quiz.askQuestion q0 w0) as [[[b q1] w1]|] eqn:Hask; [|discriminate].
  intros [= <- <-]. eapply reachable_askQuestion; [|exact Hask].
  now apply (Hrun q0 w0).
Qed.

End Reachable.

(** The sample sessions are among the reachable ones. *)
Lemma empty_reachable : reachable Samples.halves Samples.empty.
Proof.
  now apply (reachable_constructor Samples.halves [] "Empty" 0
               Samples.empty 0).
Qed.

Lemma fresh_pair_reachable : reachable Samples.halves Samples.fresh_pair.
Proof.
  now apply (reachable_constructor Samples.halves
               [Samples.capital; Samples.planet] "General" 0
               Samples.fresh_pair 1).
Qed.

Lemma new_quiz_reachable (questions : list Question.t)
    (categoryName : string) (lines : list string)
    (q : Quiz.t) (w : Input.World) :
  Samples.new_quiz questions categoryName lines = Some (q, w) ->
  reachable Samples.halves q.
Proof.
  unfold Samples.new_quiz.
  destruct (Quiz.constructor Samples.halves questions categoryName 0)
    as [[q0 k0]|] eqn:Hnew; [|discriminate].
  intros [= <- _]. eapply reachable_constructor, Hnew.
Qed.

Lemma half_way_reachable (q : Quiz.t) (w : Input.World) :
  Samples.half_way = Some (q, w) -> reachable Samples.halves q.
Proof. apply ask_reachable. intros q0 w0. apply new_quiz_reachable. Qed.

Lemma finished_reachable (q : Quiz.t) (w : Input.World) :
  Samples.finished = Some (q, w) -> reachable Samples.halves q.
Proof. apply ask_reachable. exact half_way_reachable. Qed.

End SessionFacts.

Section SessionClaims.

Import Session.

Variable random : nat -> Number.t.

Local Open Scope string_scope.
Local Open Scope list_scope.
Local Open Scope nat_scope.

(** C1. In a session in progress, with current question [cq], an answer
    [index] among the options of [cq] appends one record to the log,
    correct exactly when [index] is the answer of [cq]; the score grows
    by one if the record is correct and stays otherwise; the position
    grows by one; and [askQuestion], when [select] resolves with [index],
    returns whether the answer was correct. Some line makes [select]
    resolve with [index]: typed next, it takes [askQuestion] through
    this very step. *)
Theorem askQuestion_records_one_answer (q : Quiz.t) :
  Quiz.isComplete q = false ->
  exists cq : Question.t,
    Quiz.currentQuestion q = Some cq /\
    forall index : Z,
      (0 <= index < Z.of_nat (length (Question.options cq)))%Z ->
      exists (isCorrect : bool) (q' : Quiz.t),
        Quiz.submitAnswer q cq index = (isCorrect, q') /\
        isCorrect = (index =? Question.answer cq)%Z /\
        Quiz.answers q' =
          Quiz.answers q
            ++ [ {| Answer.question := Question.question cq;
                    Answer.userAnswer := index;
                    Answer.correctAnswer := Question.answer cq;
                    Answer.isCorrect := isCorrect |} ] /\
        length (Quiz.answers q') = S (length (Quiz.answers q)) /\
        Quiz.score q' = (if isCorrect then Quiz.score q + 1 else Quiz.score q) /\
        Quiz.currentIndex q' = Quiz.currentIndex q + 1 /\
        Quiz.questions q' = Quiz.questions q /\
        Quiz.categoryName q' = Quiz.categoryName q /\
        (forall (w : Input.World) (sel : Input.Selection) (w' : Input.World),
           Input.select (Colors.bold (Question.question cq))
             (Question.options cq) w = Some (sel, w') ->
           Input.index sel = index ->
           Quiz.askQuestion q w = Some (isCorrect, q', w')) /\
        exists line : string,
          forall (rest : list string) (out : list Input.event),
          exists w' : Input.World,
            Quiz.askQuestion q
              {| Input.input := line :: rest; Input.output := out |} =
              Some (isCorrect, q', w') /\
            Input.input w' = rest.
Proof.
  intros Hprogress.
  apply SessionFacts.currentQuestion_in_progress in Hprogress as [cq Hcq].
  exists cq. split; [exact Hcq|]. intros index Hindex.
  eexists _, _. split; [reflexivity|]. simpl.
  repeat split.
  - rewrite length_app. simpl. lia.
  - destruct (index =? Question.answer cq)%Z; lia.
  - lia.
  - intros w sel w' Hsel <-. unfold Quiz.askQuestion.
    rewrite Hcq, Hsel. reflexivity.
  - exists (Str.of_nat (S (Z.to_nat index))). intros rest out.
    eexists. unfold Quiz.askQuestion.
    rewrite Hcq, StrFacts.select_numeral by lia.
    cbn [Input.index Input.input]. rewrite Z2Nat.id by lia.
    split; reflexivity.
Qed.

(** C2. Every reachable session, the new one and each one [askQuestion]
    leaves, has its score at most its position, its position at most the
    number of questions, and as many records as its position. *)
Theorem reachable_invariant (q : Quiz.t) :
  reachable random q -> invariant q.
Proof.
  induction 1 as [questions categoryName k q k' Hnew|q w b q' w' Hq IH Hask].
  - apply SessionFacts.constructor_inv in Hnew as (shuffled & _ & ->).
    unfold invariant. simpl. repeat split; lia.
  - apply SessionFacts.askQuestion_inv in Hask
      as [(_ & _ & -> & _)|(cq & sel & Hcq & Hsel & Hsub)]; [exact IH|].
    replace q' with (Quiz.submitAnswer q cq (Input.index sel)).2
      by now rewrite Hsub.
    now apply SessionFacts.submitAnswer_invariant.
Qed.

(** C9, as the code has it. On a complete session [askQuestion] returns
    [false] at once: it asks nothing, reads nothing and leaves the session
    as it is. *)
Theorem askQuestion_complete_returns_false (q : Quiz.t) (w : Input.World) :
  Quiz.isComplete q = true ->
  Quiz.askQuestion q w = Some (false, q, w).
Proof.
  intros Hcomplete.
  apply SessionFacts.currentQuestion_complete in Hcomplete.
  unfold Quiz.askQuestion. now rewrite Hcomplete.
Qed.

(** C4, at the failing input. Of an empty list the constructor makes a
    session without a draw of [Math.random]; for it [showResults]
    computes 0 / 0, which is NaN, and prints it as the percentage, with
    the message of the lowest tier. *)
Theorem showResults_empty_percentage_NaN (categoryName : string) (k : nat) :
  exists q : Quiz.t,
    Quiz.constructor random [] categoryName k = Some (q, k) /\
    Quiz.showResults q =
      Returns
        {| Quiz.category := categoryName;
           Quiz.scored := 0;
           Quiz.total := 0;
           Quiz.percentage := Number.NaN;
           Quiz.message := (tier_message needs_practice).1;
           Quiz.emoji := (tier_message needs_practice).2;
           Quiz.review := [] |}.
Proof. eexists. split; reflexivity. Qed.

End SessionClaims.

(** The new session of two questions is in progress; its first question
    answered with its first option gives a correct record. *)
Lemma askQuestion_records_first_answer :
  exists cq : Question.t,
    Quiz.currentQuestion Samples.fresh_pair = Some cq /\
    exists (isCorrect : bool) (q' : Quiz.t),
      Quiz.submitAnswer Samples.fresh_pair cq 0 = (isCorrect, q') /\
      isCorrect = true /\
      length (Quiz.answers q') = 1%nat /\
      Quiz.score q' = 1%nat /\
      Quiz.currentIndex q' = 1%nat /\
      exists w' : Input.World, Samples.half_way = Some (q', w').
Proof.
  destruct (askQuestion_records_one_answer Samples.fresh_pair eq_refl)
    as (cq & Hcq & Hstep).
  exists cq. split; [exact Hcq|].
  vm_compute in Hcq. injection Hcq as <-.
  destruct (Hstep 0%Z ltac:(simpl; lia))
    as (b & q' & Hsub & Hb & Hlog & Hlen & Hscore & Hpos & _ & _ & Hask & _).
  exists b, q'. subst b. repeat split; try assumption.
  eexists. unfold Samples.half_way.
  change (Samples.new_quiz _ _ _)
    with (Some (Samples.fresh_pair, Samples.typing ["1"; "3"]%string)).
  unfold Samples.ask.
  erewrite Hask; reflexivity.
Defined.

Lemma reachable_invariant_finished :
  exists q w, Samples.finished = Some (q, w) /\ Session.invariant q.
Proof.
  destruct Samples.finished as [[q w]|] eqn:Hrun;
    [|vm_compute in Hrun; discriminate].
  exists q, w. split; [reflexivity|].
  apply (reachable_invariant Samples.halves).
  now apply (SessionFacts.finished_reachable q w).
Defined.

(** C9, against the claim: a complete session on which [askQuestion]
    returns an ordinary result. *)
Lemma askQuestion_complete_is_absorbed :
  Quiz.constructor Samples.halves [] "Empty" 0
    = Some (Samples.empty, 0%nat) /\
  Quiz.isComplete Samples.empty = true /\
  Quiz.askQuestion Samples.empty (Samples.typing ["1"%string]) =
    Some (false, Samples.empty, Samples.typing ["1"%string]).
Proof. repeat split. Qed.

Lemma askQuestion_after_the_last_question :
  exists q w, Samples.finished = Some (q, w) /\
    Quiz.askQuestion q w = Some (false, q, w).
Proof.
  destruct Samples.finished as [[q w]|] eqn:Hrun;
    [|vm_compute in Hrun; discriminate].
  exists q, w. split; [reflexivity|].
  apply askQuestion_complete_returns_false.
  vm_compute in Hrun. injection Hrun as <- _. reflexivity.
Defined.

(** Among questions with distinct texts, [find] by text returns the
    question at the position looked for. *)
Lemma find_by_text (questions : list Question.t) (i : nat) (cq : Question.t) :
  NoDup (Question.question <$> questions) ->
  questions !! i = Some cq ->
  List.find
    (fun q' => String.eqb (Question.question q') (Question.question cq))
    questions = Some cq.
Proof.
  revert i. induction questions as [|q0 questions IH]; intros i Hnodup Hi;
    [discriminate|].
  simpl. destruct (String.eqb_spec (Question.question q0) (Question.question cq))
    as [Heq|Hne].
  - destruct i as [|i]; [now injection Hi as ->|].
    simpl in Hi, Hnodup. apply NoDup_cons in Hnodup as [Hnotin _].
    exfalso. apply Hnotin. rewrite Heq.
    apply list_elem_of_fmap. exists cq. split; [reflexivity|].
    eapply list_elem_of_lookup_2, Hi.
  - destruct i as [|i]; [injection Hi as ->; congruence|].
    simpl in Hi, Hnodup. apply NoDup_cons in Hnodup as [_ Hnodup].
    now apply (IH i).
Qed.

(** In a reachable session whose questions have distinct texts, the
    review looks up, for the record at position [i], the question at
    position [i]. *)
Lemma find_question_origin (random : nat -> Number.t) (q : Quiz.t) (i : nat)
    (a : Answer.t) :
  Session.reachable random q ->
  NoDup (Question.question <$> Quiz.questions q) ->
  Quiz.answers q !! i = Some a ->
  Quiz.find_question q a = Quiz.questions q !! i /\
  is_Some (Quiz.questions q !! i).
Proof.
  intros Hreach Hnodup Ha.
  apply SessionFacts.reachable_recorded in Hreach.
  unfold Session.recorded in Hreach.
  destruct (Forall2_lookup_l _ _ _ _ _ Hreach Ha) as (cq & Hcq & index & -> & _).
  apply lookup_take_Some in Hcq as [Hcq _].
  rewrite Hcq. split; [|eauto].
  unfold Quiz.find_question. simpl. now apply (find_by_text _ i).
Qed.

(** C8, at the failing input. Two questions share their text; the first
    is answered rightly (option a), the second wrongly (option d, where c
    is right). The review has one entry, for the second record, and shows
    the options b and a of the first question: [find] stops at the first
    question with the text. *)
Theorem review_shows_options_of_first_twin :
  exists (q : Quiz.t) (w : Input.World) (a : Answer.t),
    Samples.twins = Some (q, w) /\
    Quiz.questions q = [Samples.twin_a; Samples.twin_b] /\
    Quiz.answers q = [Session.record Samples.twin_a 0; a] /\
    a = Session.record Samples.twin_b 1 /\
    Answer.isCorrect a = false /\
    Quiz.questions q !! 1%nat = Some Samples.twin_b /\
    Input.get (Question.options Samples.twin_b) (Answer.userAnswer a)
      = Some "d"%string /\
    Input.get (Question.options Samples.twin_b) (Answer.correctAnswer a)
      = Some "c"%string /\
    Quiz.find_question q a = Some Samples.twin_a /\
    exists results : Quiz.Results,
      Quiz.showResults q = Returns results /\
      Quiz.review results =
        [ {| Quiz.number := 1;
             Quiz.asked := "Which one?"%string;
             Quiz.yours := Some "b"%string;
             Quiz.correct := Some "a"%string |} ].
Proof.
  eexists _, _, _. split; [vm_compute; reflexivity|].
  repeat split. eexists. split; vm_compute; reflexivity.
Qed.

(** C5, against the claim. Half way through two questions [progress] is
    50, where the fraction position / total is one half; and without
    questions it is NaN, not 0. *)
Lemma progress_is_not_the_fraction :
  exists (q : Quiz.t) (w : Input.World),
    Samples.half_way = Some (q, w) /\
    Quiz.currentIndex q = 1%nat /\
    Quiz.totalQuestions q = 2%nat /\
    Quiz.progress q = Number.of_Z 50 /\
    Number.div (Number.of_nat 1) (Number.of_nat 2)
      = S754_finite false (2 ^ 52) (-53) /\
    Quiz.progress q <> Number.div (Number.of_nat 1) (Number.of_nat 2) /\
    Quiz.constructor Samples.halves [] "Empty" 0
      = Some (Samples.empty, 0%nat) /\
    Quiz.totalQuestions Samples.empty = 0%nat /\
    Quiz.progress Samples.empty = Number.NaN /\
    Quiz.progress Samples.empty <> Number.of_Z 0.
Proof.
  eexists _, _. split; [vm_compute; reflexivity|].
  repeat split; try (vm_compute; reflexivity); vm_compute; discriminate.
Qed.

(** ** The results *)

Module ResultsFacts.

Import Session.

Local Open Scope string_scope.

(** What [showResults] prints when it returns. *)
Lemma showResults_inv (q : Quiz.t) (results : Quiz.Results) :
  Quiz.showResults q = Returns results ->
  Quiz.category results = Quiz.categoryName q /\
  Quiz.scored results = Quiz.score q /\
  Quiz.total results = Quiz.totalQuestions q /\
  Quiz.percentage results = Quiz.percent (Quiz.score q) (Quiz.totalQuestions q) /\
  (Quiz.message results, Quiz.emoji results)
    = Quiz.performance (Quiz.percentage results) /\
  Quiz.review_entries q 0
    (filter (fun a => Answer.isCorrect a = false) (Quiz.answers q))
    = Returns (Quiz.review results).
Proof.
  unfold Quiz.showResults.
  destruct (Quiz.performance _) as [message emoji] eqn:Hperf.
  destruct (Quiz.review_entries q 0 _) as [review|e]; [|discriminate].
  intros [= <-]. simpl. rewrite Hperf. repeat split.
Qed.

(** The review returns when every record has its question. *)
Lemma review_entries_returns (q : Quiz.t) (i : nat) (incorrect : list Answer.t) :
  Forall (fun a => is_Some (Quiz.find_question q a)) incorrect ->
  exists review, Quiz.review_entries q i incorrect = Returns review.
Proof.
  intros Hall. revert i.
  induction Hall as [|a incorrect [q' Hq'] _ IH]; intros i; simpl.
  - eauto.
  - unfold Quiz.review_entry. rewrite Hq'.
    destruct (IH (S i)) as [review ->]. eauto.
Qed.

Lemma find_some (questions : list Question.t) (text : string) (cq : Question.t) :
  cq ∈ questions -> Question.question cq = text ->
  is_Some
    (List.find (fun q' => String.eqb (Question.question q') text) questions).
Proof.
  intros Hin Htext. induction Hin as [cq questions|cq q0 questions Hin IH]; simpl.
  - rewrite Htext, String.eqb_refl. eauto.
  - destruct (String.eqb (Question.question q0) text); eauto.
Qed.

(** In a session where the log records the questions before the position,
    [showResults] returns. *)
Lemma showResults_returns (q : Quiz.t) :
  recorded q -> exists results, Quiz.showResults q = Returns results.
Proof.
  intros Hrec. unfold Quiz.showResults.
  destruct (Quiz.performance _) as [message emoji].
  destruct (review_entries_returns q 0
              (filter (fun a => Answer.isCorrect a = false) (Quiz.answers q)))
    as [review ->]; [|eauto].
  apply Forall_forall. intros a Ha.
  apply list_elem_of_filter in Ha as [_ Ha].
  apply list_elem_of_lookup in Ha as [i Ha].
  destruct (Forall2_lookup_l _ _ _ _ _ Hrec Ha) as (cq & Hcq & index & -> & _).
  apply lookup_take_Some in Hcq as [Hcq _].
  apply (find_some _ _ cq); [|reflexivity].
  eapply list_elem_of_lookup_2, Hcq.
Qed.

Lemma in_table_tier_of (percentage : Z) (t : Tier) :
  in_table percentage t -> t = tier_of percentage.
Proof.
  unfold in_table, tier_of.
  intros [[-> ->]|[[H ->]|[[H ->]|[[H ->]|[H ->]]]]]; [reflexivity|..];
    destruct (percentage =? 100)%Z eqn:H100; try lia;
    destruct (80 <=? percentage)%Z eqn:H80; try lia;
    destruct (60 <=? percentage)%Z eqn:H60; try lia;
    destruct (40 <=? percentage)%Z eqn:H40; try lia; reflexivity.
Qed.

(** The five branches of [showResults], run on every percentage. *)
Lemma performance_checked :
  forallb
    (fun k =>
       same_pair (Quiz.performance (Number.of_Z (Z.of_nat k)))
         (tier_message (tier_of (Z.of_nat k))))
    (seq 0 101) = true.
Proof. vm_compute. reflexivity. Qed.

Lemma performance_table (percentage : Z) (t : Tier) :
  (0 <= percentage <= 100)%Z ->
  in_table percentage t ->
  Quiz.performance (Number.of_Z percentage) = tier_message t.
Proof.
  intros Hrange Ht. apply in_table_tier_of in Ht. subst t.
  pose proof performance_checked as Hall.
  rewrite forallb_forall in Hall.
  specialize (Hall (Z.to_nat percentage)).
  rewrite Z2Nat.id in Hall by lia.
  assert (Hin : In (Z.to_nat percentage) (seq 0 101))
    by (apply in_seq; lia).
  apply Hall in Hin. unfold same_pair in Hin.
  apply andb_true_iff in Hin as [H1 H2].
  apply String.eqb_eq in H1, H2.
  destruct (Quiz.performance _), (tier_message _). simpl in *. congruence.
Qed.

(** Every percentage from 0 to 100 is on one row of the table. *)
Lemma in_table_total (percentage : Z) :
  (0 <= percentage <= 100)%Z -> exists t, in_table percentage t.
Proof.
  intros H. unfold in_table.
  destruct (Z.eq_dec percentage 100) as [H100|H100];
    [exists perfect; left; auto|].
  destruct (Z_le_gt_dec 80 percentage) as [H80|H80];
    [exists great; right; left; split; [lia|reflexivity]|].
  destruct (Z_le_gt_dec 60 percentage) as [H60|H60];
    [exists good; do 2 right; left; split; [lia|reflexivity]|].
  destruct (Z_le_gt_dec 40 percentage) as [H40|H40];
    [exists fair; do 3 right; left; split; [lia|reflexivity]|].
  exists needs_practice. do 4 right. split; [lia|reflexivity].
Qed.

Lemma in_table_of_tier (percentage : Z) :
  (0 <= percentage <= 100)%Z -> in_table percentage (tier_of percentage).
Proof.
  intros H. destruct (in_table_total percentage H) as [t Ht].
  now rewrite <- (in_table_tier_of percentage t Ht).
Qed.

End ResultsFacts.

Section ResultsClaims.

Import Session.

Variable random : nat -> Number.t.

(** C3. For a session with questions, [showResults] prints an integer
    percentage from 0 to 100, a nearest integer to 100 * score / total,
    and the message of the row of the table that holds it, which is also
    the row of 100 * score / total rounded half up: 100 is perfect, 80 to
    99 great, 60 to 79 good, 40 to 59 fair and 0 to 39 needs practice.
    With five questions the scores 5, 4, 3, 2 and 1 give 100 and perfect,
    80 and great, 60 and good, 40 and fair, 20 and needs practice. (An
    array has fewer than 2^32 elements.) *)
Theorem showResults_tier_follows_table :
  (forall q : Quiz.t,
     reachable random q ->
     (0 < Quiz.totalQuestions q)%nat ->
     Z.of_nat (Quiz.totalQuestions q) < 2 ^ 32 ->
     exists (results : Quiz.Results) (percentage : Z) (t : Tier),
       Quiz.showResults q = Returns results /\
       Quiz.percentage results = Number.of_Z percentage /\
       0 <= percentage <= 100 /\
       2 * Z.abs (percentage * Z.of_nat (Quiz.totalQuestions q)
                  - 100 * Z.of_nat (Quiz.score q))
         <= Z.of_nat (Quiz.totalQuestions q) /\
       in_table percentage t /\
       in_table
         (Rounding.round_half_up (Z.of_nat (Quiz.score q))
            (Z.of_nat (Quiz.totalQuestions q))) t /\
       (forall t', in_table percentage t' -> t' = t) /\
       (Quiz.message results, Quiz.emoji results) = tier_message t) /\
  (forall (q : Quiz.t) (results : Quiz.Results),
     Quiz.showResults q = Returns results ->
     Quiz.totalQuestions q = 5%nat ->
     (Quiz.score q = 5%nat ->
      Quiz.percentage results = Number.of_Z 100 /\
      (Quiz.message results, Quiz.emoji results) = tier_message perfect) /\
     (Quiz.score q = 4%nat ->
      Quiz.percentage results = Number.of_Z 80 /\
      (Quiz.message results, Quiz.emoji results) = tier_message great) /\
     (Quiz.score q = 3%nat ->
      Quiz.percentage results = Number.of_Z 60 /\
      (Quiz.message results, Quiz.emoji results) = tier_message good) /\
     (Quiz.score q = 2%nat ->
      Quiz.percentage results = Number.of_Z 40 /\
      (Quiz.message results, Quiz.emoji results) = tier_message fair) /\
     (Quiz.score q = 1%nat ->
      Quiz.percentage results = Number.of_Z 20 /\
      (Quiz.message results, Quiz.emoji results)
        = tier_message needs_practice)).
Proof.
  split.
  - intros q Hreach Htotal Hbound.
    destruct (ResultsFacts.showResults_returns q
                (SessionFacts.reachable_recorded random q Hreach))
      as [results Hresults].
    destruct (ResultsFacts.showResults_inv q results Hresults)
      as (_ & _ & _ & Hpercent & Hmessage & _).
    destruct (SessionFacts.reachable_bounds random q Hreach) as [Hscore _].
    destruct (TieFacts.percent_spec _ _ Hscore Htotal Hbound)
      as (percentage & Hp & Hrange & Hnear & Htier).
    pose proof (ResultsFacts.in_table_of_tier percentage Hrange) as Ht.
    exists results, percentage, (tier_of percentage).
    rewrite Hmessage, Hpercent, Hp.
    repeat split; try assumption; try lia.
    + rewrite Htier. apply ResultsFacts.in_table_of_tier.
      apply TieFacts.round_half_up_spec; lia.
    + intros t' Ht'. now apply ResultsFacts.in_table_tier_of in Ht'.
    + now apply ResultsFacts.performance_table.
  - intros q results Hresults Htotal.
    destruct (ResultsFacts.showResults_inv q results Hresults)
      as (_ & _ & _ & Hpercent & Hmessage & _).
    rewrite Hmessage, Hpercent, Htotal.
    repeat match goal with |- _ /\ _ => split end;
      intros ->; split; vm_compute; reflexivity.
Qed.

(** C5, as the code has it. In a session with questions [progress] is
    the percentage of questions answered: an integer from 0 to 100, a
    nearest integer to 100 * position / total. (An array has fewer than
    2^32 elements.) *)
Theorem progress_is_rounded_percentage (q : Quiz.t) :
  reachable random q ->
  (0 < Quiz.totalQuestions q)%nat ->
  Z.of_nat (Quiz.totalQuestions q) < 2 ^ 32 ->
  exists percentage : Z,
    Quiz.progress q = Number.of_Z percentage /\
    0 <= percentage <= 100 /\
    2 * Z.abs (percentage * Z.of_nat (Quiz.totalQuestions q)
               - 100 * Z.of_nat (Quiz.currentIndex q))
      <= Z.of_nat (Quiz.totalQuestions q).
Proof.
  intros Hreach Htotal Hbound.
  destruct (SessionFacts.reachable_bounds random q Hreach) as [_ Hpos].
  now apply NumberFacts.percent_nearest.
Qed.

End ResultsClaims.

(** Two questions, one answered rightly: 50, and fair. *)
Lemma showResults_one_of_two :
  exists (q : Quiz.t) (w : Input.World),
    Samples.finished = Some (q, w) /\
    exists (results : Quiz.Results) (percentage : Z) (t : Session.Tier),
      Quiz.showResults q = Returns results /\
      Quiz.percentage results = Number.of_Z percentage /\
      0 <= percentage <= 100 /\
      2 * Z.abs (percentage * Z.of_nat (Quiz.totalQuestions q)
                 - 100 * Z.of_nat (Quiz.score q))
        <= Z.of_nat (Quiz.totalQuestions q) /\
      Session.in_table percentage t /\
      Session.in_table
        (Rounding.round_half_up (Z.of_nat (Quiz.score q))
           (Z.of_nat (Quiz.totalQuestions q))) t /\
      (forall t', Session.in_table percentage t' -> t' = t) /\
      (Quiz.message results, Quiz.emoji results) = Session.tier_message t.
Proof.
  destruct Samples.finished as [[q w]|] eqn:Hrun;
    [|vm_compute in Hrun; discriminate].
  exists q, w. split; [reflexivity|].
  apply (proj1 (showResults_tier_follows_table Samples.halves) q
           (SessionFacts.finished_reachable q w Hrun));
    vm_compute in Hrun; injection Hrun as <- _;
    [unfold Quiz.totalQuestions; simpl; lia|vm_compute; reflexivity].
Defined.

(** Two questions, one answered: 50. *)
Lemma progress_half_way :
  exists (q : Quiz.t) (w : Input.World),
    Samples.half_way = Some (q, w) /\
    exists percentage : Z,
      Quiz.progress q = Number.of_Z percentage /\
      0 <= percentage <= 100 /\
      2 * Z.abs (percentage * Z.of_nat (Quiz.totalQuestions q)
                 - 100 * Z.of_nat (Quiz.currentIndex q))
        <= Z.of_nat (Quiz.totalQuestions q).
Proof.
  destruct Samples.half_way as [[q w]|] eqn:Hrun;
    [|vm_compute in Hrun; discriminate].
  exists q, w. split; [reflexivity|].
  apply (progress_is_rounded_percentage Samples.halves q
           (SessionFacts.half_way_reachable q w Hrun));
    vm_compute in Hrun; injection Hrun as <- _;
    [unfold Quiz.totalQuestions; simpl; lia|vm_compute; reflexivity].
Defined.

(** * Further properties *)

(** ** The further definitions on small inputs *)

Module MoreChecks.

Local Open Scope string_scope.

Example repeat_three : Text.repeat "ab" (Number.of_Z 3) = Returns "ababab".
Proof. reflexivity. Qed.

(** A count between -1 and 0 truncates to zero, and is no error. *)
Example repeat_minus_half :
  Text.repeat "ab" (Number.div (Number.of_Z (-1)) (Number.of_Z 2)) = Returns "".
Proof. reflexivity. Qed.

Example repeat_minus_one : Text.repeat "ab" (Number.of_Z (-1)) = Throws "RangeError".
Proof. reflexivity. Qed.

Example repeat_NaN : Text.repeat "ab" Number.NaN = Returns "".
Proof. reflexivity. Qed.

Example of_Number_minus_12 : Str.of_Number (Number.of_Z (-12)) = Some "-12".
Proof. reflexivity. Qed.

Example of_Number_NaN : Str.of_Number Number.NaN = Some "NaN".
Proof. reflexivity. Qed.

Example includes_3 : Str.includes "3 questions" "3" = true.
Proof. reflexivity. Qed.

Example includes_no_5 : Str.includes "All questions" "5" = false.
Proof. reflexivity. Qed.

Example countOptions_4 : Main.countOptions 4 = ["All questions"; "3 questions"].
Proof. reflexivity. Qed.

Example questionCount_5 : Main.questionCount "5 questions" 7 = 5%nat.
Proof. reflexivity. Qed.

Example confirm_yes_please :
  Input.confirm "Again?" (Samples.typing ["  Yes please "]) =
    Some (true, {| Input.input := [];
                   Input.output := [Input.Ask "Again? (y/n): "] |}).
Proof. reflexivity. Qed.

Example confirm_empty_line :
  Input.confirm "Again?" (Samples.typing [""]) =
    Some (false, {| Input.input := [];
                    Input.output := [Input.Ask "Again? (y/n): "] |}).
Proof. reflexivity. Qed.

(** One question of three answered: 10 cells of 30, and 33 percent. *)
Example bar_one_of_three :
  Quiz.renderProgressBar
    {| Quiz.questions := [Samples.capital; Samples.planet; Samples.capital];
       Quiz.categoryName := "General";
       Quiz.currentIndex := 1;
       Quiz.score := 0;
       Quiz.answers := [] |}
  = Returns (Some "[██████████░░░░░░░░░░░░░░░░░░░░] 33%").
Proof. vm_compute. reflexivity. Qed.

Example bar_without_questions :
  Quiz.renderProgressBar Samples.empty = Returns (Some "[] NaN%").
Proof. vm_compute. reflexivity. Qed.

(** A position beyond the last question, which no run reaches: 60
    filled cells, and a negative count of empty ones. *)
Example bar_beyond_the_end :
  Quiz.renderProgressBar
    {| Quiz.questions := [Samples.capital];
       Quiz.categoryName := "General";
       Quiz.currentIndex := 2;
       Quiz.score := 0;
       Quiz.answers := [] |}
  = Throws "RangeError".
Proof. vm_compute. reflexivity. Qed.

(** The draw made for the second of 49 elements, and for the last. *)
Example draw_for_second_of_49 :
  Randomizer.index (Randomizer.draw (fun _ => Orders.draw_for 48 1) 0 48)
  = Some 1%nat.
Proof. reflexivity. Qed.

Example draw_for_last_of_49 :
  Randomizer.index (Randomizer.draw (fun _ => Orders.draw_for 48 48) 0 48)
  = Some 48%nat.
Proof. reflexivity. Qed.

(** One wrong answer in 200 still rounds to 100. *)
Example percent_199_of_200 : Quiz.percent 199 200 = Number.of_Z 100.
Proof. vm_compute. reflexivity. Qed.

Example performance_199_of_200 :
  Quiz.performance (Quiz.percent 199 200)
  = Session.tier_message Session.perfect.
Proof. vm_compute. reflexivity. Qed.

End MoreChecks.

(** ** More on the session *)

Module SessionMore.

Import Session.

Section Reachable.

Variable random : nat -> Number.t.

(** The score counts the correct records. *)
Lemma reachable_score (q : Quiz.t) :
  reachable random q ->
  Quiz.score q
    = length (filter (fun a => Answer.isCorrect a = true) (Quiz.answers q)).
Proof.
  induction 1 as [questions categoryName k q k' Hnew|q w b q' w' Hq IH Hask].
  - apply SessionFacts.constructor_inv in Hnew as (shuffled & _ & ->).
    reflexivity.
  - apply SessionFacts.askQuestion_inv in Hask
      as [(_ & _ & -> & _)|(cq & sel & Hcq & Hsel & Hsub)]; [exact IH|].
    unfold Quiz.submitAnswer in Hsub. injection Hsub as _ <-. simpl.
    rewrite filter_app, length_app, <- IH.
    rewrite filter_cons. simpl.
    destruct (Input.index sel =? Question.answer cq)%Z; simpl; lia.
Qed.

Lemma filter_split (answers : list Answer.t) :
  (length (filter (fun a => Answer.isCorrect a = true) answers)
   + length (filter (fun a => Answer.isCorrect a = false) answers))%nat
  = length answers.
Proof.
  induction answers as [|a answers IH]; [reflexivity|].
  rewrite !filter_cons. destruct (Answer.isCorrect a); simpl; lia.
Qed.

End Reachable.

(** The wrong records, out of the pairs of record and question. *)
Lemma filter_zip (answers : list Answer.t) (questions : list Question.t) :
  (length answers <= length questions)%nat ->
  filter (fun a => Answer.isCorrect a = false) answers
  = (filter (fun p : Answer.t * Question.t => Answer.isCorrect p.1 = false)
       (zip answers questions)).*1.
Proof.
  revert questions.
  induction answers as [|a answers IH]; intros [|cq questions] Hlen;
    simpl in *; try reflexivity; try lia.
  rewrite !filter_cons. simpl.
  destruct (decide (Answer.isCorrect a = false)); simpl;
    rewrite <- IH by lia; reflexivity.
Qed.

(** The review of records that each find their question. *)
Lemma review_entries_found (q : Quiz.t) (i : nat)
    (pairs : list (Answer.t * Question.t)) :
  Forall (fun p => Quiz.find_question q p.1 = Some p.2
                   /\ Answer.question p.1 = Question.question p.2
                   /\ Answer.correctAnswer p.1 = Question.answer p.2) pairs ->
  Quiz.review_entries q i pairs.*1
  = Returns (imap (fun j p => Review.entry (i + j) p.1 p.2) pairs).
Proof.
  intros Hall. revert i.
  induction Hall as [|[a cq] pairs (Hfind & Htext & Hright) _ IH]; intros i;
    [reflexivity|].
  simpl in Hfind, Htext, Hright. rewrite fmap_cons.
  cbn [Quiz.review_entries fst]. unfold Quiz.review_entry.
  rewrite Hfind, (IH (S i)). rewrite imap_cons.
  unfold Review.entry. cbn [fst snd]. rewrite Htext, Hright, Nat.add_0_r.
  do 2 f_equal. apply imap_ext. intros j p _. simpl.
  f_equal; lia.
Qed.

Lemma review_entries_length (q : Quiz.t) (i : nat) (incorrect : list Answer.t)
    (review : list Quiz.Review) :
  Quiz.review_entries q i incorrect = Returns review ->
  length review = length incorrect.
Proof.
  revert i review. induction incorrect as [|a incorrect IH]; intros i review;
    simpl.
  - now intros [= <-].
  - destruct (Quiz.review_entry q i a) as [r|e]; [|discriminate].
    destruct (Quiz.review_entries q (S i) incorrect) as [rs|e] eqn:Hrest;
      [|discriminate].
    intros [= <-]. simpl. f_equal. now apply (IH (S i)).
Qed.

(** In a reachable session the log is as long as the position. *)
Lemma recorded_length (q : Quiz.t) :
  recorded q -> (Quiz.currentIndex q <= length (Quiz.questions q))%nat ->
  length (Quiz.answers q) = Quiz.currentIndex q.
Proof.
  intros Hrec Hpos. apply Forall2_length in Hrec.
  rewrite length_take in Hrec. lia.
Qed.

End SessionMore.

Section SessionExtras.

Import Session.

Variable random : nat -> Number.t.

Local Open Scope nat_scope.

(** X1. With [Math.random] keeping to its contract, and a list that
    fits in a JavaScript array, a new quiz holds the questions it was
    given, each as often as given, in the order the shuffle left them;
    it stands at position 0 with score 0 and an empty log; making it
    takes one draw of [Math.random] less than there are questions (none
    for an empty list); and it is complete, with no current question,
    exactly when it was given no question. *)
Theorem constructor_starts_with_every_question (questions : list Question.t)
    (categoryName : string) (k : nat) :
  Randomizer.unit_interval random ->
  (Z.of_nat (length questions) < 2 ^ 32)%Z ->
  exists (q : Quiz.t) (k' : nat),
    Quiz.constructor random questions categoryName k = Some (q, k') /\
    Quiz.questions q ≡ₚ questions /\
    Quiz.totalQuestions q = length questions /\
    Quiz.categoryName q = categoryName /\
    Quiz.currentIndex q = 0 /\
    Quiz.score q = 0 /\
    Quiz.answers q = [] /\
    k' = k + (length questions - 1) /\
    (Quiz.isComplete q = true <-> questions = []) /\
    (Quiz.currentQuestion q = None <-> questions = []).
Proof.
  intros contract Hsize.
  destruct (RandomizerFacts.shuffle_loop_defined random contract
              (length questions - 1) questions k ltac:(lia) ltac:(lia))
    as [shuffled Hloop].
  pose proof (RandomizerFacts.shuffle_loop_Permutation random _ _ _ _ _ Hloop)
    as Hperm.
  unfold Quiz.constructor, Randomizer.shuffled. rewrite Hloop.
  eexists _, _. split; [reflexivity|].
  assert (Hlen : length shuffled = length questions) by now rewrite Hperm.
  assert (Hnil : length questions = 0 <-> questions = [])
    by (destruct questions; simpl; split; intros; congruence || lia).
  unfold Quiz.isComplete, Quiz.currentQuestion, Quiz.totalQuestions. simpl.
  repeat split; try assumption.
  - intros Hle. apply Nat.leb_le in Hle. apply Hnil. lia.
  - intros ->. simpl in Hlen. apply Nat.leb_le. lia.
  - intros Hnone. apply lookup_ge_None in Hnone. apply Hnil. lia.
  - intros ->. destruct shuffled; [reflexivity|discriminate].
Qed.

(** X2. In a reachable session the record at each place of the log was
    made of the question at the same place: it has its text and its
    right answer, the answer chosen is an index of its options, and the
    record is marked correct exactly when the two answers are equal. *)
Theorem log_follows_the_questions (q : Quiz.t) (i : nat) (a : Answer.t) :
  reachable random q ->
  Quiz.answers q !! i = Some a ->
  exists cq : Question.t,
    Quiz.questions q !! i = Some cq /\
    (i < Quiz.currentIndex q) /\
    Answer.question a = Question.question cq /\
    Answer.correctAnswer a = Question.answer cq /\
    (0 <= Answer.userAnswer a < Z.of_nat (length (Question.options cq)))%Z /\
    is_Some (Question.options cq !! Z.to_nat (Answer.userAnswer a)) /\
    Answer.isCorrect a
      = (Answer.userAnswer a =? Answer.correctAnswer a)%Z.
Proof.
  intros Hreach Ha.
  apply SessionFacts.reachable_recorded in Hreach.
  destruct (Forall2_lookup_l _ _ _ _ _ Hreach Ha)
    as (cq & Hcq & index & -> & Hindex).
  apply lookup_take_Some in Hcq as [Hcq Hi].
  exists cq. simpl. repeat split; try assumption; try lia.
  apply lookup_lt_is_Some. lia.
Qed.

(** X3. In a reachable session the score is the number of records
    marked correct, and the records marked wrong are as many as the
    position exceeds the score. *)
Theorem score_counts_the_correct_records (q : Quiz.t) :
  reachable random q ->
  Quiz.score q
    = length (filter (fun a => Answer.isCorrect a = true) (Quiz.answers q)) /\
  length (filter (fun a => Answer.isCorrect a = false) (Quiz.answers q))
    = Quiz.currentIndex q - Quiz.score q.
Proof.
  intros Hreach.
  pose proof (SessionMore.reachable_score random q Hreach) as Hscore.
  pose proof (SessionMore.filter_split (Quiz.answers q)) as Hsplit.
  pose proof (SessionFacts.reachable_bounds random q Hreach) as [_ Hpos].
  pose proof (SessionMore.recorded_length q
                (SessionFacts.reachable_recorded random q Hreach) Hpos) as Hlen.
  split; [exact Hscore|]. lia.
Qed.

(** X4. On a reachable session [showResults] returns: it never reads
    the options of a question it did not find. Its review has one entry
    per wrong record, numbered from 1. When no two questions share their
    text, the entry of a wrong record shows the options of the question
    at the record's place: the label chosen, which is always there, and
    the label at the right answer. *)
Theorem showResults_reviews_the_wrong_answers (q : Quiz.t) :
  reachable random q ->
  exists results : Quiz.Results,
    Quiz.showResults q = Returns results /\
    Quiz.category results = Quiz.categoryName q /\
    Quiz.scored results = Quiz.score q /\
    Quiz.total results = Quiz.totalQuestions q /\
    length (Quiz.review results) = Quiz.currentIndex q - Quiz.score q /\
    (NoDup (Question.question <$> Quiz.questions q) ->
     Quiz.review results
       = imap (fun i p => Review.entry i p.1 p.2) (Review.wrong q) /\
     Forall (fun r => is_Some (Quiz.yours r)) (Quiz.review results)).
Proof.
  intros Hreach.
  pose proof (SessionFacts.reachable_recorded random q Hreach) as Hrec.
  pose proof (SessionFacts.reachable_bounds random q Hreach) as [_ Hpos].
  pose proof (SessionMore.recorded_length q Hrec Hpos) as Hlen.
  destruct (ResultsFacts.showResults_returns q Hrec) as [results Hresults].
  destruct (ResultsFacts.showResults_inv q results Hresults)
    as (Hcat & Hscored & Htotal & _ & _ & Hreview).
  exists results.
  split; [exact Hresults|]. split; [exact Hcat|]. split; [exact Hscored|].
  split; [exact Htotal|]. split.
  { rewrite (SessionMore.review_entries_length _ _ _ _ Hreview).
    pose proof (SessionMore.reachable_score random q Hreach) as Hscore.
    pose proof (SessionMore.filter_split (Quiz.answers q)). lia. }
  intros Hnodup.
  assert (Hpairs :
    Forall (fun p => (Quiz.find_question q p.1 = Some p.2
                      /\ Answer.question p.1 = Question.question p.2
                      /\ Answer.correctAnswer p.1 = Question.answer p.2)
                     /\ is_Some (Input.get (Question.options p.2)
                                   (Answer.userAnswer p.1)))
      (Review.wrong q)).
  { apply Forall_forall. intros [a cq] Hin.
    apply list_elem_of_filter in Hin as [_ Hin].
    apply list_elem_of_lookup in Hin as [i Hi].
    apply lookup_zip_with_Some in Hi as (a' & cq' & [= <- <-] & Ha & Hcq).
    destruct (find_question_origin random q i a Hreach Hnodup Ha)
      as [Hfind _].
    destruct (Forall2_lookup_l _ _ _ _ _ Hrec Ha)
      as (cq0 & Hcq0 & index & -> & Hindex).
    apply lookup_take_Some in Hcq0 as [Hcq0 _].
    assert (cq0 = cq) by congruence. subst cq0.
    simpl. rewrite Hfind, Hcq. repeat split.
    unfold Input.get. destruct (index <? 0)%Z eqn:Hneg; [lia|].
    apply lookup_lt_is_Some. lia. }
  apply Forall_and in Hpairs as [Hfound Hyours].
  rewrite (SessionMore.filter_zip _ (Quiz.questions q)) in Hreview
    by (unfold Quiz.totalQuestions in Hpos; lia).
  fold (Review.wrong q) in Hreview.
  rewrite (SessionMore.review_entries_found q 0 _ Hfound) in Hreview.
  injection Hreview as <-. split; [reflexivity|].
  apply Forall_forall. intros r Hr.
  apply list_elem_of_lookup in Hr as [i Hi].
  apply list_lookup_imap_Some in Hi as (p & Hp & ->).
  apply (proj1 (Forall_forall _ _) Hyours p).
  eapply list_elem_of_lookup_2, Hp.
Qed.

End SessionExtras.

Lemma constructor_starts_with_two_questions :
  exists (q : Quiz.t) (k' : nat),
    Quiz.constructor Samples.halves [Samples.capital; Samples.planet]
      "General" 0 = Some (q, k') /\
    Quiz.questions q ≡ₚ [Samples.capital; Samples.planet] /\
    Quiz.totalQuestions q = 2%nat /\
    Quiz.categoryName q = "General"%string /\
    Quiz.currentIndex q = 0%nat /\
    Quiz.score q = 0%nat /\
    Quiz.answers q = [] /\
    k' = 1%nat /\
    (Quiz.isComplete q = true <-> [Samples.capital; Samples.planet] = []) /\
    (Quiz.currentQuestion q = None <-> [Samples.capital; Samples.planet] = []).
Proof.
  apply (constructor_starts_with_every_question Samples.halves
           [Samples.capital; Samples.planet] "General" 0).
  - intros k. vm_compute. auto.
  - vm_compute. reflexivity.
Defined.

Lemma log_follows_the_two_questions :
  exists (q : Quiz.t) (w : Input.World),
    Samples.finished = Some (q, w) /\
    forall (i : nat) (a : Answer.t),
      Quiz.answers q !! i = Some a ->
      exists cq : Question.t,
        Quiz.questions q !! i = Some cq /\
        (i < Quiz.currentIndex q)%nat /\
        Answer.question a = Question.question cq /\
        Answer.correctAnswer a = Question.answer cq /\
        (0 <= Answer.userAnswer a < Z.of_nat (length (Question.options cq)))%Z /\
        is_Some (Question.options cq !! Z.to_nat (Answer.userAnswer a)) /\
        Answer.isCorrect a
          = (Answer.userAnswer a =? Answer.correctAnswer a)%Z.
Proof.
  destruct Samples.finished as [[q w]|] eqn:Hrun;
    [|vm_compute in Hrun; discriminate].
  exists q, w. split; [reflexivity|]. intros i a.
  apply (log_follows_the_questions Samples.halves q i a).
  now apply (SessionFacts.finished_reachable q w).
Defined.

Lemma score_counts_after_two_questions :
  exists (q : Quiz.t) (w : Input.World),
    Samples.finished = Some (q, w) /\
    Quiz.score q
      = length (filter (fun a => Answer.isCorrect a = true) (Quiz.answers q)) /\
    length (filter (fun a => Answer.isCorrect a = false) (Quiz.answers q))
      = (Quiz.currentIndex q - Quiz.score q)%nat.
Proof.
  destruct Samples.finished as [[q w]|] eqn:Hrun;
    [|vm_compute in Hrun; discriminate].
  exists q, w. split; [reflexivity|].
  apply (score_counts_the_correct_records Samples.halves q).
  now apply (SessionFacts.finished_reachable q w).
Defined.

Lemma showResults_reviews_after_two_questions :
  exists (q : Quiz.t) (w : Input.World),
    Samples.finished = Some (q, w) /\
    exists results : Quiz.Results,
      Quiz.showResults q = Returns results /\
      Quiz.category results = Quiz.categoryName q /\
      Quiz.scored results = Quiz.score q /\
      Quiz.total results = Quiz.totalQuestions q /\
      length (Quiz.review results)
        = (Quiz.currentIndex q - Quiz.score q)%nat /\
      (NoDup (Question.question <$> Quiz.questions q) ->
       Quiz.review results
         = imap (fun i p => Review.entry i p.1 p.2) (Review.wrong q) /\
       Forall (fun r => is_Some (Quiz.yours r)) (Quiz.review results)).
Proof.
  destruct Samples.finished as [[q w]|] eqn:Hrun;
    [|vm_compute in Hrun; discriminate].
  exists q, w. split; [reflexivity|].
  apply (showResults_reviews_the_wrong_answers Samples.halves q).
  now apply (SessionFacts.finished_reachable q w).
Defined.

(** ** Trimming *)

Module TrimFacts.

Import White.

Local Open Scope string_scope.

Lemma append_cons (c : ascii) (a b : string) :
  String c a ++ b = String c (a ++ b).
Proof. reflexivity. Qed.

Lemma append_nil_r (s : string) : s ++ "" = s.
Proof.
  induction s as [|c s IH]; [reflexivity|]. now rewrite append_cons, IH.
Qed.

Lemma append_assoc (a b c : string) : (a ++ b) ++ c = a ++ (b ++ c).
Proof.
  induction a as [|x a IH]; [reflexivity|]. now rewrite !append_cons, IH.
Qed.

Lemma length_append (a b : string) :
  String.length (a ++ b) = (String.length a + String.length b)%nat.
Proof.
  induction a as [|x a IH]; [reflexivity|]. rewrite append_cons. simpl.
  now rewrite IH.
Qed.

Lemma list_of_append (a b : string) :
  list_ascii_of_string (a ++ b)
  = (list_ascii_of_string a ++ list_ascii_of_string b)%list.
Proof.
  induction a as [|x a IH]; [reflexivity|]. rewrite append_cons. simpl.
  now rewrite IH.
Qed.

Lemma string_of_app (a b : list ascii) :
  string_of_list_ascii (a ++ b)%list
  = string_of_list_ascii a ++ string_of_list_ascii b.
Proof.
  induction a as [|x a IH]; [reflexivity|]. simpl. now rewrite append_cons, IH.
Qed.

Lemma rev_append (a b : string) : Str.rev (a ++ b) = Str.rev b ++ Str.rev a.
Proof.
  unfold Str.rev. now rewrite list_of_append, List.rev_app_distr, string_of_app.
Qed.

Lemma length_rev (s : string) : String.length (Str.rev s) = String.length s.
Proof.
  unfold Str.rev.
  rewrite <- (string_of_list_ascii_of_string s) at 2.
  generalize (list_ascii_of_string s). intros l.
  assert (Hlen : forall l', String.length (string_of_list_ascii l') = length l').
  { induction l' as [|x l' IH]; [reflexivity|]. simpl. now f_equal. }
  now rewrite !Hlen, length_rev.
Qed.

(** [strip_prefix] removes exactly the prefix. *)
Lemma strip_prefix_Some (p s x : string) :
  Str.strip_prefix p s = Some x <-> s = p ++ x.
Proof.
  revert s. induction p as [|a p IH]; intros s; simpl.
  - split; [now intros [= ->]|now intros ->].
  - destruct s as [|b s]; [split; discriminate|].
    destruct (Ascii.eqb_spec a b) as [->|Hne].
    + rewrite IH. split; [now intros ->|now intros [= ->]].
    + split; [discriminate|intros [= <- _]; congruence].
Qed.

(** What [skip_one] and [skip_one_end] find. *)
Lemma find_first_Some {A : Type} (l : list (option A)) (x : A) :
  list_find (fun r => is_Some r) l ≫= snd = Some x -> Some x ∈ l.
Proof.
  destruct (list_find _ l) as [[i r]|] eqn:Hfind; [|discriminate].
  simpl. intros ->. apply list_find_Some in Hfind as (Hi & _ & _).
  eapply list_elem_of_lookup_2, Hi.
Qed.

Lemma find_first_None {A : Type} (l : list (option A)) :
  list_find (fun r => is_Some r) l ≫= snd = None <-> Forall (fun r => r = None) l.
Proof.
  destruct (list_find _ l) as [[i r]|] eqn:Hfind; simpl.
  - apply list_find_Some in Hfind as (Hi & [x ->] & _).
    split; [discriminate|]. intros Hall.
    apply list_elem_of_lookup_2 in Hi.
    apply (proj1 (Forall_forall _ _) Hall) in Hi. discriminate.
  - apply list_find_None in Hfind. split; [|reflexivity]. intros _.
    eapply Forall_impl; [exact Hfind|]. intros [x|] Hx; [|reflexivity].
    exfalso. apply Hx. eauto.
Qed.

Lemma skip_one_Some (s s' : string) :
  Str.skip_one s = Some s' ->
  exists ws, ws ∈ Str.white_space /\ s = ws ++ s'.
Proof.
  unfold Str.skip_one. intros Hfind. apply find_first_Some in Hfind.
  apply list_elem_of_fmap in Hfind as (ws & Hstrip & Hws).
  exists ws. split; [exact Hws|]. now apply strip_prefix_Some.
Qed.

Lemma skip_one_None (s : string) :
  Str.skip_one s = None <->
  forall ws x, ws ∈ Str.white_space -> s <> ws ++ x.
Proof.
  unfold Str.skip_one. rewrite find_first_None, Forall_fmap, Forall_forall.
  split.
  - intros Hall ws x Hws Heq. apply strip_prefix_Some in Heq.
    specialize (Hall ws Hws). simpl in Hall. congruence.
  - intros Hall ws Hws. simpl.
    destruct (Str.strip_prefix ws s) as [x|] eqn:Hstrip; [|reflexivity].
    apply strip_prefix_Some in Hstrip. now destruct (Hall ws x Hws).
Qed.

Lemma skip_one_end_Some (r r' : string) :
  Str.skip_one_end r = Some r' ->
  exists ws, ws ∈ Str.white_space /\ r = Str.rev ws ++ r'.
Proof.
  unfold Str.skip_one_end. intros Hfind. apply find_first_Some in Hfind.
  apply list_elem_of_fmap in Hfind as (ws & Hstrip & Hws).
  exists ws. split; [exact Hws|]. now apply strip_prefix_Some.
Qed.

(** Every white-space character takes a byte at least. *)
Lemma white_space_length (ws : string) :
  ws ∈ Str.white_space -> (0 < String.length ws)%nat.
Proof.
  intros Hws.
  assert (Hall : Forall (fun ws => (0 < String.length ws)%nat) Str.white_space)
    by (repeat constructor).
  exact (proj1 (Forall_forall _ _) Hall ws Hws).
Qed.

Lemma blank_app (a b : string) : blank a -> blank b -> blank (a ++ b).
Proof.
  induction 1 as [|ws s Hws Hs IH]; intros Hb; [exact Hb|].
  rewrite append_assoc. constructor; auto.
Qed.

Lemma blank_one (ws : string) : ws ∈ Str.white_space -> blank ws.
Proof.
  intros Hws. rewrite <- (append_nil_r ws). constructor; [exact Hws|constructor].
Qed.

(** With fuel for every byte, [skip_leading] splits a string into its
    leading white space and a rest that starts with none. *)
Lemma skip_leading_spec (fuel : nat) (s : string) :
  (String.length s <= fuel)%nat ->
  exists b, blank b /\ s = b ++ Str.skip_leading fuel s /\
            Str.skip_one (Str.skip_leading fuel s) = None.
Proof.
  revert s. induction fuel as [|fuel IH]; intros s Hlen.
  - destruct s; [|simpl in Hlen; lia]. exists "". repeat split. constructor.
  - simpl. destruct (Str.skip_one s) as [s'|] eqn:Hskip.
    + destruct (skip_one_Some _ _ Hskip) as (ws & Hws & ->).
      pose proof (white_space_length ws Hws) as Hpos.
      rewrite length_append in Hlen.
      destruct (IH s' ltac:(lia)) as (b & Hb & Hs' & Hnone).
      exists (ws ++ b). split; [now constructor|]. split; [|exact Hnone].
      rewrite append_assoc. now rewrite <- Hs'.
    + exists "". repeat split; [constructor|exact Hskip].
Qed.

Lemma trimStart_spec (s : string) :
  exists b, blank b /\ s = b ++ Str.trimStart s /\
            Str.skip_one (Str.trimStart s) = None.
Proof. apply skip_leading_spec. lia. Qed.

Lemma skip_trailing_spec (fuel : nat) (r : string) :
  (String.length r <= fuel)%nat ->
  exists b, blank b /\ r = Str.rev b ++ Str.skip_trailing fuel r /\
            Str.skip_one_end (Str.skip_trailing fuel r) = None.
Proof.
  revert r. induction fuel as [|fuel IH]; intros r Hlen.
  - destruct r; [|simpl in Hlen; lia]. exists "". repeat split. constructor.
  - simpl. destruct (Str.skip_one_end r) as [r'|] eqn:Hskip.
    + destruct (skip_one_end_Some _ _ Hskip) as (ws & Hws & ->).
      pose proof (white_space_length ws Hws) as Hpos.
      rewrite length_append, length_rev in Hlen.
      destruct (IH r' ltac:(lia)) as (b & Hb & Hr' & Hnone).
      exists (b ++ ws). split; [apply blank_app; [exact Hb|now apply blank_one]|].
      split; [|exact Hnone].
      rewrite rev_append, append_assoc. now rewrite <- Hr'.
    + exists "". repeat split; [constructor|exact Hskip].
Qed.

Lemma trimEnd_spec (s : string) :
  exists b, blank b /\ s = Str.trimEnd s ++ b /\
            Str.skip_one_end (Str.rev (Str.trimEnd s)) = None.
Proof.
  unfold Str.trimEnd.
  destruct (skip_trailing_spec (String.length s) (Str.rev s)
              ltac:(rewrite length_rev; lia)) as (b & Hb & Hs & Hnone).
  exists b. split; [exact Hb|]. split.
  - rewrite <- (StrFacts.rev_involutive s) at 1. rewrite Hs at 1.
    now rewrite rev_append, StrFacts.rev_involutive.
  - now rewrite StrFacts.rev_involutive.
Qed.

(** Nothing to skip, nothing skipped. *)
Lemma trimStart_fixed (s : string) :
  Str.skip_one s = None -> Str.trimStart s = s.
Proof.
  intros Hnone. unfold Str.trimStart.
  destruct (String.length s); simpl; [reflexivity|now rewrite Hnone].
Qed.


(** A prefix of a string that starts with no white space starts with
    none either. *)
Lemma skip_one_prefix (u b : string) :
  Str.skip_one (u ++ b) = None -> Str.skip_one u = None.
Proof.
  rewrite !skip_one_None. intros Hall ws x Hws ->.
  apply (Hall ws (x ++ b) Hws). now rewrite append_assoc.
Qed.

(** [trim] splits a string into white space, the trimmed string, and
    white space; the trimmed string starts and ends with none. *)
Lemma trim_spec (s : string) :
  exists b b', blank b /\ blank b' /\
    s = b ++ Str.trim s ++ b' /\
    Str.trimStart s = Str.trim s ++ b' /\
    Str.skip_one (Str.trim s) = None /\
    Str.skip_one_end (Str.rev (Str.trim s)) = None.
Proof.
  destruct (trimStart_spec s) as (b & Hb & Hs & Hstart).
  destruct (trimEnd_spec (Str.trimStart s)) as (b' & Hb' & Ht & Hend).
  fold (Str.trim s) in Ht, Hend.
  exists b, b'. repeat split; try assumption.
  - now rewrite <- Ht.
  - rewrite Ht in Hstart. now apply skip_one_prefix in Hstart.
Qed.


End TrimFacts.

(** ** More on the input port *)

Module InputMore.

Import White Parse Input Port.

Local Open Scope string_scope.

Lemma white_space_plain (ws : string) :
  ws ∈ Str.white_space -> plain_start ws = true.
Proof.
  intros Hws.
  assert (Hall : forallb plain_start Str.white_space = true)
    by (vm_compute; reflexivity).
  rewrite forallb_forall in Hall. apply Hall.
  now apply list_elem_of_In.
Qed.

(** A non-empty run of white space starts with such a byte. *)
Lemma blank_start (b : string) :
  blank b -> b = "" \/ exists c r, b = String c r /\ plain_start (String c r) = true.
Proof.
  intros [|ws s Hws Hs]; [now left|right].
  pose proof (white_space_plain ws Hws) as Hplain.
  destruct ws as [|c r]; [discriminate|].
  exists c, (r ++ s). split; [reflexivity|exact Hplain].
Qed.

Lemma digits_blank (b : string) (seen : bool) (acc : Z) :
  blank b -> Str.digits b seen acc = if seen then Some acc else None.
Proof.
  intros Hb. destruct (blank_start b Hb) as [->|(c & r & -> & Hplain)];
    [reflexivity|].
  simpl in *. now destruct (Str.digit c).
Qed.

(** White space after the digits does not change what is read. *)
Lemma digits_append_blank (v b : string) (seen : bool) (acc : Z) :
  blank b -> Str.digits (v ++ b) seen acc = Str.digits v seen acc.
Proof.
  intros Hb. revert seen acc.
  induction v as [|c v IH]; intros seen acc.
  - now rewrite digits_blank.
  - rewrite TrimFacts.append_cons. simpl.
    destruct (Str.digit c); [apply IH|reflexivity].
Qed.

Lemma signed_digits_append_blank (u b : string) :
  blank b -> signed_digits (u ++ b) = signed_digits u.
Proof.
  intros Hb. destruct u as [|c u].
  - destruct (blank_start b Hb) as [->|(c & r & -> & Hplain)]; [reflexivity|].
    destruct c as [[] [] [] [] [] [] [] []];
      vm_compute in Hplain; try discriminate Hplain; reflexivity.
  - rewrite TrimFacts.append_cons.
    destruct c as [[] [] [] [] [] [] [] []]; unfold signed_digits;
      rewrite <- ?TrimFacts.append_cons, digits_append_blank by exact Hb;
      reflexivity.
Qed.

Lemma parseInt_signed_digits (s : string) :
  Str.parseInt s = signed_digits (Str.trimStart s).
Proof.
  unfold Str.parseInt, signed_digits.
  destruct (Str.trimStart s) as [|c r]; [reflexivity|].
  destruct c as [[] [] [] [] [] [] [] []]; reflexivity.
Qed.

(** [parseInt] does not see the white space that [trim] removes. *)
Lemma parseInt_trim (s : string) : Str.parseInt (Str.trim s) = Str.parseInt s.
Proof.
  destruct (TrimFacts.trim_spec s) as (b & b' & _ & Hb' & _ & Hstart & Hnone & _).
  rewrite !parseInt_signed_digits.
  rewrite (TrimFacts.trimStart_fixed _ Hnone), Hstart.
  symmetry. now apply signed_digits_append_blank.
Qed.

(** Lowering a byte gives [y] for [y] and [Y] only. *)
Lemma lower_y (c : ascii) :
  Ascii.eqb (Str.lower c) "y" = Ascii.eqb c "y" || Ascii.eqb c "Y".
Proof. destruct c as [[] [] [] [] [] [] [] []]; reflexivity. Qed.

Lemma startsWith_y (s : string) :
  Str.startsWith (Str.toLowerCase s) "y" = true <->
  exists c r, s = String c r /\ (c = "y"%char \/ c = "Y"%char).
Proof.
  destruct s as [|c r]; simpl.
  - split; [discriminate|]. intros (c & r & Hs & _). discriminate.
  - assert (Hstarts : Str.startsWith (String (Str.lower c) (Str.toLowerCase r)) "y"
                      = Ascii.eqb (Str.lower c) "y").
    { unfold Str.startsWith. cbn [Str.strip_prefix].
      rewrite Ascii.eqb_sym. now destruct (Ascii.eqb (Str.lower c) "y"). }
    rewrite Hstarts, lower_y.
    destruct (Ascii.eqb_spec c "y") as [->|Hy]; simpl.
    + split; [|reflexivity]. intros _. eauto.
    + destruct (Ascii.eqb_spec c "Y") as [->|HY]; simpl.
      * split; [|reflexivity]. intros _. eauto.
      * split; [discriminate|].
        intros (c' & r' & [= <- <-] & [?|?]); congruence.
Qed.

(** The first character that [trim] keeps is the first that
    [trimStart] keeps. *)
Lemma trim_first (s : string) (c : ascii) :
  (c = "y"%char \/ c = "Y"%char) ->
  (exists r, Str.trim s = String c r) <-> (exists r, Str.trimStart s = String c r).
Proof.
  intros Hc.
  destruct (TrimFacts.trim_spec s) as (b & b' & _ & Hb' & _ & Hstart & _).
  rewrite Hstart. split.
  - intros [r ->]. rewrite TrimFacts.append_cons. eauto.
  - intros [r Hr]. destruct (Str.trim s) as [|c0 u].
    + change (b' = String c r) in Hr. subst b'.
      destruct (blank_start _ Hb') as [?|(c1 & r1 & [= <- <-] & Hplain)];
        [discriminate|].
      exfalso. simpl in Hplain.
      destruct Hc as [-> | ->]; vm_compute in Hplain; discriminate.
    + rewrite TrimFacts.append_cons in Hr. injection Hr as -> _. eauto.
Qed.






End InputMore.

Section InputExtras.

Import White Input Port.

Local Open Scope string_scope.
Local Open Scope list_scope.

(** X5. With no option to choose from [select] never resolves, whatever
    is typed: no line can be a number from 1 to 0. *)
Theorem select_without_options_never_resolves (question : string) (w : World) :
  select question [] w = None.
Proof.
  destruct (select question [] w) as [[sel w']|] eqn:Hrun; [|reflexivity].
  apply PortFacts.select_index_in_range in Hrun. simpl in Hrun. lia.
Qed.


(** X7. The trimming of [prompt] is invisible to [parseInt]: the line as
    typed and the answer [prompt] resolves with parse to the same
    integer, or both to NaN. *)
Theorem parseInt_reads_through_the_trimming (question : string) (w : World)
    (answer : string) (w' : World) :
  prompt question w = Some (answer, w') ->
  exists line : string,
    input w = line :: input w' /\
    Str.parseInt answer = Str.parseInt line.
Proof.
  destruct w as [lines out]. unfold prompt. simpl.
  destruct lines as [|line rest]; [discriminate|]. intros [= <- <-]. simpl.
  exists line. split; [reflexivity|]. apply InputMore.parseInt_trim.
Qed.


(** X9. [confirm] takes one line and answers yes exactly when the first
    character after the leading white space is [y] or [Y]; anything
    else, an empty line among them, is a no. *)
Theorem confirm_is_yes_on_a_leading_y :
  forall (question line : string) (rest : list string) (out : list event),
  exists yes : bool,
    confirm question {| input := line :: rest; output := out |} =
      Some (yes, {| input := rest;
                    output := out ++ [Ask (question ++ " (y/n): ")%string] |}) /\
    (yes = true <->
     exists (c : ascii) (r : string),
       Str.trimStart line = String c r /\ (c = "y"%char \/ c = "Y"%char)).
Proof.
  intros question line rest out. eexists. split; [reflexivity|].
  rewrite InputMore.startsWith_y. split.
  - intros (c & r & Htrim & Hc).
    destruct (proj1 (InputMore.trim_first line c Hc) (ex_intro _ r Htrim))
      as [r' Hr'].
    eauto.
  - intros (c & r & Htrim & Hc).
    destruct (proj2 (InputMore.trim_first line c Hc) (ex_intro _ r Htrim))
      as [r' Hr'].
    eauto.
Qed.

End InputExtras.


Lemma parseInt_reads_through_two_blanks :
  exists line : string,
    [" 2 "]%string = line :: [] /\
    Str.parseInt "2" = Str.parseInt line.
Proof.
  apply (parseInt_reads_through_the_trimming "> "%string
           {| Input.input := [" 2 "]%string; Input.output := [] |}
           "2"%string
           {| Input.input := []; Input.output := [Input.Ask "> "%string] |}).
  reflexivity.
Defined.

(** ** Every order *)

Module RandomizerMore.

Import Randomizer RoundingFacts.

Local Open Scope Z_scope.

(** A positive integer below 2^53, scaled by a power of two of the
    normal range, is a Number. *)
Lemma binary_normalize_scaled (z ez : Z) :
  0 < z < 2 ^ 53 -> -1000 <= ez <= 900 ->
  exists (M : positive) (E : Z),
    binary_normalize 53 1024 z ez false = S754_finite false M E /\
    2 ^ 52 <= Z.pos M < 2 ^ 53 /\
    ez - 52 <= E <= ez /\
    Z.pos M = z * 2 ^ (ez - E).
Proof.
  intros Hz Hez. destruct z as [|p|p]; try lia.
  pose proof (digits2_pos_bounds p) as Hp.
  set (d := Z.pos (digits2_pos p)) in *.
  assert (Hd : 0 < d) by (unfold d; lia).
  assert (Hd53 : d <= 53).
  { destruct (Z.le_gt_cases d 53) as [H|H]; [exact H|].
    assert (2 ^ 53 <= 2 ^ (d - 1)) by (apply Z.pow_le_mono_r; lia). lia. }
  unfold binary_normalize, binary_round. fold d.
  rewrite fexp_normal by lia.
  unfold shl_align. replace (d + ez - 53 - ez) with (d - 53) by lia.
  destruct (d - 53) as [|k|k] eqn:Hk; try lia.
  - assert (Hd' : d = 53) by lia. rewrite Hd' in Hp.
    change (53 - 1) with 52 in Hp.
    rewrite binary_round_aux_exact by (try exact Hp; lia).
    exists p, ez. split; [reflexivity|]. split; [exact Hp|]. split; [lia|].
    rewrite Z.sub_diag. change (2 ^ 0) with 1. lia.
  - assert (Hshift : Z.pos (Pos.iter xO p k) = 2 ^ Z.pos k * Z.pos p)
      by apply (shift_pos_correct k p).
    assert (Hsplit : 2 ^ 53 = 2 ^ Z.pos k * 2 ^ d)
      by (rewrite <- Z.pow_add_r by lia; f_equal; lia).
    assert (Hsplit' : 2 ^ 52 = 2 ^ Z.pos k * 2 ^ (d - 1))
      by (rewrite <- Z.pow_add_r by lia; f_equal; lia).
    assert (Hk0 : 0 < 2 ^ Z.pos k) by (apply Z.pow_pos_nonneg; lia).
    assert (Hnorm : 2 ^ 52 <= Z.pos (Pos.iter xO p k) < 2 ^ 53)
      by (rewrite Hshift, Hsplit, Hsplit'; nia).
    rewrite binary_round_aux_exact by (try exact Hnorm; lia).
    exists (Pos.iter xO p k), (d + ez - 53).
    split; [reflexivity|]. split; [exact Hnorm|]. split; [lia|].
    rewrite Hshift. replace (ez - (d + ez - 53)) with (Z.pos k) by lia. ring.
Qed.

(** The draw made for [j] is a Number below [(j + 1/2) / (i + 1)], by
    less than [2^-53]. *)
Lemma draw_for_normal (i j : nat) :
  (j <= i)%nat -> Z.of_nat i < 2 ^ 32 ->
  exists (M : positive) (E : Z),
    Orders.draw_for i j = S754_finite false M E /\
    2 ^ 52 <= Z.pos M < 2 ^ 53 /\
    -105 <= E <= -53 /\
    Z.of_nat j * 2 ^ (- E) <= Z.pos M * Z.of_nat (i + 1) /\
    Z.pos M * Z.of_nat (i + 1) * 2 ^ 53
      <= (Z.of_nat j + 1) * (2 ^ 53 - 1) * 2 ^ (- E).
Proof.
  intros Hj Hi. unfold Orders.draw_for, Number.prec, Number.emax.
  set (n := Z.of_nat (i + 1)). set (X := (2 * Z.of_nat j + 1) * 2 ^ 52).
  assert (Hn : 0 < n <= 2 ^ 32) by (unfold n; lia).
  assert (HX : n <= X /\ X < 2 ^ 53 * n) by (unfold X, n; lia).
  pose proof (Z.mul_div_le X n ltac:(lia)) as Hfloor.
  pose proof (Z.mul_succ_div_gt X n ltac:(lia)) as Hceil.
  set (c := X / n) in *.
  assert (Hc : 0 < c < 2 ^ 53).
  { split.
    - apply Z.div_str_pos. lia.
    - apply Z.div_lt_upper_bound; lia. }
  destruct (binary_normalize_scaled c (-53) Hc ltac:(lia))
    as (M & E & Heq & HM & HE & Hval).
  exists M, E. split; [exact Heq|]. split; [exact HM|]. split; [lia|].
  set (P := 2 ^ (-53 - E)) in *.
  assert (HP : 0 < P) by (apply Z.pow_pos_nonneg; lia).
  assert (Hpow : 2 ^ (- E) = 2 ^ 53 * P).
  { unfold P. rewrite <- Z.pow_add_r by lia. f_equal. lia. }
  rewrite Hval, Hpow. split.
  - replace (Z.of_nat j * (2 ^ 53 * P)) with (Z.of_nat j * 2 ^ 53 * P) by ring.
    replace (c * P * n) with (c * n * P) by ring.
    apply Z.mul_le_mono_nonneg_r; [lia|]. unfold X in *. lia.
  - replace (c * P * n * 2 ^ 53) with (c * n * (2 ^ 53 * P)) by ring.
    apply Z.mul_le_mono_nonneg_r; [lia|]. unfold X in *. lia.
Qed.

Lemma draw_for_unit (i j : nat) :
  (j <= i)%nat -> Z.of_nat i < 2 ^ 32 ->
  valid_binary Number.prec Number.emax (Orders.draw_for i j) = true /\
  Number.ge (Orders.draw_for i j) (Number.of_Z 0) = true /\
  Number.lt (Orders.draw_for i j) (Number.of_Z 1) = true.
Proof.
  intros Hj Hi.
  destruct (draw_for_normal i j Hj Hi) as (M & E & -> & HM & HE & _).
  split; [|split].
  - cbn [valid_binary]. unfold bounded, canonical_mantissa.
    unfold Number.prec, Number.emax.
    rewrite (digits2_pos_unique M 53) by (try exact HM; lia).
    rewrite fexp_normal by lia.
    apply andb_true_intro. split; [apply Z.eqb_eq|apply Z.leb_le]; lia.
  - reflexivity.
  - unfold Number.lt, SFltb.
    change (Number.of_Z 1) with (S754_finite false 4503599627370496 (-52)).
    cbn [SFcompare].
    assert (Hcmp : (E ?= -52) = Lt) by (apply Z.compare_lt_iff; lia).
    now rewrite Hcmp.
Qed.

Lemma draw_for_index (random : nat -> Number.t) (k i j : nat) :
  random k = Orders.draw_for i j ->
  (j <= i)%nat -> Z.of_nat i < 2 ^ 32 ->
  index (draw random k i) = Some j.
Proof.
  intros Hk Hj Hi. unfold draw, Number.of_nat. rewrite Hk.
  destruct (draw_for_normal i j Hj Hi)
    as (M & E & -> & HM & HE & Hlow & Hhigh).
  destruct (FloorFacts.mul_floor_bracket M E (Z.of_nat (i + 1))
              (Z.of_nat j) (Z.of_nat j + 1)) as (z & Hz & Hrange);
    try lia.
  rewrite Hz. f_equal. lia.
Qed.

Section Orders.

Context {A : Type}.

(** The loop reads the draws from its call count on. *)
Lemma shuffle_loop_ext (random random' : nat -> Number.t) (i : nat)
    (l : list A) (k : nat) :
  (forall t, (k <= t)%nat -> random t = random' t) ->
  shuffle_loop random i l k = shuffle_loop random' i l k.
Proof.
  revert l k. induction i as [|i IH]; intros l k Hsame; [reflexivity|].
  simpl. unfold draw. rewrite (Hsame k) by lia.
  destruct (swap l (S i) _) as [l1|]; [|reflexivity].
  apply IH. intros t Ht. apply Hsame. lia.
Qed.

(** Exchanging two of the first [n] elements permutes the first [n]
    and leaves the others. *)
Lemma exchange_take (l : list A) (n i j : nat) (x y : A) :
  (i < n)%nat -> (j < n)%nat -> l !! i = Some x -> l !! j = Some y ->
  take n (<[j := x]> (<[i := y]> l)) ≡ₚ take n l.
Proof.
  intros Hi Hj Hx Hy. rewrite !take_insert_lt by lia.
  apply Permutation_insert_swap; now rewrite lookup_take_lt.
Qed.

Lemma exchange_drop (l : list A) (n i j : nat) (x y : A) :
  (i < n)%nat -> (j < n)%nat ->
  drop n (<[j := x]> (<[i := y]> l)) = drop n l.
Proof. intros Hi Hj. now rewrite !drop_insert_lt by lia. Qed.

Lemma exchange_lookup (l : list A) (i j : nat) (x y : A) :
  l !! i = Some x -> l !! j = Some y ->
  <[j := x]> (<[i := y]> l) !! i = Some y.
Proof.
  intros Hx Hy. apply lookup_lt_Some in Hx as Hi.
  destruct (decide (i = j)) as [->|Hne].
  - rewrite list_lookup_insert_eq by (rewrite length_insert; lia). congruence.
  - rewrite list_lookup_insert_ne by congruence.
    now rewrite list_lookup_insert_eq.
Qed.

(** From index [i] down, the loop can bring the first [i + 1] elements
    into any order. *)
Lemma shuffle_loop_reaches (i : nat) (l target : list A) (k : nat) :
  (i <= length l - 1)%nat ->
  Z.of_nat (length l) <= 2 ^ 32 ->
  take (S i) l ≡ₚ take (S i) target ->
  drop (S i) l = drop (S i) target ->
  exists random : nat -> Number.t,
    unit_interval random /\
    shuffle_loop random i l k = Some (target, (k + i)%nat).
Proof.
  revert l k. induction i as [|i IH]; intros l k Hi Hsize Htake Hdrop.
  - exists (fun _ => Number.of_Z 0).
    split; [intros t; repeat split|].
    simpl. rewrite Nat.add_0_r. do 2 f_equal.
    rewrite <- (take_drop 1 l), <- (take_drop 1 target), Hdrop. f_equal.
    destruct l as [|x l], target as [|y target]; simpl in *;
      try reflexivity.
    + apply Permutation_nil_l in Htake. discriminate.
    + symmetry in Htake. apply Permutation_nil_l in Htake. discriminate.
    + rewrite !take_0 in *. apply Permutation_singleton_l in Htake.
      congruence.
  - assert (Hlen : length l = length target).
    { rewrite <- (take_drop (S (S i)) l), <- (take_drop (S (S i)) target).
      rewrite !length_app, Hdrop. f_equal. now apply Permutation_length. }
    destruct (lookup_lt_is_Some_2 target (S i) ltac:(lia)) as [x Hx].
    destruct (lookup_lt_is_Some_2 l (S i) ltac:(lia)) as [y Hy].
    assert (Hin : x ∈ take (S (S i)) l).
    { rewrite Htake. apply (list_elem_of_lookup_2 _ (S i)).
      rewrite lookup_take_lt by lia. exact Hx. }
    apply list_elem_of_lookup_1 in Hin as [j Hj].
    apply lookup_take_Some in Hj as [Hj Hjlt].
    set (l' := <[j := y]> (<[S i := x]> l)).
    assert (Hl'x : l' !! S i = Some x) by now apply exchange_lookup.
    destruct (IH l' (S k)) as (random' & Hunit & Hrun).
    + unfold l'. rewrite !length_insert. lia.
    + unfold l'. rewrite !length_insert. exact Hsize.
    + pose proof (exchange_take l (S (S i)) (S i) j y x
                    ltac:(lia) Hjlt Hy Hj) as Hperm.
      fold l' in Hperm. rewrite Htake in Hperm.
      rewrite (take_S_r l' (S i) x Hl'x), (take_S_r target (S i) x Hx) in Hperm.
      now apply Permutation_app_inv_r in Hperm.
    + rewrite (drop_S l' x (S i) Hl'x), (drop_S target x (S i) Hx).
      f_equal. unfold l'. rewrite exchange_drop by lia. exact Hdrop.
    + set (random := fun t =>
             if (t =? k)%nat then Orders.draw_for (S i) j else random' t).
      exists random. split.
      * intros t. unfold random. destruct (t =? k)%nat; [|apply Hunit].
        apply draw_for_unit; lia.
      * simpl. unfold swap.
        rewrite (draw_for_index random k (S i) j)
          by (try lia; unfold random; now rewrite Nat.eqb_refl).
        rewrite Hj, Hy. fold l'.
        rewrite (shuffle_loop_ext random random').
        -- rewrite Hrun. do 2 f_equal. lia.
        -- intros t Ht. unfold random.
           destruct (Nat.eqb_spec t k); [lia|reflexivity].
Qed.

End Orders.

End RandomizerMore.

(** X10. Every order of the elements can come out of [shuffle]: for
    each permutation of an array there are Numbers that [Math.random]
    can return, at least 0 and below 1, for which [shuffle] returns a
    new array that holds it, after one draw less than there are
    elements. The bound is the size limit of JavaScript arrays. *)
Theorem shuffle_reaches_every_order {A : Type} (array : Randomizer.ref)
    (st : gmap Randomizer.ref (list A)) (input target : list A) (k : nat) :
  Z.of_nat (length input) < 2 ^ 32 ->
  st !! array = Some input ->
  target ≡ₚ input ->
  exists (random : nat -> Number.t) (result : Randomizer.ref)
         (st' : gmap Randomizer.ref (list A)),
    Randomizer.unit_interval random /\
    Randomizer.shuffle random array st k
      = Some (result, st', (k + (length input - 1))%nat) /\
    st' !! result = Some target /\
    st' !! array = Some input.
Proof.
  intros Hsize Harray Hperm.
  destruct (RandomizerMore.shuffle_loop_reaches (length input - 1) input
              target k) as (random & Hunit & Hrun).
  - lia.
  - lia.
  - apply Permutation_length in Hperm as Hlen.
    rewrite !take_ge by lia. now symmetry.
  - apply Permutation_length in Hperm as Hlen.
    rewrite !drop_ge by lia. reflexivity.
  - set (result := fresh (dom st)).
    assert (Hfresh : st !! result = None).
    { apply not_elem_of_dom. apply is_fresh. }
    assert (Hne : result <> array) by congruence.
    exists random, result, (<[result := target]> st).
    split; [exact Hunit|].
    unfold Randomizer.shuffle. fold result.
    rewrite (lookup_total_correct _ _ _ Harray).
    assert (Hcopy : <[result := input]> st !! result = Some input)
      by apply lookup_insert_eq.
    rewrite (lookup_total_correct _ _ _ Hcopy).
    rewrite (RandomizerFacts.shuffle_in_place_spec random _ _ _ input _ Hcopy).
    rewrite Hrun, insert_insert_eq.
    split; [reflexivity|]. split.
    + apply lookup_insert_eq.
    + now rewrite lookup_insert_ne.
Qed.

Lemma shuffle_reaches_the_reverse :
  exists (random : nat -> Number.t) (result : Randomizer.ref)
         (st' : gmap Randomizer.ref (list nat)),
    Randomizer.unit_interval random /\
    Randomizer.shuffle random 7%nat {[ 7%nat := [1; 2; 3]%nat ]} 0
      = Some (result, st', (0 + (3 - 1))%nat) /\
    st' !! result = Some [3; 2; 1]%nat /\
    st' !! 7%nat = Some [1; 2; 3]%nat.
Proof.
  apply (shuffle_reaches_every_order 7%nat {[ 7%nat := [1; 2; 3]%nat ]}
           [1; 2; 3]%nat [3; 2; 1]%nat 0).
  - vm_compute. reflexivity.
  - reflexivity.
  - apply Permutation_sym, (Permutation_rev [1; 2; 3]%nat).
Defined.

(** ** The game *)

Module MainFacts.

Import Session.

Local Open Scope string_scope.
Local Open Scope list_scope.
Local Open Scope nat_scope.

(** The second menu, by the size of the category. *)
Lemma countOptions_cases (maxQuestions : nat) :
  Main.countOptions maxQuestions =
    "All questions"
      :: (if 3 <=? maxQuestions then ["3 questions"] else [])
      ++ (if 5 <=? maxQuestions then ["5 questions"] else []).
Proof.
  unfold Main.countOptions.
  change (imap _ _)
    with [(0, "All questions"); (1, "3 questions"); (2, "5 questions")].
  rewrite !filter_cons, filter_nil. cbn [fst Main.offered].
  destruct (3 <=? maxQuestions), (5 <=? maxQuestions); reflexivity.
Qed.

(** What [askQuestion] keeps. *)
Lemma askQuestion_keeps (q : Quiz.t) (w : Input.World) (b : bool)
    (q' : Quiz.t) (w' : Input.World) :
  Quiz.askQuestion q w = Some (b, q', w') ->
  Quiz.questions q' = Quiz.questions q /\
  Quiz.categoryName q' = Quiz.categoryName q /\
  exists new, Quiz.answers q' = Quiz.answers q ++ new.
Proof.
  intros Hask. apply SessionFacts.askQuestion_inv in Hask
    as [(_ & _ & -> & _)|(cq & sel & Hcq & Hsel & Hsub)].
  - repeat split. exists []. now rewrite app_nil_r.
  - unfold Quiz.submitAnswer in Hsub. injection Hsub as _ <-. simpl.
    repeat split. eauto.
Qed.

Section Loop.

Variable random : nat -> Number.t.

(** When the loop ends, it ends on a complete session. *)
Lemma ask_all_inv (fuel : nat) (quiz : Quiz.t) (w : Input.World)
    (quiz' : Quiz.t) (w' : Input.World) :
  reachable random quiz ->
  Main.ask_all fuel quiz w = Some (quiz', w') ->
  reachable random quiz' /\
  Quiz.isComplete quiz' = true /\
  Quiz.questions quiz' = Quiz.questions quiz /\
  Quiz.categoryName quiz' = Quiz.categoryName quiz /\
  exists new, Quiz.answers quiz' = Quiz.answers quiz ++ new.
Proof.
  revert quiz w. induction fuel as [|fuel IH]; intros quiz w Hreach; simpl.
  - destruct (Quiz.isComplete quiz) eqn:Hdone; [|discriminate].
    intros [= <- <-]. repeat split; try assumption.
    exists []. now rewrite app_nil_r.
  - destruct (Quiz.isComplete quiz) eqn:Hdone.
    { intros [= <- <-]. repeat split; try assumption.
      exists []. now rewrite app_nil_r. }
    destruct (Quiz.askQuestion quiz w) as [[[b quiz1] w1]|] eqn:Hask;
      [|discriminate].
    pose proof (reachable_askQuestion random _ _ _ _ _ Hreach Hask) as Hreach1.
    destruct (askQuestion_keeps _ _ _ _ _ Hask) as (Hq & Hc & new1 & Ha).
    assert (Hnext : forall w2,
              Main.ask_all fuel quiz1 w2 = Some (quiz', w') ->
              reachable random quiz' /\
              Quiz.isComplete quiz' = true /\
              Quiz.questions quiz' = Quiz.questions quiz /\
              Quiz.categoryName quiz' = Quiz.categoryName quiz /\
              exists new, Quiz.answers quiz' = Quiz.answers quiz ++ new).
    { intros w2 Hrun.
      destruct (IH quiz1 w2 Hreach1 Hrun) as (Hr & Hd & Hq' & Hc' & new & Ha').
      repeat split; try assumption; try congruence.
      exists (new1 ++ new). now rewrite Ha', Ha, app_assoc. }
    destruct (Quiz.isComplete quiz1); [apply Hnext|].
    destruct (Input.pressEnter None w1) as [w2|]; [apply Hnext|discriminate].
Qed.

(** With [Math.random] keeping to its contract, [start] has an outcome
    as soon as [select] resolves. *)
Lemma start_resolves (category : Main.Category) (w : Input.World) (k : nat) :
  Randomizer.unit_interval random ->
  (Z.of_nat (length (Main.questions category)) < 2 ^ 32)%Z ->
  Main.start random category w k = None <->
  Input.select "How many questions?"
    (Main.countOptions (length (Main.questions category))) w = None.
Proof.
  intros contract Hsize. unfold Main.start.
  destruct (Input.select _ _ w) as [[selection w']|]; [|tauto].
  destruct (Input.value selection) as [countChoice|];
    [|split; discriminate].
  set (n := Main.questionCount countChoice (length (Main.questions category))).
  destruct (SessionFacts.constructor_defined random
              (take n (Main.questions category)) (Main.name category) k
              contract) as [q ->].
  - rewrite length_take. lia.
  - split; discriminate.
Qed.

End Loop.

(** [pressEnter] drops a line. *)
Lemma pressEnter_line (message : option string) (line : string)
    (rest : list string) (out : list Input.event) :
  exists out',
    Input.pressEnter message {| Input.input := line :: rest; Input.output := out |}
    = Some {| Input.input := rest; Input.output := out' |}.
Proof. eexists. reflexivity. Qed.

(** The loop on a script: one pick for each question left. *)
Lemma ask_all_script (pause : string) (picks : list nat) (fuel : nat)
    (quiz : Quiz.t) (rest : list string) (out : list Input.event) :
  Forall2 (fun pick cq => pick < length (Question.options cq)) picks
    (drop (Quiz.currentIndex quiz) (Quiz.questions quiz)) ->
  length picks <= fuel ->
  exists (quiz' : Quiz.t) (out' : list Input.event),
    Main.ask_all fuel quiz
      {| Input.input := Script.answers_for pause picks ++ rest;
         Input.output := out |}
    = Some (quiz', {| Input.input := rest; Input.output := out' |}) /\
    Quiz.isComplete quiz' = true /\
    Quiz.questions quiz' = Quiz.questions quiz /\
    Quiz.categoryName quiz' = Quiz.categoryName quiz /\
    Quiz.currentIndex quiz' = Quiz.currentIndex quiz + length picks /\
    Quiz.answers quiz' =
      Quiz.answers quiz
        ++ zip_with record
             (drop (Quiz.currentIndex quiz) (Quiz.questions quiz))
             (Z.of_nat <$> picks) /\
    Quiz.score quiz' =
      Quiz.score quiz
        + length (filter (fun a => Answer.isCorrect a = true)
                    (zip_with record
                       (drop (Quiz.currentIndex quiz) (Quiz.questions quiz))
                       (Z.of_nat <$> picks))).
Proof.
  revert fuel quiz out.
  induction picks as [|pick later IH]; intros fuel quiz out Hpicks Hfuel.
  - apply Forall2_nil_inv_l in Hpicks.
    assert (Hdone : Quiz.isComplete quiz = true).
    { apply (f_equal (@length Question.t)) in Hpicks.
      rewrite length_drop in Hpicks. simpl in Hpicks.
      unfold Quiz.isComplete, Quiz.totalQuestions. apply Nat.leb_le. lia. }
    exists quiz, out. rewrite Hpicks. simpl.
    destruct fuel; simpl; rewrite Hdone, app_nil_r, !Nat.add_0_r;
      repeat split.
  - apply Forall2_cons_inv_l in Hpicks as (cq & left & Hpick & Hlater & Hdrop).
    assert (Hcq : Quiz.questions quiz !! Quiz.currentIndex quiz = Some cq).
    { rewrite <- (Nat.add_0_r (Quiz.currentIndex quiz)), <- lookup_drop.
      now rewrite Hdrop. }
    assert (Hleft : drop (S (Quiz.currentIndex quiz)) (Quiz.questions quiz) = left).
    { rewrite (drop_S _ _ _ Hcq) in Hdrop. congruence. }
    assert (Hgo : Quiz.isComplete quiz = false).
    { apply SessionFacts.currentQuestion_in_progress.
      unfold Quiz.currentQuestion. rewrite Hcq. eauto. }
    destruct fuel as [|fuel]; [simpl in Hfuel; lia|].
    simpl in Hfuel.
    set (quiz1 := (Quiz.submitAnswer quiz cq (Z.of_nat pick)).2).
    assert (Hask : forall lines out0, exists out1,
              Quiz.askQuestion quiz
                {| Input.input := Str.of_nat (S pick) :: lines;
                   Input.output := out0 |}
              = Some ((Z.of_nat pick =? Question.answer cq)%Z, quiz1,
                      {| Input.input := lines; Input.output := out1 |})).
    { intros lines out0. eexists. unfold Quiz.askQuestion, Quiz.currentQuestion.
      rewrite Hcq, StrFacts.select_numeral by exact Hpick. reflexivity. }
    assert (Hlater1 :
      Forall2 (fun pick cq => pick < length (Question.options cq)) later
        (drop (Quiz.currentIndex quiz1) (Quiz.questions quiz1)))
      by (simpl; now rewrite Hleft).
    assert (Hfinish : forall out1,
      exists (quiz' : Quiz.t) (out' : list Input.event),
        Main.ask_all fuel quiz1
          {| Input.input := Script.answers_for pause later ++ rest;
             Input.output := out1 |}
        = Some (quiz', {| Input.input := rest; Input.output := out' |}) /\
        Quiz.isComplete quiz' = true /\
        Quiz.questions quiz' = Quiz.questions quiz /\
        Quiz.categoryName quiz' = Quiz.categoryName quiz /\
        Quiz.currentIndex quiz' = Quiz.currentIndex quiz + length (pick :: later) /\
        Quiz.answers quiz' =
          Quiz.answers quiz
            ++ zip_with record
                 (drop (Quiz.currentIndex quiz) (Quiz.questions quiz))
                 (Z.of_nat <$> pick :: later) /\
        Quiz.score quiz' =
          Quiz.score quiz
            + length (filter (fun a => Answer.isCorrect a = true)
                        (zip_with record
                           (drop (Quiz.currentIndex quiz) (Quiz.questions quiz))
                           (Z.of_nat <$> pick :: later)))).
    { intros out1.
      destruct (IH fuel quiz1 out1 Hlater1 ltac:(lia))
        as (quiz' & out' & Hrun & Hd & Hq & Hc & Hi & Ha & Hs).
      exists quiz', out'. split; [exact Hrun|]. split; [exact Hd|].
      split; [exact Hq|]. split; [exact Hc|].
      rewrite Hdrop, fmap_cons. cbn [zip_with].
      simpl in Hi, Ha, Hs. rewrite Hleft in Ha, Hs.
      split; [simpl; lia|]. split.
      - rewrite Ha, <- app_assoc. reflexivity.
      - rewrite Hs, filter_cons. unfold record at 3. simpl.
        destruct (Z.of_nat pick =? Question.answer cq)%Z; simpl; lia. }
    cbn [Main.ask_all]. rewrite Hgo.
    destruct later as [|pick' later'].
    + cbn [Script.answers_for app].
      destruct (Hask rest out) as [out1 ->].
      assert (Hdone1 : Quiz.isComplete quiz1 = true).
      { apply Forall2_nil_inv_l in Hlater1.
        apply (f_equal (@length Question.t)) in Hlater1.
        rewrite length_drop in Hlater1. simpl in Hlater1.
        unfold Quiz.isComplete, Quiz.totalQuestions. apply Nat.leb_le.
        simpl. lia. }
      rewrite Hdone1. apply (Hfinish out1).
    + change (Script.answers_for pause (pick :: pick' :: later'))
        with (Str.of_nat (S pick) :: pause
                :: Script.answers_for pause (pick' :: later')).
      cbn [app].
      destruct (Hask (pause :: Script.answers_for pause (pick' :: later') ++ rest)
                  out) as [out1 ->].
      assert (Hgo1 : Quiz.isComplete quiz1 = false).
      { apply Forall2_cons_inv_l in Hlater1 as (cq' & left' & _ & _ & Hdrop').
        apply (f_equal (@length Question.t)) in Hdrop'.
        rewrite length_drop in Hdrop'. simpl in Hdrop'.
        unfold Quiz.isComplete, Quiz.totalQuestions. apply Nat.leb_gt.
        simpl. lia. }
      rewrite Hgo1.
      destruct (pressEnter_line None pause
                  (Script.answers_for pause (pick' :: later') ++ rest) out1)
        as [out2 ->].
      apply (Hfinish out2).
Qed.

End MainFacts.

Section GameExtras.

Import Session.

Variable random : nat -> Number.t.

Local Open Scope string_scope.
Local Open Scope list_scope.
Local Open Scope nat_scope.

(** X11. The second menu always offers all the questions, offers three
    when the category has three at least, and five when it has five at
    least. Whatever is chosen, the quiz is made, without an exception,
    of the first questions of the category: all of them for the first
    label, three for the second, five for the third, and never more
    than the category has. *)
Theorem start_takes_no_more_than_the_category_has (category : Main.Category)
    (w : Input.World) (k : nat)
    (outcome : completion (Quiz.t * nat)) (w' : Input.World) :
  Main.start random category w k = Some (outcome, w') ->
  let maxQuestions := length (Main.questions category) in
  Main.countOptions maxQuestions =
    "All questions"
      :: (if 3 <=? maxQuestions then ["3 questions"] else [])
      ++ (if 5 <=? maxQuestions then ["5 questions"] else []) /\
  exists (selection : Input.Selection) (quiz : Quiz.t) (k' : nat),
    Input.select "How many questions?" (Main.countOptions maxQuestions) w
      = Some (selection, w') /\
    outcome = Returns (quiz, k') /\
    Quiz.constructor random
      (take (Script.asked_for (Input.index selection) maxQuestions)
         (Main.questions category))
      (Main.name category) k = Some (quiz, k') /\
    Script.asked_for (Input.index selection) maxQuestions <= maxQuestions /\
    Quiz.totalQuestions quiz
      = Script.asked_for (Input.index selection) maxQuestions /\
    Quiz.questions quiz
      ≡ₚ take (Script.asked_for (Input.index selection) maxQuestions)
           (Main.questions category) /\
    Quiz.categoryName quiz = Main.name category.
Proof.
  intros Hstart maxQuestions.
  pose proof (MainFacts.countOptions_cases maxQuestions) as Hmenu.
  split; [exact Hmenu|].
  unfold Main.start in Hstart. fold maxQuestions in Hstart.
  destruct (Input.select "How many questions?"
              (Main.countOptions maxQuestions) w)
    as [[selection w1]|] eqn:Hsel; [|discriminate].
  pose proof Hsel as Hrun. rewrite PortFacts.select_unfold in Hrun.
  apply PortFacts.select_loop_inv in Hrun
    as (_ & _ & _ & _ & _ & Hrange & Hvalue & _).
  apply PortFacts.in_range_bounds in Hrange.
  set (n := Script.asked_for (Input.index selection) maxQuestions).
  assert (Hchoice :
    exists countChoice,
      Input.value selection = Some countChoice /\
      Main.questionCount countChoice maxQuestions = n /\ n <= maxQuestions).
  { rewrite Hvalue. unfold Input.get, n, Script.asked_for.
    rewrite Hmenu in Hrange |- *.
    destruct (Input.index selection) as [|p|p] eqn:Hindex; [| |lia].
    - exists "All questions".
      split; [reflexivity|]. split; [reflexivity|simpl; lia].
    - destruct (3 <=? maxQuestions) eqn:H3.
      + apply Nat.leb_le in H3.
        destruct (5 <=? maxQuestions) eqn:H5.
        * apply Nat.leb_le in H5. simpl in Hrange.
          assert (Hp : p = 1%positive \/ p = 2%positive) by lia.
          destruct Hp as [-> | ->].
          -- exists "3 questions".
             split; [reflexivity|]. split; [reflexivity|simpl; lia].
          -- exists "5 questions".
             split; [reflexivity|]. split; [reflexivity|simpl; lia].
        * simpl in Hrange. assert (p = 1%positive) by lia. subst p.
          exists "3 questions".
          split; [reflexivity|]. split; [reflexivity|simpl; lia].
      + destruct (5 <=? maxQuestions) eqn:H5.
        * apply Nat.leb_le in H5. apply Nat.leb_gt in H3. lia.
        * simpl in Hrange. lia. }
  destruct Hchoice as (countChoice & Hlabel & Hcount & Hle).
  rewrite Hlabel, Hcount in Hstart.
  destruct (Quiz.constructor random (take n (Main.questions category))
              (Main.name category) k) as [[quiz k']|] eqn:Hnew;
    [|discriminate].
  injection Hstart as <- <-.
  exists selection, quiz, k'.
  split; [reflexivity|]. split; [reflexivity|]. split; [exact Hnew|].
  split; [exact Hle|].
  apply SessionFacts.constructor_inv in Hnew as (shuffled & Hloop & ->).
  apply RandomizerFacts.shuffle_loop_Permutation in Hloop as Hperm.
  unfold Quiz.totalQuestions. simpl.
  split; [|split; [exact Hperm|reflexivity]].
  rewrite Hperm, length_take. fold maxQuestions. lia.
Qed.

(** X12. When the loop of the game ends, on a reachable quiz, it ends
    on a complete quiz that is reachable too: the same questions and
    category, the position at the number of questions, one record for
    each question, the records there were at the head of the log. *)
Theorem play_ends_on_a_complete_quiz (quiz : Quiz.t) (w : Input.World)
    (quiz' : Quiz.t) (w' : Input.World) :
  reachable random quiz ->
  Main.play quiz w = Some (quiz', w') ->
  reachable random quiz' /\
  Quiz.isComplete quiz' = true /\
  Quiz.currentQuestion quiz' = None /\
  Quiz.questions quiz' = Quiz.questions quiz /\
  Quiz.categoryName quiz' = Quiz.categoryName quiz /\
  Quiz.currentIndex quiz' = Quiz.totalQuestions quiz /\
  length (Quiz.answers quiz') = Quiz.totalQuestions quiz /\
  exists new, Quiz.answers quiz' = Quiz.answers quiz ++ new.
Proof.
  intros Hreach Hplay. unfold Main.play in Hplay.
  destruct (Input.pressEnter None w) as [w1|]; [|discriminate].
  destruct (MainFacts.ask_all_inv random _ _ _ _ _ Hreach Hplay)
    as (Hreach' & Hdone & Hq & Hc & Hnew).
  pose proof (SessionFacts.reachable_bounds random quiz' Hreach') as [_ Hpos].
  pose proof (SessionMore.recorded_length quiz'
                (SessionFacts.reachable_recorded random quiz' Hreach') Hpos)
    as Hlen.
  assert (Hindex : Quiz.currentIndex quiz' = Quiz.totalQuestions quiz).
  { unfold Quiz.isComplete in Hdone. apply Nat.leb_le in Hdone.
    unfold Quiz.totalQuestions in *. rewrite <- Hq. lia. }
  repeat split; try assumption.
  - now apply SessionFacts.currentQuestion_complete.
  - now rewrite Hlen.
Qed.

(** X13. A player who types a line, then for each question left the
    number of one of its options, and a line between two questions,
    plays the quiz to its end: the loop takes exactly these lines, logs
    the record of each pick beside those there were, and adds to the
    score the picks that are right. *)
Theorem play_follows_the_script (quiz : Quiz.t) (pause : string)
    (picks : list nat) (rest : list string) (out : list Input.event) :
  Forall2 (fun pick cq => pick < length (Question.options cq)) picks
    (drop (Quiz.currentIndex quiz) (Quiz.questions quiz)) ->
  exists (quiz' : Quiz.t) (out' : list Input.event),
    Main.play quiz
      {| Input.input := pause :: Script.answers_for pause picks ++ rest;
         Input.output := out |}
    = Some (quiz', {| Input.input := rest; Input.output := out' |}) /\
    Quiz.isComplete quiz' = true /\
    Quiz.questions quiz' = Quiz.questions quiz /\
    Quiz.categoryName quiz' = Quiz.categoryName quiz /\
    Quiz.currentIndex quiz' = Quiz.currentIndex quiz + length picks /\
    Quiz.answers quiz' =
      Quiz.answers quiz
        ++ zip_with record
             (drop (Quiz.currentIndex quiz) (Quiz.questions quiz))
             (Z.of_nat <$> picks) /\
    Quiz.score quiz' =
      Quiz.score quiz
        + length (filter (fun a => Answer.isCorrect a = true)
                    (zip_with record
                       (drop (Quiz.currentIndex quiz) (Quiz.questions quiz))
                       (Z.of_nat <$> picks))).
Proof.
  intros Hpicks. unfold Main.play.
  destruct (MainFacts.pressEnter_line None pause
              (Script.answers_for pause picks ++ rest) out) as [out1 ->].
  apply MainFacts.ask_all_script; [exact Hpicks|].
  apply Forall2_length in Hpicks. rewrite length_drop in Hpicks.
  unfold Quiz.totalQuestions. lia.
Qed.

(** X17. A question without options stops the game: while it is the
    current question [askQuestion] never resolves, whatever is typed,
    and the loop of the game never ends. *)
Theorem question_without_options_blocks_the_game (quiz : Quiz.t)
    (cq : Question.t) :
  Quiz.currentQuestion quiz = Some cq ->
  Question.options cq = [] ->
  forall w : Input.World,
    Quiz.askQuestion quiz w = None /\ Main.play quiz w = None.
Proof.
  intros Hcq Hnone w.
  assert (Hask : forall w0, Quiz.askQuestion quiz w0 = None).
  { intros w0. unfold Quiz.askQuestion. rewrite Hcq, Hnone.
    destruct (Input.select _ [] w0) as [[sel w1]|] eqn:Hsel; [|reflexivity].
    apply PortFacts.select_index_in_range in Hsel. simpl in Hsel. lia. }
  split; [apply Hask|].
  assert (Hgo : Quiz.isComplete quiz = false).
  { apply SessionFacts.currentQuestion_in_progress. rewrite Hcq. eauto. }
  unfold Main.play. destruct (Input.pressEnter None w) as [w1|]; [|reflexivity].
  destruct (Quiz.totalQuestions quiz - Quiz.currentIndex quiz) as [|fuel];
    simpl; rewrite Hgo; [reflexivity|]. now rewrite Hask.
Qed.

(** X18. A game played to its end shows its results: for the quiz
    that [start] made of a category, once the loop has ended,
    [showResults] returns, with the name of the category, a total that
    is the number of questions of the quiz and at most that of the
    category, a score that is the number of right answers and at most
    the total, and a review of as many entries as answers were wrong. *)
Theorem game_ends_with_the_results (category : Main.Category)
    (w : Input.World) (k : nat) (quiz : Quiz.t) (k' : nat) (w1 : Input.World)
    (quiz' : Quiz.t) (w2 : Input.World) :
  Main.start random category w k = Some (Returns (quiz, k'), w1) ->
  Main.play quiz w1 = Some (quiz', w2) ->
  exists results : Quiz.Results,
    Quiz.showResults quiz' = Returns results /\
    Quiz.category results = Main.name category /\
    Quiz.total results = Quiz.totalQuestions quiz /\
    Quiz.total results <= length (Main.questions category) /\
    Quiz.scored results
      = length (filter (fun a => Answer.isCorrect a = true)
                  (Quiz.answers quiz')) /\
    Quiz.scored results <= Quiz.total results /\
    length (Quiz.answers quiz') = Quiz.total results /\
    length (Quiz.review results) = Quiz.total results - Quiz.scored results.
Proof.
  intros Hstart Hplay.
  unfold Main.start in Hstart.
  destruct (Input.select _ _ w) as [[selection w0]|]; [|discriminate].
  destruct (Input.value selection) as [countChoice|]; [|discriminate].
  set (n := Main.questionCount countChoice (length (Main.questions category)))
    in Hstart.
  destruct (Quiz.constructor random (take n (Main.questions category))
              (Main.name category) k) as [made|] eqn:Hnew; [|discriminate].
  injection Hstart as -> <-.
  assert (Hreach : reachable random quiz)
    by (eapply reachable_constructor, Hnew).
  assert (Hmade : Quiz.categoryName quiz = Main.name category /\
                  Quiz.totalQuestions quiz <= length (Main.questions category)).
  { apply SessionFacts.constructor_inv in Hnew as (shuffled & Hloop & ->).
    apply RandomizerFacts.shuffle_loop_Permutation in Hloop as Hperm.
    unfold Quiz.totalQuestions. simpl.
    split; [reflexivity|]. rewrite Hperm, length_take. lia. }
  destruct Hmade as [Hname Hsize].
  unfold Main.play in Hplay.
  destruct (Input.pressEnter None w0) as [w3|]; [|discriminate].
  destruct (MainFacts.ask_all_inv random _ _ _ _ _ Hreach Hplay)
    as (Hreach' & Hdone & Hq & Hc & _).
  pose proof (SessionFacts.reachable_recorded random quiz' Hreach') as Hrec.
  pose proof (SessionFacts.reachable_bounds random quiz' Hreach')
    as [Hscore Hpos].
  pose proof (SessionMore.recorded_length quiz' Hrec Hpos) as Hlen.
  pose proof (SessionMore.reachable_score random quiz' Hreach') as Hcount.
  pose proof (SessionMore.filter_split (Quiz.answers quiz')) as Hsplit.
  assert (Htotal : Quiz.totalQuestions quiz' = Quiz.totalQuestions quiz)
    by (unfold Quiz.totalQuestions; now rewrite Hq).
  assert (Hindex : Quiz.currentIndex quiz' = Quiz.totalQuestions quiz).
  { unfold Quiz.isComplete in Hdone. apply Nat.leb_le in Hdone. lia. }
  destruct (ResultsFacts.showResults_returns quiz' Hrec) as [results Hresults].
  destruct (ResultsFacts.showResults_inv quiz' results Hresults)
    as (Hcat & Hscored & Htot & _ & _ & Hreview).
  apply SessionMore.review_entries_length in Hreview.
  exists results. rewrite Hcat, Hscored, Htot, Hreview.
  repeat split; try congruence; lia.
Qed.

End GameExtras.

Lemma start_takes_the_two_questions :
  exists (outcome : completion (Quiz.t * nat)) (w' : Input.World),
    Games.started = Some (outcome, w') /\
    Main.countOptions 2 = ["All questions"%string] /\
    exists (selection : Input.Selection) (quiz : Quiz.t) (k' : nat),
      Input.select "How many questions?" (Main.countOptions 2)
        (Samples.typing ["1"%string]) = Some (selection, w') /\
      outcome = Returns (quiz, k') /\
      Quiz.constructor Samples.halves
        (take (Script.asked_for (Input.index selection) 2)
           [Samples.capital; Samples.planet])
        "General" 0 = Some (quiz, k') /\
      (Script.asked_for (Input.index selection) 2 <= 2)%nat /\
      Quiz.totalQuestions quiz = Script.asked_for (Input.index selection) 2 /\
      Quiz.questions quiz
        ≡ₚ take (Script.asked_for (Input.index selection) 2)
             [Samples.capital; Samples.planet] /\
      Quiz.categoryName quiz = "General"%string.
Proof.
  destruct Games.started as [[outcome w']|] eqn:Hrun;
    [|vm_compute in Hrun; discriminate].
  exists outcome, w'. split; [reflexivity|].
  apply (start_takes_no_more_than_the_category_has Samples.halves
           Games.general (Samples.typing ["1"%string]) 0 outcome w').
  exact Hrun.
Defined.

Lemma play_ends_after_two_questions :
  exists (quiz' : Quiz.t) (w' : Input.World),
    Games.played = Some (quiz', w') /\
    Session.reachable Samples.halves quiz' /\
    Quiz.isComplete quiz' = true /\
    Quiz.currentQuestion quiz' = None /\
    Quiz.questions quiz' = Quiz.questions Samples.fresh_pair /\
    Quiz.categoryName quiz' = Quiz.categoryName Samples.fresh_pair /\
    Quiz.currentIndex quiz' = Quiz.totalQuestions Samples.fresh_pair /\
    length (Quiz.answers quiz') = Quiz.totalQuestions Samples.fresh_pair /\
    exists new, Quiz.answers quiz' = Quiz.answers Samples.fresh_pair ++ new.
Proof.
  destruct Games.played as [[quiz' w']|] eqn:Hrun;
    [|vm_compute in Hrun; discriminate].
  exists quiz', w'. split; [reflexivity|].
  apply (play_ends_on_a_complete_quiz Samples.halves Samples.fresh_pair
           (Samples.typing [""; "1"; "go on"; "x"; "7"; "3"]%string) quiz' w').
  - exact SessionFacts.fresh_pair_reachable.
  - exact Hrun.
Defined.

Lemma play_follows_two_picks :
  exists (quiz' : Quiz.t) (out' : list Input.event),
    Main.play Samples.fresh_pair
      {| Input.input :=
           ""%string :: Script.answers_for "" [0; 2]%nat ++ ["y"%string];
         Input.output := [] |}
    = Some (quiz', {| Input.input := ["y"%string]; Input.output := out' |}) /\
    Quiz.isComplete quiz' = true /\
    Quiz.questions quiz' = Quiz.questions Samples.fresh_pair /\
    Quiz.categoryName quiz' = Quiz.categoryName Samples.fresh_pair /\
    Quiz.currentIndex quiz'
      = (Quiz.currentIndex Samples.fresh_pair + length [0; 2]%nat)%nat /\
    Quiz.answers quiz' =
      Quiz.answers Samples.fresh_pair
        ++ zip_with Session.record
             (drop (Quiz.currentIndex Samples.fresh_pair)
                (Quiz.questions Samples.fresh_pair))
             (Z.of_nat <$> [0; 2]%nat) /\
    Quiz.score quiz' =
      (Quiz.score Samples.fresh_pair
       + length (filter (fun a => Answer.isCorrect a = true)
                   (zip_with Session.record
                      (drop (Quiz.currentIndex Samples.fresh_pair)
                         (Quiz.questions Samples.fresh_pair))
                      (Z.of_nat <$> [0; 2]%nat))))%nat.
Proof.
  apply (play_follows_the_script Samples.fresh_pair ""%string [0; 2]%nat
           ["y"%string] []).
  change (Forall2 (fun pick cq => (pick < length (Question.options cq))%nat)
            [0; 2]%nat [Samples.capital; Samples.planet]).
  repeat constructor.
Defined.

Lemma question_without_options_blocks_at_once :
  Quiz.askQuestion Games.stuck (Samples.typing ["1"%string]) = None /\
  Main.play Games.stuck (Samples.typing ["1"%string]) = None.
Proof.
  apply (question_without_options_blocks_the_game Games.stuck Games.mute);
    reflexivity.
Defined.

Lemma game_of_two_questions_ends_with_the_results :
  exists (quiz : Quiz.t) (k' : nat) (w1 : Input.World)
         (quiz' : Quiz.t) (w2 : Input.World),
    Main.start Samples.halves Games.general
      (Samples.typing ["1"; ""; "2"; ""; "2"]%string) 0
      = Some (Returns (quiz, k'), w1) /\
    Main.play quiz w1 = Some (quiz', w2) /\
    exists results : Quiz.Results,
      Quiz.showResults quiz' = Returns results /\
      Quiz.category results = Main.name Games.general /\
      Quiz.total results = Quiz.totalQuestions quiz /\
      (Quiz.total results <= length (Main.questions Games.general))%nat /\
      Quiz.scored results
        = length (filter (fun a => Answer.isCorrect a = true)
                    (Quiz.answers quiz')) /\
      (Quiz.scored results <= Quiz.total results)%nat /\
      length (Quiz.answers quiz') = Quiz.total results /\
      length (Quiz.review results)
        = (Quiz.total results - Quiz.scored results)%nat.
Proof.
  eexists _, _, _, _, _.
  split; [vm_compute; reflexivity|]. split; [vm_compute; reflexivity|].
  eapply (game_ends_with_the_results Samples.halves Games.general
            (Samples.typing ["1"; ""; "2"; ""; "2"]%string) 0);
    vm_compute; reflexivity.
Defined.

(** ** Rounding a scaled quotient *)

Module ScalingFacts.

Import RoundingFacts.

Local Open Scope Z_scope.

(** Two roundings of relative error 2^-53 cannot carry [c * a / b],
    for integers [b] below 2^32 and [c] up to 100, across a
    half-integer. *)
Lemma nearest_after_scaling (c a b n T P Q A1 C : Z) :
  0 < c <= 100 -> 0 <= a <= b -> 0 < b < 2 ^ 32 ->
  0 < T -> 0 < P -> 0 < Q -> 0 < C ->
  2 ^ 53 * Z.abs (Q * b - A1) <= Q * b ->
  2 ^ 53 * Z.abs (P - C * Q) <= P ->
  C * A1 = c * a * T ->
  2 * T * n <= 2 * P + T < 2 * T * (n + 1) ->
  2 * Z.abs (n * b - c * a) <= b /\ 0 <= n <= c.
Proof.
  intros Hc Ha Hb HT HP HQ HC H1 H2 H4 H3.
  set (E := 2 ^ 53) in *.
  assert (HE : E = 9007199254740992) by reflexivity.
  assert (H232 : 2 ^ 32 = 4294967296) by reflexivity.
  assert (Hsplit : P * b - c * a * T = (P - C * Q) * b + C * (Q * b - A1))
    by (rewrite <- H4; ring).
  assert (HCQ : E * (C * Q) <= (E + 1) * P) by lia.
  assert (H5 : E * Z.abs (C * (Q * b - A1)) <= C * (Q * b)).
  { rewrite Z.abs_mul, (Z.abs_eq C) by lia.
    replace (E * (C * Z.abs (Q * b - A1)))
      with (C * (E * Z.abs (Q * b - A1))) by ring.
    apply Z.mul_le_mono_nonneg_l; lia. }
  assert (H6 : E * Z.abs ((P - C * Q) * b) <= P * b).
  { rewrite Z.abs_mul, (Z.abs_eq b) by lia.
    replace (E * (Z.abs (P - C * Q) * b))
      with (E * Z.abs (P - C * Q) * b) by ring.
    apply Z.mul_le_mono_nonneg_r; lia. }
  assert (HCQb : E * (C * (Q * b)) <= (E + 1) * (P * b)).
  { replace (E * (C * (Q * b))) with (E * (C * Q) * b) by ring.
    replace ((E + 1) * (P * b)) with ((E + 1) * P * b) by ring.
    apply Z.mul_le_mono_nonneg_r; lia. }
  assert (H7 : E * (E * Z.abs (P * b - c * a * T)) <= (2 * E + 1) * (P * b)).
  { rewrite Hsplit.
    pose proof (Z.abs_triangle ((P - C * Q) * b) (C * (Q * b - A1))) as Htri.
    set (u := Z.abs ((P - C * Q) * b)) in *.
    set (v := Z.abs (C * (Q * b - A1))) in *.
    set (t := Z.abs ((P - C * Q) * b + C * (Q * b - A1))) in *.
    set (x := C * (Q * b)) in *. set (y := P * b) in *.
    assert (E * (E * t) <= E * (E * u) + E * (E * v)) by lia.
    assert (E * (E * u) <= E * y) by (apply Z.mul_le_mono_nonneg_l; lia).
    assert (E * (E * v) <= E * x) by (apply Z.mul_le_mono_nonneg_l; lia).
    lia. }
  (* the products of the bounds *)
  assert (HcT : c * T <= 100 * T) by (apply Z.mul_le_mono_nonneg_r; lia).
  assert (HaT : a * (c * T) <= b * (c * T))
    by (apply Z.mul_le_mono_nonneg_r; lia).
  assert (HcTb : c * T * b <= 100 * T * b)
    by (apply Z.mul_le_mono_nonneg_r; lia).
  assert (HTb : T * b <= T * 2 ^ 32) by (apply Z.mul_le_mono_nonneg_l; lia).
  (* P <= (c + 1) T *)
  assert (H8 : P <= (c + 1) * T).
  { assert (Hd : E * (E * (P * b - c * a * T)) <= (2 * E + 1) * (P * b)) by lia.
    assert (Hc1 : (E * E - 2 * E - 1) * P * b <= E * E * (c * T) * b).
    { replace (E * E * (c * T) * b) with (E * E * (b * (c * T))) by ring.
      replace (c * a * T) with (a * (c * T)) in Hd by ring.
      assert (E * E * (a * (c * T)) <= E * E * (b * (c * T)))
        by (apply Z.mul_le_mono_nonneg_l; lia).
      lia. }
    assert (Hc2 : (E * E - 2 * E - 1) * P <= E * E * (c * T)).
    { apply Z.mul_le_mono_pos_r with b; lia. }
    rewrite HE in Hc2. lia. }
  (* the distance to the exact value, scaled by T *)
  assert (H9 : E * E * (2 * Z.abs (P * b - c * a * T)) < E * E * T).
  { assert (P * b <= (c + 1) * T * b) by (apply Z.mul_le_mono_nonneg_r; lia).
    assert ((c + 1) * T * b <= 101 * (T * 2 ^ 32)).
    { replace ((c + 1) * T * b) with (c * T * b + T * b) by ring. lia. }
    assert (0 < E * E * T) by (rewrite HE; lia).
    rewrite H232 in *. rewrite HE in *. lia. }
  assert (H10 : 2 * Z.abs (P * b - c * a * T) < T).
  { apply Z.mul_lt_mono_pos_l with (E * E); lia. }
  (* the floor of Math.round, scaled by b *)
  assert (Hn1 : 2 * T * n * b <= (2 * P + T) * b)
    by (apply Z.mul_le_mono_nonneg_r; lia).
  assert (Hn2 : (2 * P + T) * b < 2 * T * (n + 1) * b)
    by (apply Z.mul_lt_mono_pos_r; lia).
  assert (Hup : T * (2 * (n * b - c * a)) < T * (b + 1)) by lia.
  assert (Hlo : T * (- (b + 1)) < T * (2 * (n * b - c * a))) by lia.
  apply Z.mul_lt_mono_pos_l in Hup; [|exact HT].
  apply Z.mul_lt_mono_pos_l in Hlo; [|exact HT].
  assert (Hnear : 2 * Z.abs (n * b - c * a) <= b) by lia.
  split; [exact Hnear|].
  assert (Hca : c * a <= c * b) by (apply Z.mul_le_mono_nonneg_l; lia).
  assert (Hca0 : 0 <= c * a) by (apply Z.mul_nonneg_nonneg; lia).
  assert (Hnc : n * b < (c + 1) * b) by lia.
  assert (Hn0 : -1 * b < n * b) by lia.
  apply Z.mul_lt_mono_pos_r in Hnc; [|lia].
  apply Z.mul_lt_mono_pos_r in Hn0; [|lia].
  lia.
Qed.

(** A mantissa of a scale up to 100 sits at 2^46 at least. *)
Lemma scale_exponent (c s : Z) :
  0 < c <= 100 -> 0 <= s -> 2 ^ 52 <= c * 2 ^ s -> 46 <= s.
Proof.
  intros Hc Hs Hnormal.
  destruct (Z_le_gt_dec 46 s) as [Hle|Hgt]; [exact Hle|exfalso].
  assert (Hpow : 2 ^ s <= 2 ^ 45) by (apply Z.pow_le_mono_r; lia).
  assert (Hpos : 0 < 2 ^ s) by (apply Z.pow_pos_nonneg; lia).
  assert (c * 2 ^ s <= 100 * 2 ^ s) by (apply Z.mul_le_mono_nonneg_r; lia).
  change (2 ^ 45) with 35184372088832 in Hpow.
  change (2 ^ 52) with 4503599627370496 in Hnormal. lia.
Qed.

(** [Math.round((a / b) * c)] on positive integers, step by step. *)
Lemma scaled_traced (a b c : nat) :
  (0 < a <= b)%nat -> Z.of_nat b < 2 ^ 32 -> (0 < c <= 100)%nat ->
  exists n : Z,
    Number.Math_round
      (Number.mul (Number.div (Number.of_nat a) (Number.of_nat b))
         (Number.of_nat c)) = Number.of_Z n /\
    Scaling.scaled_trace (Z.of_nat c) (Z.of_nat a) (Z.of_nat b) n.
Proof.
  intros Hab Hb32 Hc.
  assert (H53 : 2 ^ 32 < 2 ^ 53) by reflexivity.
  destruct (NumberFacts.of_nat_normal b ltac:(lia) ltac:(lia))
    as (Mb & Eb & Hofb & HMb & HEb & HvMb).
  destruct (NumberFacts.of_nat_normal a ltac:(lia) ltac:(lia))
    as (Ma & Ea & Hofa & HMa & HEa & HvMa).
  destruct (NumberFacts.of_nat_normal c ltac:(lia) ltac:(lia))
    as (Mc & Ec & Hofc & HMc & HEc & HvMc).
  assert (Hs : 46 <= - Ec).
  { apply (scale_exponent (Z.of_nat c)); [lia|lia|]. rewrite <- HvMc. lia. }
  rewrite Hofb, Hofa, Hofc.
  assert (HEab : Ea <= Eb).
  { apply (NumberFacts.exponent_monotone (Z.of_nat a) (Z.of_nat b)
             (Z.pos Ma) (Z.pos Mb)); try assumption; lia. }
  destruct (SFdiv_normal Ma Mb Ea Eb HMa HMb ltac:(lia) ltac:(lia))
    as (Mq & Eq & Hdiv & HMq & Hk1 & Hq).
  unfold Number.div, Number.prec, Number.emax. rewrite Hdiv.
  destruct (SFmul_normal Mq Mc Eq Ec HMq HMc ltac:(lia) ltac:(lia))
    as (Mp & Ep & Hmul & HMp & Hk2 & Hp).
  unfold Number.mul, Number.prec, Number.emax. rewrite Hmul.
  unfold Number.Math_round.
  destruct (0 <=? Ep) eqn:HEp; [apply Z.leb_le in HEp; lia|].
  apply Z.leb_gt in HEp. cbn [Number.signed].
  set (n := (2 * Z.pos Mp + 2 ^ (- Ep)) / 2 ^ (1 - Ep)).
  exists n. split.
  { destruct (n =? 0) eqn:Hn0; [|reflexivity].
    apply Z.eqb_eq in Hn0. rewrite Hn0. reflexivity. }
  exists (Z.pos Mq), (Z.pos Mp), (Z.pos Mb), (Z.pos Ma), (Z.pos Mc),
    (Eb - Ea), (Eq - (Ea - Eb - 53)), (Ep - (Eq + Ec)), (- Ec).
  repeat match goal with |- _ /\ _ => split end;
    try assumption; try lia.
  - rewrite HvMa, HvMb.
    replace (2 ^ (- Ea)) with (2 ^ (- Eb) * 2 ^ (Eb - Ea))
      by (rewrite <- Z.pow_add_r by lia; f_equal; lia).
    ring.
  - replace (53 + - Ec + (Eb - Ea) - (Eq - (Ea - Eb - 53)) - (Ep - (Eq + Ec)))
      with (- Ep) by lia.
    replace (54 + - Ec + (Eb - Ea) - (Eq - (Ea - Eb - 53)) - (Ep - (Eq + Ec)))
      with (1 - Ep) by lia.
    reflexivity.
Qed.

(** The trace keeps the integer within one half of the exact value. *)
Lemma scaled_trace_nearest (c a b n : Z) :
  0 < c <= 100 -> 0 < a <= b -> b < 2 ^ 32 ->
  Scaling.scaled_trace c a b n ->
  0 <= n <= c /\ 2 * Z.abs (n * b - c * a) <= b.
Proof.
  intros Hc Hab Hb32
    (Mq & Mp & X & Y & Mc & j & k1 & k2 & s & Hj & Hk1 & Hk2 & Hs & HX & HY
       & HMq & HMp & HMc & Hscale & Hq & Hp & Hn).
  set (K1 := 2 ^ k1) in *. set (K2 := 2 ^ k2) in *. set (J := 2 ^ j) in *.
  set (S := 2 ^ s) in *.
  set (g := 53 + s + j - k1 - k2) in *.
  replace (54 + s + j - k1 - k2) with (1 + g) in Hn by (unfold g; lia).
  assert (Hg : 0 <= g) by (unfold g; lia).
  rewrite Z.pow_add_r in Hn by lia. change (2 ^ 1) with 2 in Hn.
  set (G := 2 ^ g) in *.
  assert (HK1 : 0 < K1) by (apply Z.pow_pos_nonneg; lia).
  assert (HK2 : 0 < K2) by (apply Z.pow_pos_nonneg; lia).
  assert (HJ : 0 < J) by (apply Z.pow_pos_nonneg; lia).
  assert (HS : 0 < S) by (apply Z.pow_pos_nonneg; lia).
  assert (HG : 0 < G) by (apply Z.pow_pos_nonneg; lia).
  assert (HMc0 : 0 < Mc) by (rewrite HMc; apply Z.mul_pos_pos; lia).
  assert (HGK : G * K1 * K2 = 2 ^ 53 * S * J).
  { unfold G, K1, K2, J, S, g. rewrite <- !Z.pow_add_r by lia. f_equal. lia. }
  assert (HK1X : 0 < K1 * X) by (apply Z.mul_pos_pos; lia).
  set (W := K1 * K2 * X).
  assert (HW : 0 < W).
  { unfold W. replace (K1 * K2 * X) with (K1 * X * K2) by ring.
    apply Z.mul_pos_pos; lia. }
  assert (HGW : G * W = 2 ^ 53 * S * J * X)
    by (rewrite <- HGK; unfold W; ring).
  assert (Hquot : 2 ^ 53 * Z.abs (Mq * K1 * X * b - b * Y * 2 ^ 53)
                  <= Mq * K1 * X * b).
  { replace (Mq * K1 * X * b - b * Y * 2 ^ 53)
      with (b * (Mq * K1 * X - Y * 2 ^ 53)) by ring.
    rewrite Z.abs_mul, (Z.abs_eq b) by lia.
    assert (2 ^ 52 * (K1 * X) <= Mq * (K1 * X))
      by (apply Z.mul_le_mono_nonneg_r; lia).
    assert (b * (2 * Z.abs (Mq * K1 * X - Y * 2 ^ 53)) <= b * (K1 * X))
      by (apply Z.mul_le_mono_nonneg_l; lia).
    assert (b * (2 ^ 52 * (K1 * X)) <= b * (Mq * (K1 * X)))
      by (apply Z.mul_le_mono_nonneg_l; lia).
    change (2 ^ 53) with (2 ^ 52 * 2) at 1.
    assert (2 ^ 52 * (b * (2 * Z.abs (Mq * K1 * X - Y * 2 ^ 53)))
            <= 2 ^ 52 * (b * (K1 * X)))
      by (apply Z.mul_le_mono_nonneg_l; lia).
    lia. }
  assert (Hprod : 2 ^ 53 * Z.abs (Mp * W - Mc * (Mq * K1 * X)) <= Mp * W).
  { replace (Mp * W - Mc * (Mq * K1 * X))
      with ((K1 * X) * (Mp * K2 - Mq * Mc))
      by (unfold W; ring).
    rewrite Z.abs_mul, (Z.abs_eq (K1 * X)) by lia.
    assert (2 ^ 52 * (K1 * X * K2) <= Mp * (K1 * X * K2)).
    { apply Z.mul_le_mono_nonneg_r; [|lia].
      apply Z.mul_nonneg_nonneg; lia. }
    assert (K1 * X * (2 * Z.abs (Mp * K2 - Mq * Mc)) <= K1 * X * K2)
      by (apply Z.mul_le_mono_nonneg_l; lia).
    replace (Mp * W) with (Mp * (K1 * X * K2)) by (unfold W; ring).
    change (2 ^ 53) with (2 ^ 52 * 2) at 1.
    assert (2 ^ 52 * (K1 * X * (2 * Z.abs (Mp * K2 - Mq * Mc)))
            <= 2 ^ 52 * (K1 * X * K2))
      by (apply Z.mul_le_mono_nonneg_l; lia).
    lia. }
  assert (Hexact : Mc * (b * Y * 2 ^ 53) = c * a * (G * W)).
  { rewrite HGW, HMc.
    replace (c * a * (2 ^ 53 * S * J * X))
      with (c * S * (a * X * J * 2 ^ 53)) by ring.
    now rewrite Hscale. }
  assert (Hfloor : 2 * (G * W) * n <= 2 * (Mp * W) + G * W
                   < 2 * (G * W) * (n + 1)).
  { pose proof (Z.div_mod (2 * Mp + G) (2 * G) ltac:(lia)) as Hdm.
    pose proof (Z.mod_pos_bound (2 * Mp + G) (2 * G) ltac:(lia)) as Hmod.
    rewrite <- Hn in Hdm.
    set (r := (2 * Mp + G) mod (2 * G)) in *.
    replace (2 * (Mp * W) + G * W) with ((2 * Mp + G) * W) by ring.
    rewrite Hdm.
    replace (2 * (G * W) * n) with (2 * G * n * W) by ring.
    replace (2 * (G * W) * (n + 1)) with ((2 * G * n + 2 * G) * W) by ring.
    split.
    - apply Z.mul_le_mono_nonneg_r; lia.
    - apply Z.mul_lt_mono_pos_r; lia. }
  cut (2 * Z.abs (n * b - c * a) <= b /\ 0 <= n <= c); [tauto|].
  apply (nearest_after_scaling c a b n (G * W) (Mp * W) (Mq * K1 * X)
           (b * Y * 2 ^ 53) Mc); try assumption.
  - lia.
  - lia.
  - apply Z.mul_pos_pos; lia.
  - apply Z.mul_pos_pos; lia.
  - replace (Mq * K1 * X) with (Mq * (K1 * X)) by ring.
    apply Z.mul_pos_pos; lia.
Qed.

(** [Math.round((a / b) * c)] for integers [a <= b] below 2^32 and [c]
    up to 100 is an integer from 0 to [c], and a nearest one to
    [c * a / b]. *)
Lemma scaled_nearest (a b c : nat) :
  (a <= b)%nat -> (0 < b)%nat -> Z.of_nat b < 2 ^ 32 -> (0 < c <= 100)%nat ->
  exists n : Z,
    Number.Math_round
      (Number.mul (Number.div (Number.of_nat a) (Number.of_nat b))
         (Number.of_nat c)) = Number.of_Z n /\
    0 <= n <= Z.of_nat c /\
    2 * Z.abs (n * Z.of_nat b - Z.of_nat c * Z.of_nat a) <= Z.of_nat b.
Proof.
  intros Hab Hb Hb32 Hc.
  assert (H53 : 2 ^ 32 < 2 ^ 53) by reflexivity.
  destruct a as [|a'].
  { destruct (NumberFacts.of_nat_normal b Hb ltac:(lia)) as (Mb & Eb & Hofb & _).
    destruct (NumberFacts.of_nat_normal c ltac:(lia) ltac:(lia))
      as (Mc & Ec & Hofc & _).
    exists 0. rewrite Hofb, Hofc.
    split; [reflexivity|]. simpl. lia. }
  destruct (scaled_traced (S a') b c ltac:(lia) Hb32 Hc) as (n & Hn & Htrace).
  exists n. split; [exact Hn|].
  apply scaled_trace_nearest; [lia|lia|exact Hb32|exact Htrace].
Qed.

End ScalingFacts.

(** ** The progress bar *)

Module BarFacts.

Local Open Scope string_scope.
Local Open Scope Z_scope.

(** A natural number below 2^53, as a Number: zero, or a positive
    finite Number that holds it. *)
Lemma of_nat_cases (n : nat) :
  Z.of_nat n < 2 ^ 53 ->
  (n = 0%nat /\ Number.of_nat n = S754_zero false) \/
  exists (M : positive) (E : Z),
    Number.of_nat n = S754_finite false M E /\
    -52 <= E <= 0 /\ Z.pos M = Z.of_nat n * 2 ^ (- E).
Proof.
  intros Hn. destruct n as [|n]; [left; split; reflexivity|right].
  destruct (NumberFacts.of_nat_normal (S n) ltac:(lia) Hn)
    as (M & E & Hof & _ & HE & HM).
  exists M, E. auto.
Qed.

Lemma truncate_of_nat (n : nat) :
  Z.of_nat n < 2 ^ 53 -> Number.truncate (Number.of_nat n) = Z.of_nat n.
Proof.
  intros Hn.
  destruct (of_nat_cases n Hn) as [[-> ->]|(M & E & -> & HE & HM)];
    [reflexivity|].
  unfold Number.truncate, Number.signed.
  destruct (0 <=? E) eqn:H0.
  - apply Z.leb_le in H0. assert (E = 0) by lia. subst E.
    simpl in *. lia.
  - rewrite HM. apply Z.quot_mul.
    apply Z.pow_nonzero; lia.
Qed.

Lemma to_Z_of_nat (n : nat) :
  Z.of_nat n < 2 ^ 53 -> Number.to_Z (Number.of_nat n) = Some (Z.of_nat n).
Proof.
  intros Hn.
  destruct (of_nat_cases n Hn) as [[-> ->]|(M & E & -> & HE & HM)];
    [reflexivity|].
  unfold Number.to_Z, Number.signed.
  destruct (0 <=? E) eqn:H0.
  - apply Z.leb_le in H0. assert (E = 0) by lia. subst E.
    simpl in *. f_equal. lia.
  - assert (Hpow : 0 < 2 ^ (- E)) by (apply Z.pow_pos_nonneg; lia).
    rewrite HM, Z.mod_mul, Z.eqb_refl by lia.
    f_equal. apply Z.div_mul. lia.
Qed.

(** A template literal prints such a Number as its numeral. *)
Lemma of_Number_of_nat (n : nat) :
  Z.of_nat n < 2 ^ 53 ->
  Str.of_Number (Number.of_nat n) = Some (Str.of_nat n).
Proof.
  intros Hn. unfold Str.of_Number.
  rewrite (to_Z_of_nat n Hn).
  destruct (of_nat_cases n Hn) as [[-> ->]|(M & E & -> & _)].
  - reflexivity.
  - destruct (Z.abs (Z.of_nat n) <? 2 ^ 53) eqn:Hlt;
      [|apply Z.ltb_ge in Hlt; lia].
    unfold Str.of_Z.
    destruct (Z.of_nat n <? 0) eqn:Hneg; [apply Z.ltb_lt in Hneg; lia|].
    now rewrite Nat2Z.id.
Qed.

(** [repeat] with a count that is such a Number. *)
Lemma repeat_of_nat (s : string) (n : nat) :
  Z.of_nat n < 2 ^ 53 ->
  Text.repeat s (Number.of_nat n) = Returns (Text.copies n s).
Proof.
  intros Hn. unfold Text.repeat.
  rewrite (truncate_of_nat n Hn).
  destruct (Z.of_nat n <? 0) eqn:Hneg; [apply Z.ltb_lt in Hneg; lia|].
  rewrite Nat2Z.id.
  destruct (of_nat_cases n Hn) as [[-> ->]|(M & E & -> & _)]; reflexivity.
Qed.

(** The empty cells: 30 less the filled ones, exactly. *)
Lemma width_less (n : nat) :
  (n <= 30)%nat ->
  Number.sub (Number.of_Z 30) (Number.of_nat n) = Number.of_nat (30 - n).
Proof.
  intros Hn.
  do 31 (destruct n as [|n]; [vm_compute; reflexivity|]). lia.
Qed.

End BarFacts.

Section BarExtras.

Import Session.

Variable random : nat -> Number.t.

Local Open Scope string_scope.

(** X14. In a reachable session with questions [renderProgressBar]
    returns a bar of exactly 30 cells, the filled ones first, then the
    percentage of [progress]: the filled cells are a nearest integer to
    30 * position / total, none before the first answer and all 30 once
    the quiz is complete. In a reachable session without questions the
    bar has no cell at all and reads NaN. (An array has fewer than 2^32
    elements.) *)
Theorem renderProgressBar_draws_thirty_cells :
  (forall q : Quiz.t,
     reachable random q ->
     (0 < Quiz.totalQuestions q)%nat ->
     Z.of_nat (Quiz.totalQuestions q) < 2 ^ 32 ->
     exists filled percentage : nat,
       Quiz.renderProgressBar q =
         Returns
           (Some ("[" ++ Text.copies filled "█"
                      ++ Text.copies (30 - filled) "░"
                      ++ "] " ++ Str.of_nat percentage ++ "%")) /\
       (filled <= 30)%nat /\
       2 * Z.abs (Z.of_nat filled * Z.of_nat (Quiz.totalQuestions q)
                  - 30 * Z.of_nat (Quiz.currentIndex q))
         <= Z.of_nat (Quiz.totalQuestions q) /\
       Quiz.progress q = Number.of_nat percentage /\
       (percentage <= 100)%nat /\
       (Quiz.currentIndex q = 0%nat -> filled = 0%nat /\ percentage = 0%nat) /\
       (Quiz.isComplete q = true ->
        filled = 30%nat /\ percentage = 100%nat)) /\
  (forall q : Quiz.t,
     reachable random q ->
     Quiz.totalQuestions q = 0%nat ->
     Quiz.renderProgressBar q = Returns (Some "[] NaN%")).
Proof.
  split.
  - intros q Hreach Htotal Hbound.
    destruct (SessionFacts.reachable_bounds random q Hreach) as [_ Hpos].
    destruct (ScalingFacts.scaled_nearest (Quiz.currentIndex q)
                (Quiz.totalQuestions q) 30 Hpos Htotal Hbound ltac:(lia))
      as (n & Hfilled & Hn & Hnear).
    destruct (NumberFacts.percent_nearest (Quiz.currentIndex q)
                (Quiz.totalQuestions q) Hpos Htotal Hbound)
      as (p & Hprogress & Hp & Hpnear).
    change (Quiz.percent _ _) with (Quiz.progress q) in Hprogress.
    assert (H53 : 2 ^ 5 < 2 ^ 53 /\ 2 ^ 7 < 2 ^ 53) by (split; reflexivity).
    change (2 ^ 5) with 32 in H53. change (2 ^ 7) with 128 in H53.
    exists (Z.to_nat n), (Z.to_nat p).
    assert (Hn' : Number.of_Z n = Number.of_nat (Z.to_nat n))
      by (unfold Number.of_nat; now rewrite Z2Nat.id by lia).
    assert (Hp' : Number.of_Z p = Number.of_nat (Z.to_nat p))
      by (unfold Number.of_nat; now rewrite Z2Nat.id by lia).
    change (Number.of_nat 30) with (Number.of_Z 30) in Hfilled.
    rewrite Hn' in Hfilled. rewrite Hp' in Hprogress.
    split.
    { unfold Quiz.renderProgressBar. rewrite Hfilled, Hprogress.
      rewrite BarFacts.repeat_of_nat by lia.
      rewrite BarFacts.width_less by lia.
      rewrite BarFacts.repeat_of_nat by lia.
      rewrite BarFacts.of_Number_of_nat by lia.
      reflexivity. }
    rewrite !Z2Nat.id by lia.
    split; [lia|]. split; [exact Hnear|]. split; [exact Hprogress|].
    split; [lia|].
    set (T := Z.of_nat (Quiz.totalQuestions q)) in *.
    assert (HT : 0 < T) by (unfold T; lia).
    split.
    + intros Hstart. rewrite Hstart in Hnear, Hpnear. simpl in Hnear, Hpnear.
      split.
      * assert (n = 0); [|lia].
        destruct (Z.eq_dec n 0) as [|Hne]; [assumption|exfalso].
        assert (1 * T <= n * T) by (apply Z.mul_le_mono_nonneg_r; lia). lia.
      * assert (p = 0); [|lia].
        destruct (Z.eq_dec p 0) as [|Hne]; [assumption|exfalso].
        assert (1 * T <= p * T) by (apply Z.mul_le_mono_nonneg_r; lia). lia.
    + intros Hdone. unfold Quiz.isComplete in Hdone. apply Nat.leb_le in Hdone.
      assert (Hall : Z.of_nat (Quiz.currentIndex q) = T) by (unfold T; lia).
      rewrite Hall in Hnear, Hpnear.
      split.
      * assert (n = 30); [|lia].
        destruct (Z.eq_dec n 30) as [|Hne]; [assumption|exfalso].
        assert (n * T <= 29 * T) by (apply Z.mul_le_mono_nonneg_r; lia). lia.
      * assert (p = 100); [|lia].
        destruct (Z.eq_dec p 100) as [|Hne]; [assumption|exfalso].
        assert (p * T <= 99 * T) by (apply Z.mul_le_mono_nonneg_r; lia). lia.
  - intros q Hreach Htotal.
    destruct (SessionFacts.reachable_bounds random q Hreach) as [_ Hpos].
    assert (Hstart : Quiz.currentIndex q = 0%nat) by lia.
    unfold Quiz.renderProgressBar, Quiz.progress.
    unfold Quiz.totalQuestions in *. rewrite Htotal, Hstart.
    vm_compute. reflexivity.
Qed.

End BarExtras.

Lemma renderProgressBar_of_a_new_quiz :
  exists filled percentage : nat,
    Quiz.renderProgressBar Samples.fresh_pair =
      Returns
        (Some ("[" ++ Text.copies filled "█"
                   ++ Text.copies (30 - filled) "░"
                   ++ "] " ++ Str.of_nat percentage ++ "%")%string) /\
    (filled <= 30)%nat /\
    2 * Z.abs (Z.of_nat filled
                 * Z.of_nat (Quiz.totalQuestions Samples.fresh_pair)
               - 30 * Z.of_nat (Quiz.currentIndex Samples.fresh_pair))
      <= Z.of_nat (Quiz.totalQuestions Samples.fresh_pair) /\
    Quiz.progress Samples.fresh_pair = Number.of_nat percentage /\
    (percentage <= 100)%nat /\
    (Quiz.currentIndex Samples.fresh_pair = 0%nat ->
     filled = 0%nat /\ percentage = 0%nat) /\
    (Quiz.isComplete Samples.fresh_pair = true ->
     filled = 30%nat /\ percentage = 100%nat).
Proof.
  apply (proj1 (renderProgressBar_draws_thirty_cells Samples.halves)
           Samples.fresh_pair).
  - exact SessionFacts.fresh_pair_reachable.
  - vm_compute. lia.
  - vm_compute. reflexivity.
Defined.


(** ** More on the percentages *)

Module PercentFacts.

Import Session.

Local Open Scope Z_scope.

(** Only the percentage 100 has the message of a perfect score. *)
Lemma perfect_row (p : Z) :
  tier_message (tier_of p) = tier_message perfect <-> p = 100.
Proof.
  unfold tier_of. destruct (p =? 100) eqn:H100.
  - apply Z.eqb_eq in H100. tauto.
  - apply Z.eqb_neq in H100.
    destruct (80 <=? p), (60 <=? p), (40 <=? p);
      split; try contradiction; discriminate.
Qed.

(** Below 200 questions the nearest percentage is 100 for a full
    score only. *)
Lemma full_percentage (a b p : Z) :
  0 <= a <= b -> 0 < b < 200 -> 0 <= p <= 100 ->
  2 * Z.abs (p * b - 100 * a) <= b ->
  p = 100 <-> a = b.
Proof.
  intros Ha Hb Hp Hnear. split.
  - intros ->. lia.
  - intros ->. destruct (Z.eq_dec p 100) as [|Hne]; [assumption|exfalso].
    assert (p * b <= 99 * b) by (apply Z.mul_le_mono_nonneg_r; lia). lia.
Qed.

(** One answer more, and the nearest percentage does not go back; with
    fewer than 100 questions it goes on. *)
Lemma next_percentage (a b p p' : Z) :
  0 <= a -> 0 < b ->
  2 * Z.abs (p * b - 100 * a) <= b ->
  2 * Z.abs (p' * b - 100 * (a + 1)) <= b ->
  p <= p' /\ (b < 100 -> p < p').
Proof.
  intros Ha Hb Hp Hp'. split.
  - destruct (Z_le_gt_dec p p') as [Hle|Hgt]; [exact Hle|exfalso].
    assert ((p' + 1) * b <= p * b) by (apply Z.mul_le_mono_nonneg_r; lia).
    lia.
  - intros Hsmall.
    destruct (Z_lt_le_dec p p') as [Hlt|Hge]; [exact Hlt|exfalso].
    assert (p' * b <= p * b) by (apply Z.mul_le_mono_nonneg_r; lia).
    lia.
Qed.

(** The exact percentage rounds half up to 100 when at most one answer
    in 200 is wrong. *)
Lemma round_half_up_full (a b : Z) :
  0 <= a <= b -> 0 < b ->
  Rounding.round_half_up a b = 100 <-> 200 * (b - a) <= b.
Proof.
  intros Ha Hb. unfold Rounding.round_half_up. split.
  - intros Hq.
    pose proof (Z.mul_div_le (200 * a + b) (2 * b) ltac:(lia)) as Hle.
    rewrite Hq in Hle. lia.
  - intros Hle. symmetry.
    apply (Z.div_unique (200 * a + b) (2 * b) 100 (200 * a + b - 200 * b));
      lia.
Qed.

End PercentFacts.

Section PercentExtras.

Import Session.

Variable random : nat -> Number.t.

Local Open Scope Z_scope.

(** X15. Answering a question never takes [progress] back: in a
    reachable session with questions the percentage after a call of
    [askQuestion] is at least the one before, and greater when the quiz
    was in progress and has fewer than 100 questions. (An array has
    fewer than 2^32 elements.) *)
Theorem progress_never_goes_back (q : Quiz.t) (w : Input.World) (b : bool)
    (q' : Quiz.t) (w' : Input.World) :
  reachable random q ->
  (0 < Quiz.totalQuestions q)%nat ->
  Z.of_nat (Quiz.totalQuestions q) < 2 ^ 32 ->
  Quiz.askQuestion q w = Some (b, q', w') ->
  exists p p' : Z,
    Quiz.progress q = Number.of_Z p /\
    Quiz.progress q' = Number.of_Z p' /\
    0 <= p <= p' /\ p' <= 100 /\
    (Quiz.isComplete q = false ->
     (Quiz.totalQuestions q < 100)%nat -> p < p').
Proof.
  intros Hreach Htotal Hbound Hask.
  pose proof (reachable_askQuestion random _ _ _ _ _ Hreach Hask) as Hreach'.
  destruct (SessionFacts.reachable_bounds random q Hreach) as [_ Hpos].
  destruct (SessionFacts.reachable_bounds random q' Hreach') as [_ Hpos'].
  destruct (NumberFacts.percent_nearest (Quiz.currentIndex q)
              (Quiz.totalQuestions q) Hpos Htotal Hbound)
    as (p & Hp & Hrange & Hnear).
  change (Quiz.percent _ _) with (Quiz.progress q) in Hp.
  apply SessionFacts.askQuestion_inv in Hask
    as [(Hnone & _ & -> & _)|(cq & sel & Hcq & Hsel & Hsub)].
  - exists p, p. repeat split; try assumption; try lia.
    intros Hgo. apply SessionFacts.currentQuestion_complete in Hnone.
    congruence.
  - assert (Hq : Quiz.questions q' = Quiz.questions q)
      by (unfold Quiz.submitAnswer in Hsub; now injection Hsub as _ <-).
    assert (Hi : Quiz.currentIndex q' = S (Quiz.currentIndex q))
      by (unfold Quiz.submitAnswer in Hsub; now injection Hsub as _ <-).
    assert (Ht : Quiz.totalQuestions q' = Quiz.totalQuestions q)
      by (unfold Quiz.totalQuestions; now rewrite Hq).
    rewrite Ht in Hpos'.
    destruct (NumberFacts.percent_nearest (Quiz.currentIndex q')
                (Quiz.totalQuestions q) Hpos' Htotal Hbound)
      as (p' & Hp' & Hrange' & Hnear').
    rewrite <- Ht in Hp' at 1.
    change (Quiz.percent _ _) with (Quiz.progress q') in Hp'.
    rewrite Hi, Nat2Z.inj_succ in Hnear'. unfold Z.succ in Hnear'.
    destruct (PercentFacts.next_percentage (Z.of_nat (Quiz.currentIndex q))
                (Z.of_nat (Quiz.totalQuestions q)) p p' ltac:(lia) ltac:(lia)
                Hnear Hnear') as [Hle Hlt].
    exists p, p'. repeat split; try assumption; try lia.
Qed.

(** X16. [showResults] prints the message of a perfect score exactly
    when at most one answer in 200 is wrong, that is when
    [200 * (total - score) <= total]. So with fewer than 200 questions
    it is printed exactly when every answer was right, and from 200
    questions on it is also printed when one answer was wrong. (An array
    has fewer than 2^32 elements.) *)
Theorem perfect_score_means_every_answer_right (q : Quiz.t) :
  reachable random q ->
  (0 < Quiz.totalQuestions q)%nat ->
  Z.of_nat (Quiz.totalQuestions q) < 2 ^ 32 ->
  exists results : Quiz.Results,
    Quiz.showResults q = Returns results /\
    ((Quiz.message results, Quiz.emoji results) = tier_message perfect
     <-> 200 * (Z.of_nat (Quiz.totalQuestions q) - Z.of_nat (Quiz.score q))
         <= Z.of_nat (Quiz.totalQuestions q)) /\
    ((Quiz.totalQuestions q < 200)%nat ->
     ((Quiz.message results, Quiz.emoji results) = tier_message perfect
      <-> Quiz.score q = Quiz.totalQuestions q)) /\
    ((200 <= Quiz.totalQuestions q)%nat ->
     S (Quiz.score q) = Quiz.totalQuestions q ->
     (Quiz.message results, Quiz.emoji results) = tier_message perfect).
Proof.
  intros Hreach Htotal Hbound.
  destruct (ResultsFacts.showResults_returns q
              (SessionFacts.reachable_recorded random q Hreach))
    as [results Hresults].
  destruct (ResultsFacts.showResults_inv q results Hresults)
    as (_ & _ & _ & Hpercent & Hmessage & _).
  destruct (SessionFacts.reachable_bounds random q Hreach) as [Hscore _].
  destruct (TieFacts.percent_spec (Quiz.score q) (Quiz.totalQuestions q)
              Hscore Htotal Hbound)
    as (p & Hp & Hrange & _ & Htier).
  exists results. split; [exact Hresults|].
  rewrite Hmessage, Hpercent, Hp.
  rewrite (ResultsFacts.performance_table p (tier_of p) Hrange
             (ResultsFacts.in_table_of_tier p Hrange)).
  rewrite Htier, PercentFacts.perfect_row.
  rewrite (PercentFacts.round_half_up_full (Z.of_nat (Quiz.score q))
             (Z.of_nat (Quiz.totalQuestions q))) by lia.
  split; [reflexivity|]. split.
  - intros Hsmall. lia.
  - intros Hlarge Hone. lia.
Qed.

End PercentExtras.

Lemma progress_goes_on_after_the_first_answer :
  exists (q' : Quiz.t) (w' : Input.World),
    Samples.half_way = Some (q', w') /\
    exists p p' : Z,
      Quiz.progress Samples.fresh_pair = Number.of_Z p /\
      Quiz.progress q' = Number.of_Z p' /\
      0 <= p <= p' /\ p' <= 100 /\
      (Quiz.isComplete Samples.fresh_pair = false ->
       (Quiz.totalQuestions Samples.fresh_pair < 100)%nat -> p < p').
Proof.
  destruct Samples.half_way as [[q' w']|] eqn:Hrun;
    [|vm_compute in Hrun; discriminate].
  exists q', w'. split; [reflexivity|].
  unfold Samples.half_way in Hrun.
  change (Samples.new_quiz _ _ _)
    with (Some (Samples.fresh_pair, Samples.typing ["1"; "3"]%string))
    in Hrun.
  unfold Samples.ask in Hrun.
  destruct (Quiz.askQuestion Samples.fresh_pair
              (Samples.typing ["1"%string; "3"%string]))
    as [[[b q1] w1]|] eqn:Hask; [|discriminate].
  assert (Hq : q1 = q') by congruence. subst q1.
  apply (progress_never_goes_back Samples.halves Samples.fresh_pair
           (Samples.typing ["1"%string; "3"%string]) b q' w1).
  - exact SessionFacts.fresh_pair_reachable.
  - vm_compute. lia.
  - vm_compute. reflexivity.
  - exact Hask.
Defined.

Lemma perfect_score_after_two_right_answers :
  exists (q : Quiz.t) (w : Input.World),
    Samples.all_right = Some (q, w) /\
    exists results : Quiz.Results,
      Quiz.showResults q = Returns results /\
      ((Quiz.message results, Quiz.emoji results)
         = Session.tier_message Session.perfect
       <-> 200 * (Z.of_nat (Quiz.totalQuestions q) - Z.of_nat (Quiz.score q))
           <= Z.of_nat (Quiz.totalQuestions q)) /\
      ((Quiz.totalQuestions q < 200)%nat ->
       ((Quiz.message results, Quiz.emoji results)
          = Session.tier_message Session.perfect
        <-> Quiz.score q = Quiz.totalQuestions q)) /\
      ((200 <= Quiz.totalQuestions q)%nat ->
       S (Quiz.score q) = Quiz.totalQuestions q ->
       (Quiz.message results, Quiz.emoji results)
         = Session.tier_message Session.perfect).
Proof.
  eexists _, _. split; [vm_compute; reflexivity|].
  apply (perfect_score_means_every_answer_right Samples.halves).
  - eapply (Session.reachable_askQuestion _ _ (Samples.typing ["2"%string])).
    + eapply (Session.reachable_askQuestion _ Samples.fresh_pair
                (Samples.typing ["1"%string])).
      * exact SessionFacts.fresh_pair_reachable.
      * vm_compute. reflexivity.
    + vm_compute. reflexivity.
  - vm_compute. lia.
  - vm_compute. reflexivity.
Defined.
